(** * dusk-blockchain: chain acceptance, vote aggregation, score selection,
      block store and stall detection

    A shallow embedding of the Go sources

      - [pkg/p2p/peer/stall/stall.go]              (module [Stall])
      - [pkg/core/database/lite/transactions.go]   (module [Lite])
      - [pkg/core/consensus/reduction] aggregator  (module [Reduction])
      - [pkg/core/consensus/selection] selector    (module [Selection])
      - [pkg/core/consensus/agreement] component   (module [Agreement])
      - [pkg/core/chain/chain.go]                  (module [Chain])

    with the blacklist the chain keeps ([dupemap.TmpMap], module [Dupemap]).

    Go maps are [gmap]s, byte slices are lists of [Byte.byte], unsigned
    integers are [Z] with their range written out where it matters, and
    every method with a receiver takes the receiver's state and returns the
    new one.  Collaborators reached through interfaces (executor, verifier,
    database driver, signer, consensus handlers) are type classes; module
    [Toy] gives small concrete instances on which the code is run. *)

From Stdlib Require Import ZArith List Bool Lia String.
From stdpp Require Import base decidable countable gmap gmultiset list option.

Local Open Scope Z_scope.

#[local] Set Warnings "-clear-no-such-hyp".

(** ** Bytes *)

Abbreviation byte := Byte.byte.
Abbreviation bytes := (list Byte.byte).

#[global] Instance byte_eq_dec : EqDecision byte := Byte.byte_eq_dec.

#[global] Instance byte_countable : Countable byte :=
  inj_countable Byte.to_N Byte.of_N Byte.of_to_N.

(** [bytes.Equal]: content equality; a nil and an empty slice are equal. *)
Definition bytes_Equal (a b : bytes) : bool := bool_decide (a = b).

(** [make([]byte, n)] *)
Definition zero_bytes (n : nat) : bytes := repeat Byte.x00 n.

(** ** Unsigned integers *)

Definition wrap (w : Z) (x : Z) : Z := x mod 2 ^ w.
Definition uint8 (x : Z) : Z := wrap 8 x.
Definition uint32 (x : Z) : Z := wrap 32 x.
Definition uint64 (x : Z) : Z := wrap 64 x.

(** [int64] arithmetic wraps around in two's complement. *)
Definition int64 (x : Z) : Z := (x + 2 ^ 63) mod 2 ^ 64 - 2 ^ 63.

Definition byte_of_Z (x : Z) : byte :=
  match Byte.of_N (Z.to_N (Z.land x 255)) with
  | Some b => b
  | None => Byte.x00
  end.

Definition Z_of_byte (b : byte) : Z := Z.of_N (Byte.to_N b).

(** [binary.LittleEndian.PutUint64] / [utils.WriteUint64] *)
Definition PutUint64 (x : Z) : bytes :=
  map (fun i => byte_of_Z (Z.shiftr x (8 * Z.of_nat i))) (seq 0 8).

(** [binary.LittleEndian.Uint64], on the first eight bytes of [b]. *)
Definition Uint64 (b : bytes) : Z :=
  fold_right (fun x acc => Z.lor (Z_of_byte x) (Z.shiftl acc 8)) 0 (take 8 b).

(** ** Errors and results *)

(** The error values the sources name, and [errNew] for the ones built on
    the spot by [errors.New] and [fmt.Errorf] or handed back by a
    collaborator. *)
Inductive error : Type :=
  | errInvalidStateHash
  | ErrBlockAlreadyAccepted
  | ErrBlockNotFound
  | ErrTxNotFound
  | ErrStateNotFound
  | ErrKeyImageNotFound
  | errNew (msg : string).

#[global] Instance error_eq_dec : EqDecision error.
Proof. solve_decision. Defined.

(** A Go pair [(value, error)] of which only one side is meaningful. *)
Inductive result (A : Type) : Type :=
  | Ok (a : A)
  | Err (e : error).

Arguments Ok {A} a.
Arguments Err {A} e.

(** ** Blocks *)

(** The header fields the sources below read. *)
Record Certificate : Type := mkCertificate {
  Step : Z
}.

Record Header : Type := mkHeader {
  Height : Z;
  Timestamp : Z;
  Hash : bytes;
  Seed : bytes;
  StateHash : bytes;
  Cert : Certificate
}.

Record Block (Tx : Type) : Type := mkBlock {
  Hdr : Header;
  Txs : list Tx
}.

Arguments mkBlock {Tx} Hdr Txs.
Arguments Hdr {Tx} b.
Arguments Txs {Tx} b.

(** [block.NewBlock()] *)
Definition NewHeader : Header :=
  {| Height := 0; Timestamp := 0; Hash := []; Seed := []; StateHash := [];
     Cert := {| Step := 0 |} |}.

Definition NewBlock {Tx : Type} : Block Tx := {| Hdr := NewHeader; Txs := [] |}.

(** ** Stall detector: [pkg/p2p/peer/stall/stall.go] *)

Module Stall.

(** The wire commands the detector switches on ([commands.Cmd]); [Ping],
    [Pong] and [Reject] stand for the commands that no case names. *)
Inductive Cmd : Type :=
  | Version | VerAck | GetAddr | Addr | GetHeaders | Headers
  | GetBlocks | Inv | GetData | Block | Tx | NotFound
  | Ping | Pong | Reject.

Definition Cmd_to_nat (c : Cmd) : nat :=
  match c with
  | Version => 0 | VerAck => 1 | GetAddr => 2 | Addr => 3
  | GetHeaders => 4 | Headers => 5 | GetBlocks => 6 | Inv => 7
  | GetData => 8 | Block => 9 | Tx => 10 | NotFound => 11
  | Ping => 12 | Pong => 13 | Reject => 14
  end%nat.

Definition Cmd_of_nat (n : nat) : option Cmd :=
  match n with
  | 0 => Some Version | 1 => Some VerAck | 2 => Some GetAddr | 3 => Some Addr
  | 4 => Some GetHeaders | 5 => Some Headers | 6 => Some GetBlocks
  | 7 => Some Inv | 8 => Some GetData | 9 => Some Block | 10 => Some Tx
  | 11 => Some NotFound | 12 => Some Ping | 13 => Some Pong
  | 14 => Some Reject | _ => None
  end%nat.

#[global] Instance Cmd_eq_dec : EqDecision Cmd.
Proof. solve_decision. Defined.

#[global] Instance Cmd_countable : Countable Cmd.
Proof.
  apply (inj_countable Cmd_to_nat Cmd_of_nat).
  intros []; reflexivity.
Defined.

(** [time.Time] and [time.Duration], in nanoseconds. *)
Definition Time := Z.
Definition Duration := Z.

(** The fields of [Detector] that the message bookkeeping reads and writes;
    the mutex, the quit channel and the ticker belong to the goroutine
    plumbing. *)
Record Detector : Type := mkDetector {
  responseTime : Duration;
  responses : gmap Cmd Time
}.

(** [addMessage]: the replies expected for a command that was sent. *)
Definition addMessage (cmd : Cmd) : list Cmd :=
  match cmd with
  | GetHeaders => [Headers]
  | GetAddr => [Addr]
  | GetData => [Block; Tx; NotFound]
  | GetBlocks => [Inv]
  | Version => [VerAck]
  | _ => []
  end.

(** [removeMessage]: the pending entries cleared by a received command. *)
Definition removeMessage (cmd : Cmd) : list Cmd :=
  match cmd with
  | Block => [Block; Tx; NotFound]
  | Tx => [Block; Tx; NotFound]
  | _ => [cmd]
  end.

(** The loop of [AddMessage]: [time.Now()] is read once per iteration, so
    the clock is a function of the iteration index. *)
Fixpoint add_loop (clock : nat -> Time) (rT : Duration) (i : nat)
    (cmds : list Cmd) (m : gmap Cmd Time) : gmap Cmd Time :=
  match cmds with
  | [] => m
  | c :: rest => add_loop clock rT (S i) rest (<[c := clock i + rT]> m)
  end.

Definition AddMessage (clock : nat -> Time) (cmd : Cmd) (d : Detector) : Detector :=
  {| responseTime := responseTime d;
     responses := add_loop clock (responseTime d) 0 (addMessage cmd) (responses d) |}.

(** The loop of [RemoveMessage]. *)
Fixpoint remove_loop (cmds : list Cmd) (m : gmap Cmd Time) : gmap Cmd Time :=
  match cmds with
  | [] => m
  | c :: rest => remove_loop rest (delete c m)
  end.

Definition RemoveMessage (cmd : Cmd) (d : Detector) : Detector :=
  {| responseTime := responseTime d;
     responses := remove_loop (removeMessage cmd) (responses d) |}.

(** [DeleteAll] and [GetMessages]. *)
Definition DeleteAll (d : Detector) : Detector :=
  {| responseTime := responseTime d; responses := ∅ |}.

Definition GetMessages (d : Detector) : gmap Cmd Time := responses d.

(** [NewDetector] *)
Definition NewDetector (rTime : Duration) : Detector :=
  {| responseTime := rTime; responses := ∅ |}.

End Stall.

(** ** In-memory block store: [pkg/core/database/lite/transactions.go] *)

Module Lite.

(** The driver keeps one table per index in a fixed array ([memdb]). *)
Inductive Ind : Type :=
  | blocksInd | txsInd | txHashInd | heightInd | stateInd
  | bidValuesInd | keyImagesInd | outputKeyInd | provisionersInd.

#[global] Instance Ind_eq_dec : EqDecision Ind.
Proof. solve_decision. Defined.

(** [type table map[key][]byte]; a [key] is a fixed-size byte array, here a
    byte list of length [keyLen]. *)
Abbreviation table := (gmap bytes bytes).
Definition memdb : Type := Ind -> table.

Definition emptydb : memdb := fun _ => ∅.

(** [m[i][k] = v] *)
Definition put (i : Ind) (k v : bytes) (m : memdb) : memdb :=
  fun j => if decide (j = i) then <[k := v]> (m j) else m j.

(** [m[i] = tbl] *)
Definition setTable (i : Ind) (tbl : table) (m : memdb) : memdb :=
  fun j => if decide (j = i) then tbl else m j.

(** Length of the [key] array: hashes are 32 bytes, and the bid-value keys
    (nine bytes of tag, eight of height) fit in it. *)
Definition keyLen : nat := 32.

(** [toKey]: [copy(k[:], d)] truncates a longer slice and leaves the tail of
    the array zero for a shorter one. *)
Definition toKey (d : bytes) : bytes :=
  take keyLen d ++ zero_bytes (keyLen - length d).

(** What the driver takes from other packages: the block codec
    ([message.MarshalBlock], [message.UnmarshalBlock]), the transaction
    hash and the transaction codec ([utils.EncodeBlockTx]), and the key of
    the chain-state entry. *)
Class Driver (Tx : Type) : Type := {
  stateKey : bytes;
  MarshalBlock : Block Tx -> result bytes;
  UnmarshalBlock : bytes -> result (Block Tx);
  CalculateHash : Tx -> result bytes;
  EncodeBlockTx : Tx -> Z -> result bytes
}.

Section Transactions.

Context {Tx : Type} `{D : Driver Tx}.

(** [transaction]: [storage] is the table array of the database the
    transaction points to ([t.db.storage]); it is shared with the database,
    so a write to it is a write to the store. *)
Record transaction : Type := mkTransaction {
  writable : bool;
  storage : memdb;
  batch : memdb
}.

(** The loop of [StoreBlock] over [b.Txs], leaving at the first error with
    the entries written so far still in the batch. *)
Fixpoint storeTxs (hash : bytes) (i : nat) (txs : list Tx) (bt : memdb)
    : option error * memdb :=
  match txs with
  | [] => (None, bt)
  | tx :: rest =>
      match CalculateHash tx with
      | Err e => (Some e, bt)
      | Ok txID =>
          if Nat.eqb (length txID) 0 then
            (Some (errNew "empty chain tx id"), bt)
          else
            match EncodeBlockTx tx (uint32 (Z.of_nat i)) with
            | Err e => (Some e, bt)
            | Ok data =>
                storeTxs hash (S i) rest
                  (put txHashInd (toKey txID) hash
                     (put txsInd (toKey txID) data bt))
            end
      end
  end.

(** The loop that removes expired bid values: every key of the stored
    bid-value table whose height (the eight bytes after the nine-byte tag)
    lies below the block height. *)
Definition removeExpiredBids (height : Z) (tbl : table) : table :=
  filter (fun kv => negb (Uint64 (drop 9 (fst kv)) <? height) = true) tbl.

(** [StoreBlock]. The batch is the fixed array of tables, whose [len] is
    never zero, so the empty-batch guard is never taken. *)
Definition StoreBlock (b : Block Tx) (t : transaction) : option error * transaction :=
  if negb (writable t) then (Some (errNew "read-only transaction"), t)
  else
    match MarshalBlock b with
    | Err e => (Some e, t)
    | Ok blockBytes =>
        let bt1 := put blocksInd (toKey (Hash (Hdr b))) blockBytes (batch t) in
        match storeTxs (Hash (Hdr b)) 0 (Txs b) bt1 with
        | (Some e, bt2) =>
            (Some e, {| writable := writable t; storage := storage t; batch := bt2 |})
        | (None, bt2) =>
            let bt3 := put heightInd (toKey (PutUint64 (Height (Hdr b)))) blockBytes bt2 in
            let bt4 := put stateInd (toKey stateKey) (Hash (Hdr b)) bt3 in
            let st := setTable bidValuesInd
                        (removeExpiredBids (Height (Hdr b)) (storage t bidValuesInd))
                        (storage t) in
            (None, {| writable := writable t; storage := st; batch := bt4 |})
        end
    end.

(** [Commit]: every entry of every batch table is written over the stored
    table of the same index. *)
Definition Commit (t : transaction) : option error * transaction :=
  if negb (writable t) then
    (Some (errNew "read-only transaction cannot commit changes"), t)
  else
    (None, {| writable := writable t;
              storage := fun i => batch t i ∪ storage t i;
              batch := batch t |}).

(** [FetchBlockHeader] *)
Definition FetchBlockHeader (hash : bytes) (t : transaction) : result Header :=
  match storage t blocksInd !! toKey hash with
  | None => Err ErrBlockNotFound
  | Some data =>
      match UnmarshalBlock data with
      | Err e => Err e
      | Ok b => Ok (Hdr b)
      end
  end.

(** [FetchBlockTxs] *)
Definition FetchBlockTxs (hash : bytes) (t : transaction) : result (list Tx) :=
  match storage t blocksInd !! toKey hash with
  | None => Err ErrBlockNotFound
  | Some data =>
      match UnmarshalBlock data with
      | Err e => Err e
      | Ok b => Ok (Txs b)
      end
  end.

(** [FetchBlock] *)
Definition FetchBlock (hash : bytes) (t : transaction) : result (Block Tx) :=
  match FetchBlockHeader hash t with
  | Err e => Err e
  | Ok header =>
      match FetchBlockTxs hash t with
      | Err e => Err e
      | Ok txs => Ok {| Hdr := header; Txs := txs |}
      end
  end.

(** [FetchBlockHashByHeight] *)
Definition FetchBlockHashByHeight (height : Z) (t : transaction) : result bytes :=
  match storage t heightInd !! toKey (PutUint64 height) with
  | None => Err ErrBlockNotFound
  | Some data =>
      match UnmarshalBlock data with
      | Err e => Err e
      | Ok b => Ok (Hash (Hdr b))
      end
  end.

(** [FetchState]: the tip hash, [database.State.TipHash]. *)
Definition FetchState (t : transaction) : result bytes :=
  match storage t stateInd !! toKey stateKey with
  | None => Err ErrStateNotFound
  | Some hash =>
      if Nat.eqb (length hash) 0 then Err ErrStateNotFound else Ok hash
  end.

(** [FetchCurrentHeight] *)
Definition FetchCurrentHeight (t : transaction) : result Z :=
  match FetchState t with
  | Err e => Err e
  | Ok tipHash =>
      match FetchBlockHeader tipHash t with
      | Err e => Err e
      | Ok header => Ok (Height header)
      end
  end.

(** Modelled from the spec: a transaction of the block store opened on a
    store, writable or not, with an empty batch table for every index. *)
Definition begin (w : bool) (st : memdb) : transaction :=
  {| writable := w; storage := st; batch := emptydb |}.

(** Modelled from the spec: the store's single-writer transaction API,
    whose writes are atomic batches; a block is accepted into the store by
    [StoreBlock] in a writable transaction that is committed when
    [StoreBlock] reports no error. *)
Definition acceptIntoStore (b : Block Tx) (st : memdb) : option error * memdb :=
  match StoreBlock b (begin true st) with
  | (Some e, t1) => (Some e, storage t1)
  | (None, t1) =>
      match Commit t1 with
      | (Some e, t2) => (Some e, storage t2)
      | (None, t2) => (None, storage t2)
      end
  end.

(** [FetchBlockExists] *)
Definition FetchBlockExists (hash : bytes) (t : transaction) : result bool :=
  match storage t blocksInd !! toKey hash with
  | None => Err ErrBlockNotFound
  | Some _ => Ok true
  end.

(** [FetchKeyImageExists]: the transaction id stored under a key image. *)
Definition FetchKeyImageExists (keyImage : bytes) (t : transaction) : result bytes :=
  match storage t keyImagesInd !! toKey keyImage with
  | None => Err ErrKeyImageNotFound
  | Some txID => Ok txID
  end.

(** [FetchOutputExists] *)
Definition FetchOutputExists (destkey : bytes) (t : transaction) : result bool :=
  Ok (bool_decide (is_Some (storage t outputKeyInd !! toKey destkey))).

(** [Rollback] *)
Definition Rollback (t : transaction) : option error * transaction := (None, t).

(** The tag of a bid-value key, [[]byte("bidvalues")]. *)
Definition bidValuesTag : bytes := String.list_byte_of_string "bidvalues".

(** [StoreBidValues] *)
Definition StoreBidValues (d k edPk : bytes) (lockTime : Z) (t : transaction)
    : option error * transaction :=
  match FetchCurrentHeight t with
  | Err e => (Some e, t)
  | Ok currentHeight =>
      let heightBytes := PutUint64 (uint64 (lockTime + currentHeight)) in
      let bidKey := toKey (bidValuesTag ++ heightBytes) in
      (None,
       {| writable := writable t; storage := storage t;
          batch := put bidValuesInd bidKey (d ++ k ++ edPk) (batch t) |})
  end.

(** The key of the bid values that expire at a height, as
    [StoreBidValues] builds it. *)
Definition bidKey (expiry : Z) : bytes :=
  toKey (bidValuesTag ++ PutUint64 expiry).

(** [ClearDatabase] *)
Definition ClearDatabase (t : transaction) : option error * transaction :=
  (None, {| writable := writable t; storage := emptydb; batch := batch t |}).

End Transactions.

(** The decoder of a stored transaction, [utils.DecodeBlockTx] with
    [database.AnyTxType]: the transaction and its index in the block. *)
Class TxDecoder (Tx : Type) : Type := {
  DecodeBlockTx : bytes -> result (Tx * Z)
}.

Section TxLookup.

Context {Tx : Type} `{D : Driver Tx} `{TD : TxDecoder Tx}.

(** [math.MaxUint32], the index returned beside an error. *)
Definition MaxUint32 : Z := 2 ^ 32 - 1.

(** [FetchBlockTxByHash]: the transaction, its index and the hash of its
    block. *)
Definition FetchBlockTxByHash (txID : bytes) (t : transaction)
    : result (Tx * Z * bytes) :=
  match storage t txsInd !! toKey txID with
  | None => Err ErrTxNotFound
  | Some data =>
      match DecodeBlockTx data with
      | Err _ => Err ErrTxNotFound
      | Ok (tx, txIndex) =>
          match storage t txHashInd !! toKey txID with
          | None => Err ErrTxNotFound
          | Some hash => Ok (tx, txIndex, hash)
          end
      end
  end.

End TxLookup.

End Lite.

(** ** Outcomes of calls that may panic *)

Inductive outcome (A : Type) : Type :=
  | Returned (a : A)
  | Panicked (e : error).

Arguments Returned {A} a.
Arguments Panicked {A} e.

(** ** Consensus message header: [header.Header] *)

Record MsgHeader : Type := mkMsgHeader {
  PubKeyBLS : bytes;
  Round : Z;
  MStep : Z;
  BlockHash : bytes
}.

(** ** Reduction vote aggregator: [pkg/core/consensus/reduction] *)

Module Reduction.

(** [message.StepVotes]: aggregated public key and signature in their
    serialised form, the committee bitset and the step. *)
Record StepVotes : Type := mkStepVotes {
  Apk : bytes;
  BitSet : Z;
  Signature : bytes;
  SVStep : Z
}.

(** [message.NewStepVotes()] *)
Definition NewStepVotes : StepVotes :=
  {| Apk := []; BitSet := 0; Signature := []; SVStep := 0 |}.

(** [message.Reduction]: the header and the signed hash. *)
Record ReductionMsg : Type := mkReduction {
  State : MsgHeader;
  SignedHash : bytes
}.

(** Modelled from the spec: [sortedset.Cluster], the signer multiset of an
    entry; inserting a key adds one occurrence of it, the total of
    occurrences counts every key with its multiplicity, and the underlying
    set holds every key that occurs. *)
Abbreviation Cluster := (gmultiset bytes).

Definition NewCluster : Cluster := ∅.
Definition ClusterInsert (k : bytes) (c : Cluster) : Cluster := {[+ k +]} ⊎ c.
Definition TotalOccurrences (c : Cluster) : Z := Z.of_nat (size c).
Definition ClusterSet (c : Cluster) : gset bytes := dom c.

(** What the aggregator asks of its [Handler] and of the vote set: the
    voting weight of a key, the committee of a step with the bitset it
    assigns to a set of keys, the committee size of a round, and the
    aggregation of one more signature into a [StepVotes]. *)
Class Handler : Type := {
  Committee : Type;
  VotesFor : bytes -> Z -> Z -> Z;
  CommitteeSize : Z -> Z;
  CommitteeAt : Z -> Z -> Committee;
  Bits : Committee -> gset bytes -> Z;
  Add : bytes -> bytes -> Z -> StepVotes -> result StepVotes
}.

Section Aggregator.

Context `{H : Handler}.

(** Modelled from the spec: [Handler.Quorum], fixed at
    ceil(2 * committee_size / 3) + 1. *)
Definition Quorum (round : Z) : Z := (2 * CommitteeSize round + 2) / 3 + 1.

(** [Aggregator]: the vote sets by block hash. An entry owns its
    [StepVotes] through a pointer that nothing else holds, so writing
    through the pointer is writing the entry. *)
Record Aggregator : Type := mkAggregator {
  voteSets : gmap bytes (StepVotes * Cluster)
}.

Definition NewAggregator : Aggregator := {| voteSets := ∅ |}.

Record Result : Type := mkResult {
  RHash : bytes;
  SV : StepVotes
}.

(** The cluster an aggregator holds for a block hash. *)
Definition clusterOf (a : Aggregator) (hash : bytes) : Cluster :=
  match voteSets a !! hash with
  | Some sv => snd sv
  | None => NewCluster
  end.

(** The loop [for i := 0; i < votes; i++ { sv.Cluster.Insert(pk) }]. *)
Fixpoint insertTimes (n : nat) (k : bytes) (c : Cluster) : Cluster :=
  match n with
  | O => c
  | S n' => insertTimes n' k (ClusterInsert k c)
  end.

(** [addBitSet] *)
Definition addBitSet (sv : StepVotes) (cluster : Cluster) (round step : Z) : StepVotes :=
  let committee := CommitteeAt round step in
  {| Apk := Apk sv; BitSet := Bits committee (ClusterSet cluster);
     Signature := Signature sv; SVStep := SVStep sv |}.

(** [CollectVote] *)
Definition CollectVote (ev : ReductionMsg) (a : Aggregator)
    : outcome (option Result * Aggregator) :=
  let hdr := State ev in
  let hash := BlockHash hdr in
  let sv :=
    match voteSets a !! hash with
    | Some sv => sv
    | None => (NewStepVotes, NewCluster)
    end in
  match Add (SignedHash ev) (PubKeyBLS hdr) (MStep hdr) (fst sv) with
  | Err e => Panicked e
  | Ok stepVotes =>
      let votes := VotesFor (PubKeyBLS hdr) (Round hdr) (MStep hdr) in
      let cluster := insertTimes (Z.to_nat votes) (PubKeyBLS hdr) (snd sv) in
      if Quorum (Round hdr) <=? TotalOccurrences cluster then
        let stepVotes' := addBitSet stepVotes cluster (Round hdr) (MStep hdr) in
        Returned (Some {| RHash := BlockHash hdr; SV := stepVotes' |},
                  {| voteSets := <[hash := (stepVotes', cluster)]> (voteSets a) |})
      else
        Returned (None, {| voteSets := <[hash := (stepVotes, cluster)]> (voteSets a) |})
  end.

(** The votes of a step handed to [CollectVote] one after the other. *)
Fixpoint collectVotes (evs : list ReductionMsg) (a : Aggregator)
    : outcome (list (option Result) * Aggregator) :=
  match evs with
  | [] => Returned ([], a)
  | ev :: rest =>
      match CollectVote ev a with
      | Panicked e => Panicked e
      | Returned (r, a1) =>
          match collectVotes rest a1 with
          | Panicked e => Panicked e
          | Returned (rs, a2) => Returned (r :: rs, a2)
          end
      end
  end.

(** The weighted occurrences the votes [evs] give to a block hash, and the
    keys that contributed at least one. *)
Definition weightOf (ev : ReductionMsg) : nat :=
  Z.to_nat (VotesFor (PubKeyBLS (State ev)) (Round (State ev)) (MStep (State ev))).

Fixpoint weight (hash : bytes) (evs : list ReductionMsg) : nat :=
  match evs with
  | [] => O
  | ev :: rest =>
      ((if decide (BlockHash (State ev) = hash) then weightOf ev else O)
       + weight hash rest)%nat
  end.

Fixpoint signers (hash : bytes) (evs : list ReductionMsg) : gset bytes :=
  match evs with
  | [] => ∅
  | ev :: rest =>
      (if decide (BlockHash (State ev) = hash /\ (0 < weightOf ev)%nat)
       then {[ PubKeyBLS (State ev) ]} else ∅) ∪ signers hash rest
  end.

(** The entry an aggregator holds for a block hash: the one of the map,
    or the fresh one [CollectVote] starts from. *)
Definition entryOf (a : Aggregator) (hash : bytes) : StepVotes * Cluster :=
  match voteSets a !! hash with
  | Some sv => sv
  | None => (NewStepVotes, NewCluster)
  end.

(** What one vote does to the entry of its hash: the signature is
    aggregated by [Add], the sender is inserted once per vote it has, and
    the bitset is written when the cluster has reached the quorum. *)
Definition tallyVote (ev : ReductionMsg) (acc : StepVotes * Cluster)
    : result (StepVotes * Cluster) :=
  let hdr := State ev in
  match Add (SignedHash ev) (PubKeyBLS hdr) (MStep hdr) (fst acc) with
  | Err e => Err e
  | Ok sv =>
      let cl := insertTimes (weightOf ev) (PubKeyBLS hdr) (snd acc) in
      Ok (if Quorum (Round hdr) <=? TotalOccurrences cl
          then addBitSet sv cl (Round hdr) (MStep hdr) else sv,
          cl)
  end.

(** The entry the votes of [evs] for [hash] add up to, from [acc] and in
    their order; the votes for other hashes are passed over. *)
Fixpoint tally (hash : bytes) (evs : list ReductionMsg) (acc : StepVotes * Cluster)
    : result (StepVotes * Cluster) :=
  match evs with
  | [] => Ok acc
  | ev :: rest =>
      if decide (BlockHash (State ev) = hash) then
        match tallyVote ev acc with
        | Err e => Err e
        | Ok acc' => tally hash rest acc'
        end
      else tally hash rest acc
  end.

End Aggregator.

Section Helper.

Context `{H : Handler}.

(** [message.MockReduction(hash, round, step, keys, i)] builds the vote of
    the [i]-th key; it is taken as given. *)
Variable MockReduction : bytes -> Z -> Z -> list bytes -> nat -> ReductionMsg.

(** The votes of a list of keys at a round and step, added up. *)
Definition votesOf (round step : Z) (keys : list bytes) : Z :=
  fold_right (fun k acc => VotesFor k round step + acc) 0 keys.

(** The loop of [Helper.Spawn]: [rest] is [ProvisionersKeys[i+1:]], the
    keys the index has not reached yet.  A round builds the event of key
    [i], moves the index on and adds the votes of the key it now points
    at, which is out of range when no key is left. [count] is an [int]. *)
Fixpoint spawnFrom (keys : list bytes) (hash : bytes) (round step : Z)
    (rest : list bytes) (i : nat) (count : Z) (evs : list ReductionMsg)
    : outcome (list ReductionMsg) :=
  if Quorum round <=? count then Returned evs
  else
    let ev := MockReduction hash round step keys i in
    match rest with
    | [] => Panicked (errNew "index out of range")
    | k :: rest' =>
        spawnFrom keys hash round step rest' (S i)
          (int64 (count + VotesFor k round step)) (evs ++ [ev])
    end.

(** [Helper.Spawn], over the BLS keys of [hlp.ProvisionersKeys]. *)
Definition Spawn (keys : list bytes) (hash : bytes) (round step : Z)
    : outcome (list ReductionMsg) :=
  spawnFrom keys hash round step (drop 1 keys) 0 0 [].

End Helper.

End Reduction.

(** ** Score selector: [pkg/core/consensus/selection] *)

Module Selection.

Inductive Topic : Type := BestScore | ScoreTopic | Generation.

(** What the selector does to its collaborators (event player, timer,
    signer).  The calls it makes itself are kept in the order it makes
    them; a call it hands to a goroutine runs concurrently and is kept
    apart, with no place in that order. *)
Inductive Effect : Type :=
  | Play (id : Z)
  | Pause (id : Z)
  | Resume (id : Z)
  | TimerStart (d : Z)
  | TimerStop
  | SendWithHeader (topic : Topic) (hash payload : bytes) (id : Z)
  | SendAuthenticated (topic : Topic) (hash payload : bytes) (id : Z).

(** The [Score] event with its [Equal] and its codec, and the score
    [Handler] with the state behind it (the threshold). *)
Class ScoreHandler : Type := {
  Score : Type;
  emptyScore : Score;
  Equal : Score -> Score -> bool;
  VoteHash : Score -> bytes;
  MarshalScore : Score -> result bytes;
  HandlerSt : Type;
  Priority : HandlerSt -> Score -> Score -> bool;
  Verify : HandlerSt -> Score -> option error;
  LowerThreshold : HandlerSt -> HandlerSt
}.

Section Selector.

Context `{SH : ScoreHandler}.

(** [Selector]. [bestEvent] is a pointer, nil until the first
    [setBestEvent]; [timeout] is a [time.Duration], an [int64].
    [effects] are the calls made by the selector itself, in order;
    [spawned] are the calls launched with [go], which are not ordered with
    respect to [effects]. *)
Record Selector : Type := mkSelector {
  handler : HandlerSt;
  bestEvent : option Score;
  timeout : Z;
  scoreID : Z;
  effects : list Effect;
  spawned : list Effect
}.

(** [NewComponent] followed by [Initialize]. *)
Definition NewComponent (timeout : Z) (h : HandlerSt) (id : Z) : Selector :=
  {| handler := h; bestEvent := None; timeout := timeout; scoreID := id;
     effects := []; spawned := [] |}.

Definition ID (s : Selector) : Z := scoreID s.

Definition setBestEvent (ev : Score) (s : Selector) : Selector :=
  {| handler := handler s; bestEvent := Some ev; timeout := timeout s;
     scoreID := scoreID s; effects := effects s; spawned := spawned s |}.

Definition setHandler (h : HandlerSt) (s : Selector) : Selector :=
  {| handler := h; bestEvent := bestEvent s; timeout := timeout s;
     scoreID := scoreID s; effects := effects s; spawned := spawned s |}.

Definition setTimeout (d : Z) (s : Selector) : Selector :=
  {| handler := handler s; bestEvent := bestEvent s; timeout := d;
     scoreID := scoreID s; effects := effects s; spawned := spawned s |}.

Definition emit (e : Effect) (s : Selector) : Selector :=
  {| handler := handler s; bestEvent := bestEvent s; timeout := timeout s;
     scoreID := scoreID s; effects := effects s ++ [e]; spawned := spawned s |}.

(** [go f()]: the call is handed to a new goroutine. *)
Definition spawn (e : Effect) (s : Selector) : Selector :=
  {| handler := handler s; bestEvent := bestEvent s; timeout := timeout s;
     scoreID := scoreID s; effects := effects s; spawned := spawned s ++ [e] |}.

(** [startSelection]: [Resume] is launched with [go], the timer is started
    by the selector itself.  [stopSelection]. *)
Definition startSelection (s : Selector) : Selector :=
  emit (TimerStart (timeout s)) (spawn (Resume (scoreID s)) s).

Definition stopSelection (s : Selector) : Selector :=
  emit TimerStop (emit (Pause (scoreID s)) s).

(** [CollectGeneration] *)
Definition CollectGeneration (s : Selector) : option error * Selector :=
  let s1 := setBestEvent emptyScore s in
  let s2 := emit (Play (ID s1)) s1 in
  (None, startSelection s2).

(** [repropagate] *)
Definition repropagate (ev : Score) (s : Selector) : option error * Selector :=
  match MarshalScore ev with
  | Err e => (Some e, s)
  | Ok buf => (None, emit (SendAuthenticated ScoreTopic (VoteHash ev) buf (ID s)) s)
  end.

(** [Process]. [getBestEvent] dereferences the pointer. *)
Definition Process (ev : Score) (s : Selector) : outcome (option error * Selector) :=
  match bestEvent s with
  | None => Panicked (errNew "nil pointer dereference")
  | Some best =>
      if negb (Equal best emptyScore) && Priority (handler s) best ev then
        Returned (None, s)
      else
        let s1 := setBestEvent ev s in
        match Verify (handler s1) ev with
        | Some e => Returned (Some e, setBestEvent best s1)
        | None =>
            match repropagate ev s1 with
            | (Some e, s2) => Returned (Some e, setBestEvent best s2)
            | (None, s2) => Returned (None, s2)
            end
        end
  end.

(** [IncreaseTimeOut] *)
Definition IncreaseTimeOut (s : Selector) : Selector :=
  setTimeout (int64 (timeout s * 2)) s.

(** [publishBestEvent] *)
Definition publishBestEvent (s : Selector) : outcome (option error * Selector) :=
  let s1 := emit (Pause (scoreID s)) s in
  match bestEvent s1 with
  | None => Panicked (errNew "nil pointer dereference")
  | Some best =>
      let s2 :=
        if Equal best emptyScore then
          emit (SendWithHeader BestScore (zero_bytes 32) [] (ID s1)) s1
        else
          emit (SendWithHeader BestScore (VoteHash best) [] (ID s1)) s1 in
      let s3 := setHandler (LowerThreshold (handler s2)) s2 in
      Returned (None, IncreaseTimeOut s3)
  end.

(** [Finalize] *)
Definition Finalize (s : Selector) : Selector := stopSelection s.




End Selector.

End Selection.

(** ** Agreement component: [pkg/core/consensus/agreement] *)

Module Agreement.

(** [consensus.Event]: header and payload of a message on the bus. *)
Record Event : Type := mkEvent {
  EvHeader : MsgHeader;
  Payload : bytes
}.

(** The component's [handler] (committee membership) and the [Agreement]
    message with its constructor and decoder. *)
Class Handler : Type := {
  IsMember : bytes -> Z -> Z -> bool;
  AgreementMsg : Type;
  New : MsgHeader -> AgreementMsg;
  Unmarshal : bytes -> AgreementMsg -> result AgreementMsg
}.

Section Component.

Context `{H : Handler}.

(** The part of [agreement] a message can change: what the accumulator was
    handed through [Process], in order. *)
Record agreement : Type := mkAgreement {
  accumulated : list AgreementMsg
}.

(** [Filter]: true asks the listener to drop the message. *)
Definition Filter (hdr : MsgHeader) : bool :=
  negb (IsMember (PubKeyBLS hdr) (Round hdr) (MStep hdr)).

(** [CollectAgreementEvent] *)
Definition CollectAgreementEvent (event : Event) (a : agreement)
    : option error * agreement :=
  match Unmarshal (Payload event) (New (EvHeader event)) with
  | Err e => (Some e, a)
  | Ok ev => (None, {| accumulated := accumulated a ++ [ev] |})
  end.

(** What became of a message at the listener. *)
Inductive Delivery : Type :=
  | Filtered
  | Collected (err : option error).

(** Modelled from the spec: the filtering listener built by
    [consensus.NewFilteringListener(a.CollectAgreementEvent, a.Filter)]
    rejects a message its filter flags, without processing it, and hands
    every other message to the callback. *)
Definition Notify (event : Event) (a : agreement) : Delivery * agreement :=
  if Filter (EvHeader event) then (Filtered, a)
  else
    let '(err, a') := CollectAgreementEvent event a in
    (Collected err, a').

End Component.

End Agreement.

(** ** Blacklist of displaced tips: [dupemap.TmpMap] *)

Module Dupemap.

(** The digest under which a payload is remembered ([hash.Xxhash]). *)
Class Hasher : Type := {
  Xxhash : bytes -> bytes
}.

Section TmpMap.

Context `{X : Hasher}.

(** Modelled from the spec: the Duplicate Window, [dupemap.TmpMap], a
    height-indexed collection of sets of payload digests with no false
    negatives; [Has] looks in the bucket of the current height, [Add]
    inserts there and tells whether the payload was already present, and
    advancing the height drops the buckets older than the tolerance (the
    behaviour [tmpmap_test.go] exercises). *)
Record TmpMap : Type := mkTmpMap {
  height : Z;
  tolerance : Z;
  msgSets : gmap Z (gset bytes)
}.

Definition NewTmpMap (tolerance : Z) : TmpMap :=
  {| height := 0; tolerance := tolerance; msgSets := ∅ |}.

Definition HasAt (b : bytes) (h : Z) (t : TmpMap) : bool :=
  match msgSets t !! h with
  | None => false
  | Some s => bool_decide (Xxhash b ∈ s)
  end.

Definition Has (b : bytes) (t : TmpMap) : bool := HasAt b (height t) t.

Definition Add (b : bytes) (t : TmpMap) : bool * TmpMap :=
  let bucket := default ∅ (msgSets t !! height t) in
  (Has b t,
   {| height := height t; tolerance := tolerance t;
      msgSets := <[height t := {[ Xxhash b ]} ∪ bucket]> (msgSets t) |}).

Definition UpdateHeight (h : Z) (t : TmpMap) : TmpMap :=
  if h <=? height t then t
  else
    {| height := h; tolerance := tolerance t;
       msgSets := filter (fun kv => negb (fst kv + tolerance t <? h) = true) (msgSets t) |}.

End TmpMap.

End Dupemap.

(** ** Chain acceptor: [pkg/core/chain/chain.go] *)

Module Chain.

Import Dupemap.

(** The collaborators of the chain: the provisioner set, the methods of a
    transaction ([transactions.ContractCall]) and of a block, the
    configuration, the block verifier, the executor behind the proxy, and
    the block store.  The executor and the store carry their own state. *)
Class Collaborators (Tx : Type) : Type := {
  Provisioners : Type;
  SetLen : Provisioners -> Z;
  CalculateHash : Tx -> bytes * option error;
  GasSpent : Tx -> Z;
  TxError : Tx -> option string;
  TamperExecutedTransaction :
    bytes -> Z -> option string -> Block Tx -> option error * Block Tx;
  BlockGasLimit : Z;
  PersistEvery : Z;
  APIEnabled : bool;
  SanityCheckBlock : Block Tx -> Block Tx -> option error;
  CheckBlockCertificate : Provisioners -> Block Tx -> bytes -> option error;
  ExecSt : Type;
  GetStateRoot : ExecSt -> result bytes;
  Finalize :
    list Tx -> bytes -> Z -> Z -> ExecSt ->
    result (list Tx * Provisioners * bytes) * ExecSt;
  Accept :
    list Tx -> bytes -> Z -> Z -> ExecSt ->
    result (list Tx * Provisioners * bytes) * ExecSt;
  Persist : bytes -> ExecSt -> option error * ExecSt;
  DBSt : Type;
  StoreBlock : Block Tx -> bool -> DBSt -> option error * DBSt;
  ClearCandidateMessages : DBSt -> option error * DBSt;
  SyncSt : Type;
  hasher :: Hasher
}.

(** The calls the chain makes on its collaborators, in order. *)
Inductive Effect (Tx : Type) : Type :=
  | CallSanityCheckBlock (tipBlk blk : Block Tx)
  | CallCheckBlockCertificate (blk : Block Tx) (seed : bytes)
  | CallGetStateRoot
  | CallFinalize (txs : list Tx) (stateHash : bytes) (height gasLimit : Z)
  | CallAccept (txs : list Tx) (stateHash : bytes) (height gasLimit : Z)
  | CallPersist (stateHash : bytes)
  | CallStoreBlock (b : Block Tx) (persisted : bool)
  | CallClearCandidateMessages
  | PublishAcceptedBlock (b : Block Tx)
  | StoreStakesInStormDB (height : Z).

Arguments CallSanityCheckBlock {Tx} tipBlk blk.
Arguments CallCheckBlockCertificate {Tx} blk seed.
Arguments CallGetStateRoot {Tx}.
Arguments CallFinalize {Tx} txs stateHash height gasLimit.
Arguments CallAccept {Tx} txs stateHash height gasLimit.
Arguments CallPersist {Tx} stateHash.
Arguments CallStoreBlock {Tx} b persisted.
Arguments CallClearCandidateMessages {Tx}.
Arguments PublishAcceptedBlock {Tx} b.
Arguments StoreStakesInStormDB {Tx} height.

Section Acceptor.

Context {Tx : Type} `{C : Collaborators Tx}.

(** [Chain]: the tip, the provisioners, the highest height seen and the
    blacklist, with the state of the executor, of the block store and of
    the synchronizer the chain points to, and the calls made so far. *)
Record Chain : Type := mkChain {
  tip : Block Tx;
  p : Provisioners;
  highestSeen : Z;
  blacklisted : TmpMap;
  exec : ExecSt;
  db : DBSt;
  sync : SyncSt;
  trace : list (Effect Tx)
}.

Definition setTip (b : Block Tx) (c : Chain) : Chain :=
  {| tip := b; p := p c; highestSeen := highestSeen c;
     blacklisted := blacklisted c; exec := exec c; db := db c;
     sync := sync c; trace := trace c |}.

Definition setP (ps : Provisioners) (c : Chain) : Chain :=
  {| tip := tip c; p := ps; highestSeen := highestSeen c;
     blacklisted := blacklisted c; exec := exec c; db := db c;
     sync := sync c; trace := trace c |}.

Definition setHighestSeen (h : Z) (c : Chain) : Chain :=
  {| tip := tip c; p := p c; highestSeen := h;
     blacklisted := blacklisted c; exec := exec c; db := db c;
     sync := sync c; trace := trace c |}.

Definition setBlacklisted (t : TmpMap) (c : Chain) : Chain :=
  {| tip := tip c; p := p c; highestSeen := highestSeen c;
     blacklisted := t; exec := exec c; db := db c;
     sync := sync c; trace := trace c |}.

Definition setExec (e : ExecSt) (c : Chain) : Chain :=
  {| tip := tip c; p := p c; highestSeen := highestSeen c;
     blacklisted := blacklisted c; exec := e; db := db c;
     sync := sync c; trace := trace c |}.

Definition setDb (d : DBSt) (c : Chain) : Chain :=
  {| tip := tip c; p := p c; highestSeen := highestSeen c;
     blacklisted := blacklisted c; exec := exec c; db := d;
     sync := sync c; trace := trace c |}.

Definition call (e : Effect Tx) (c : Chain) : Chain :=
  {| tip := tip c; p := p c; highestSeen := highestSeen c;
     blacklisted := blacklisted c; exec := exec c; db := db c;
     sync := sync c; trace := trace c ++ [e] |}.

(** The executor calls that run a state transition, and the calls that
    write a block to the store, among a list of calls. *)
Definition isTransition (e : Effect Tx) : bool :=
  match e with
  | CallFinalize _ _ _ _ | CallAccept _ _ _ _ => true
  | _ => false
  end.

Definition isStoreBlock (e : Effect Tx) : bool :=
  match e with
  | CallStoreBlock _ _ => true
  | _ => false
  end.

Definition transitions (l : list (Effect Tx)) : list (Effect Tx) :=
  List.filter isTransition l.

Definition storeBlocks (l : list (Effect Tx)) : list (Effect Tx) :=
  List.filter isStoreBlock l.

(** [sanityCheckStateHash] *)
Definition sanityCheckStateHash (c : Chain) : option error * Chain :=
  let c1 := call CallGetStateRoot c in
  match GetStateRoot (exec c1) with
  | Err e => (Some e, c1)
  | Ok ruskStateHash =>
      let nodeStateHash := StateHash (Hdr (tip c1)) in
      if negb (bytes_Equal nodeStateHash ruskStateHash)
         || Nat.eqb (length nodeStateHash) 0
      then (Some errInvalidStateHash, c1)
      else (None, c1)
  end.

(** The loop of [runStateTransition] that writes the gas spent and the
    error of every executed transaction back into the block; its failures
    are only logged. *)
Fixpoint tamper (txs : list Tx) (blk : Block Tx) : Block Tx :=
  match txs with
  | [] => blk
  | tx :: rest =>
      let h := fst (CalculateHash tx) in
      tamper rest (snd (TamperExecutedTransaction h (GasSpent tx) (TxError tx) blk))
  end.

(** The [switch blk.Header.Certificate.Step] of [runStateTransition]: the
    executor method it selects, with the call as it shows in the trace. *)
Definition stateTransition (tipBlk blk : Block Tx)
    : Effect Tx * (ExecSt -> result (list Tx * Provisioners * bytes) * ExecSt) :=
  match Step (Cert (Hdr blk)) with
  | 3 =>
      (CallFinalize (Txs blk) (StateHash (Hdr tipBlk)) (Height (Hdr blk)) BlockGasLimit,
       Finalize (Txs blk) (StateHash (Hdr tipBlk)) (Height (Hdr blk)) BlockGasLimit)
  | _ =>
      (CallAccept (Txs blk) (StateHash (Hdr tipBlk)) (Height (Hdr blk)) BlockGasLimit,
       Accept (Txs blk) (StateHash (Hdr tipBlk)) (Height (Hdr blk)) BlockGasLimit)
  end.

Definition stateTransitionCall (tipBlk blk : Block Tx) : Effect Tx :=
  fst (stateTransition tipBlk blk).

Definition executeStateTransition (tipBlk blk : Block Tx) (e : ExecSt)
    : result (list Tx * Provisioners * bytes) * ExecSt :=
  snd (stateTransition tipBlk blk) e.

(** [runStateTransition] *)
Definition runStateTransition (tipBlk blk : Block Tx) (c : Chain)
    : (Block Tx * option error) * Chain :=
  match sanityCheckStateHash c with
  | (Some err, c1) => ((NewBlock, Some err), c1)
  | (None, c1) =>
      let c2 := call (stateTransitionCall tipBlk blk) c1 in
      match executeStateTransition tipBlk blk (exec c2) with
      | (Err err, e) => ((NewBlock, Some err), setExec e c2)
      | (Ok (txs, provisionersUpdated, respStateHash), e) =>
          let c3 := setExec e c2 in
          if negb (bytes_Equal respStateHash (StateHash (Hdr blk))) then
            ((NewBlock, Some errInvalidStateHash), c3)
          else
            ((tamper txs blk, None), setP provisionersUpdated c3)
      end
  end.

(** [isValidBlock] *)
Definition isValidBlock (blk chainTipBlk : Block Tx) (withSanityCheck : bool)
    (c : Chain) : option error * Chain :=
  let checked :=
    if withSanityCheck then
      let c1 := call (CallSanityCheckBlock chainTipBlk blk) c in
      (SanityCheckBlock chainTipBlk blk, c1)
    else (None, c) in
  match checked with
  | (Some err, c1) => (Some err, c1)
  | (None, c1) =>
      let c2 := call (CallCheckBlockCertificate blk (Seed (Hdr chainTipBlk))) c1 in
      (CheckBlockCertificate (p c2) blk (Seed (Hdr chainTipBlk)), c2)
  end.

(** Modelled from the spec: [db.Update] runs its function in a single
    transaction of the block store; the transaction is committed when the
    function returns no error, and any inner failure rolls back the
    block-store change.  What the function did elsewhere stays done. *)
Definition Update (fn : Chain -> option error * Chain) (c : Chain)
    : option error * Chain :=
  match fn c with
  | (Some err, c1) => (Some err, setDb (db c) c1)
  | (None, c1) => (None, c1)
  end.

(** [persist] *)
Definition persist (b : Block Tx) (c : Chain) : option error * Chain :=
  let pe := PersistEvery in
  Update
    (fun c0 =>
       let persisted := (0 <? pe) && (Height (Hdr b) mod pe =? 0) in
       let c1 := call (CallStoreBlock b persisted) c0 in
       match StoreBlock b persisted (db c1) with
       | (Some err, d) => (Some err, setDb d c1)
       | (None, d) =>
           let c2 := setDb d c1 in
           if persisted then
             let c3 := call (CallPersist (StateHash (Hdr b))) c2 in
             match Persist (StateHash (Hdr b)) (exec c3) with
             | (Some err, e) => (Some err, setExec e c3)
             | (None, e) => (None, setExec e c3)
             end
           else (None, c2)
       end)
    c.

(** [postAcceptBlock]; a failure to clear the candidates is only logged. *)
Definition postAcceptBlock (blk : Block Tx) (c : Chain) : Chain :=
  let c1 := call (PublishAcceptedBlock blk) c in
  let c2 :=
    snd (Update
           (fun c0 =>
              let c' := call CallClearCandidateMessages c0 in
              match ClearCandidateMessages (db c') with
              | (err, d) => (err, setDb d c')
              end)
           c1) in
  if APIEnabled then call (StoreStakesInStormDB (Height (Hdr blk))) c2 else c2.

(** [acceptBlock] *)
Definition acceptBlock (blk : Block Tx) (withSanityCheck : bool) (c : Chain)
    : option error * Chain :=
  match isValidBlock blk (tip c) withSanityCheck c with
  | (Some err, c1) => (Some err, c1)
  | (None, c1) =>
      match runStateTransition (tip c1) blk c1 with
      | ((_, Some err), c2) => (Some err, c2)
      | ((b, None), c2) =>
          match persist b c2 with
          | (Some err, c3) => (Some err, c3)
          | (None, c3) => (None, postAcceptBlock b (setTip b c3))
          end
      end
  end.

(** [TryNextConsecutiveBlockOutSync] *)
Definition TryNextConsecutiveBlockOutSync (blk : Block Tx) (kadcastHeight : byte)
    (c : Chain) : option error * Chain :=
  acceptBlock blk true c.

(** The procedures of the chain and of its synchronizer that
    [ProcessBlockFromNetwork] hands a block to. *)
Class Procedures : Type := {
  tryFallback : Block Tx -> Chain -> option error * Chain;
  processBlock :
    string -> Z -> Block Tx -> byte -> Chain ->
    (list bytes * option error) * Chain
}.

Context `{P : Procedures}.

(** [ProcessBlockFromNetwork]. [header] is the message header, whose first
    byte, when there is one, is the kadcast height. *)
Definition ProcessBlockFromNetwork (srcPeerID : string) (header : bytes)
    (blk : Block Tx) (c : Chain) : (list bytes * option error) * Chain :=
  let kh := match header with [] => Byte.xff | b :: _ => b end in
  let hash := Hash (Hdr blk) in
  if Has hash (blacklisted c) then (([], None), c)
  else if Height (Hdr blk) =? Height (Hdr (tip c)) then
    if bytes_Equal (Hash (Hdr blk)) (Hash (Hdr (tip c))) then (([], None), c)
    else
      let hash := Hash (Hdr (tip c)) in
      match tryFallback blk c with
      | (Some err, c1) => (([], None), c1)
      | (None, c1) =>
          let c2 := setBlacklisted (snd (Add hash (blacklisted c1))) c1 in
          processBlock srcPeerID (Height (Hdr (tip c2))) blk kh c2
      end
  else if Height (Hdr blk) <? Height (Hdr (tip c)) then (([], None), c)
  else
    let c1 :=
      if highestSeen c <? Height (Hdr blk)
      then setHighestSeen (Height (Hdr blk)) c else c in
    processBlock srcPeerID (Height (Hdr (tip c1))) blk kh c1.

(** Whether [persist] marks a block as persisted:
    [pe > 0 && b.Header.Height%pe == 0]. *)
Definition persisted (b : Block Tx) : bool :=
  (0 <? PersistEvery) && (Height (Hdr b) mod PersistEvery =? 0).

(** The calls of an acceptance that goes through, in their order: the
    checks, the state transition, the store, the announcement. *)
Definition acceptedCalls (withSanityCheck : bool) (tipBlk blk b : Block Tx)
    : list (Effect Tx) :=
  (if withSanityCheck then [CallSanityCheckBlock tipBlk blk] else [])
  ++ [CallCheckBlockCertificate blk (Seed (Hdr tipBlk));
      CallGetStateRoot;
      stateTransitionCall tipBlk blk;
      CallStoreBlock b (persisted b)]
  ++ (if persisted b then [CallPersist (StateHash (Hdr b))] else [])
  ++ [PublishAcceptedBlock b; CallClearCandidateMessages]
  ++ (if APIEnabled then [StoreStakesInStormDB (Height (Hdr b))] else []).

(** The announcements of an accepted block, and the sanity checks of the
    verifier, among a list of calls. *)
Definition isPublish (e : Effect Tx) : bool :=
  match e with
  | PublishAcceptedBlock _ => true
  | _ => false
  end.

Definition isSanityCheck (e : Effect Tx) : bool :=
  match e with
  | CallSanityCheckBlock _ _ => true
  | _ => false
  end.

Definition publishes (l : list (Effect Tx)) : list (Effect Tx) :=
  List.filter isPublish l.

Definition sanityChecks (l : list (Effect Tx)) : list (Effect Tx) :=
  List.filter isSanityCheck l.

(** [TryNextConsecutiveBlockIsValid] *)
Definition TryNextConsecutiveBlockIsValid (blk : Block Tx) (c : Chain)
    : option error * Chain :=
  isValidBlock blk (tip c) true c.

(** What [syncWithRusk] reads from the block store: the tip of the chain
    with the hash of the last persisted block ([Loader.LoadTip]), a block
    by its hash and the hash of the block at a height. *)
Class Loader : Type := {
  LoadTip : DBSt -> result (Block Tx * bytes);
  FetchBlock : bytes -> DBSt -> result (Block Tx);
  FetchBlockHashByHeight : Z -> DBSt -> result bytes
}.

Context `{L : Loader}.

(** The loop of [syncWithRusk] from the height [i]: the next block is read
    from the store and accepted again, without the sanity check, until a
    block is missing or one is turned down.  The loop ends when the store
    runs out of blocks; [fuel] bounds the number of rounds, and [None]
    says it was used up. *)
Fixpoint reaccept (fuel : nat) (i : Z) (c : Chain) : option (option error * Chain) :=
  match fuel with
  | O => None
  | S fuel' =>
      let i' := uint64 (i + 1) in
      let fetched :=
        match FetchBlockHashByHeight i' (db c) with
        | Err e => Err e
        | Ok hash => FetchBlock hash (db c)
        end in
      match fetched with
      | Err _ => Some (None, c)
      | Ok blk =>
          match acceptBlock blk false c with
          | (Some err, c1) => Some (Some err, c1)
          | (None, c1) => reaccept fuel' i' c1
          end
      end
  end.

(** [syncWithRusk] *)
Definition syncWithRusk (fuel : nat) (c : Chain) : option (option error * Chain) :=
  let c1 := call CallGetStateRoot c in
  match GetStateRoot (exec c1) with
  | Err e => Some (Some e, c1)
  | Ok ruskStateHash =>
      match LoadTip (db c1) with
      | Err e => Some (Some e, c1)
      | Ok (prevBlock, persistedHash) =>
          match FetchBlock persistedHash (db c1) with
          | Err e => Some (Some e, c1)
          | Ok persistedBlock =>
              if negb (bytes_Equal (StateHash (Hdr persistedBlock)) ruskStateHash)
              then Some (Some (errNew "invalid state detected"), c1)
              else
                let c2 := setTip persistedBlock c1 in
                if bytes_Equal persistedHash (Hash (Hdr prevBlock))
                then Some (None, c2)
                else reaccept fuel (Height (Hdr persistedBlock)) c2
          end
      end
  end.

End Acceptor.

Arguments Chain Tx {C}.
Arguments Procedures Tx {C}.
Arguments Loader Tx {C}.

End Chain.

(** ** Bid retriever: [pkg/core/consensus/generation] *)

Module Generation.

(** The fields of [transactions.Bid] the search compares. *)
Record Bid : Type := mkBid {
  M : bytes;
  Lock : Z
}.

(** What the search takes from the transactions package: whether a
    transaction is a bid (the type assertion to a bid), the hash of a bid and
    the maximum lock time. *)
Class Transactions (Tx : Type) : Type := {
  asBid : Tx -> option Bid;
  BidCalculateHash : Bid -> result bytes;
  MaxLockTime : Z
}.

Section BidRetriever.

Context {Tx : Type} `{D : Lite.Driver Tx} `{T : Transactions Tx}.

(** [NoBidFound] *)
Definition NoBidFound : error :=
  errNew "could not find corresponding value for specified item".

(** The test [findCorrespondingBid] makes on a bid; the sum is a
    [uint64]. *)
Definition bidMatches (m : bytes) (searchingHeight currentHeight : Z) (bid : Bid) : bool :=
  bytes_Equal m (M bid) && (currentHeight <? uint64 (Lock bid + searchingHeight)).

(** Whether a transaction is a bid that passes the test. *)
Definition isMatchingBid (m : bytes) (searchingHeight currentHeight : Z) (tx : Tx) : bool :=
  match asBid tx with
  | Some bid => bidMatches m searchingHeight currentHeight bid
  | None => false
  end.

(** [findCorrespondingBid]; a bid that matches and cannot be hashed is a
    panic. *)
Fixpoint findCorrespondingBid (txs : list Tx) (m : bytes)
    (searchingHeight currentHeight : Z) : outcome (result Tx) :=
  match txs with
  | [] => Returned (Err (errNew "could not find a corresponding d value"))
  | tx :: rest =>
      match asBid tx with
      | None => findCorrespondingBid rest m searchingHeight currentHeight
      | Some bid =>
          if bidMatches m searchingHeight currentHeight bid then
            match BidCalculateHash bid with
            | Err e => Panicked e
            | Ok _ => Returned (Ok tx)
            end
          else findCorrespondingBid rest m searchingHeight currentHeight
      end
  end.

(** [getSearchingHeight] *)
Definition getSearchingHeight (currentHeight : Z) : Z :=
  if currentHeight <? MaxLockTime then 0 else currentHeight - MaxLockTime.

(** [getBlock] and [getCurrentHeight], on the in-memory driver.  Modelled
    from the spec: [db.View] runs its function in a read-only transaction
    of the block store. *)
Definition getBlock (searchingHeight : Z) (st : Lite.memdb) : result (Block Tx) :=
  let t := Lite.begin false st in
  match Lite.FetchBlockHashByHeight searchingHeight t with
  | Err e => Err e
  | Ok hash => Lite.FetchBlock hash t
  end.

Definition getCurrentHeight (st : Lite.memdb) : outcome Z :=
  match Lite.FetchCurrentHeight (Lite.begin false st) with
  | Err e => Panicked e
  | Ok h => Returned h
  end.

(** The loop of [SearchForBid] from [searchingHeight]; it ends at the
    first height without a block.  [fuel] bounds the number of rounds, and
    [None] says it was used up. *)
Fixpoint searchFrom (fuel : nat) (m : bytes) (currentHeight searchingHeight : Z)
    (st : Lite.memdb) : option (outcome (result (Tx * Z))) :=
  match fuel with
  | O => None
  | S fuel' =>
      match getBlock searchingHeight st with
      | Err e =>
          if decide (e = ErrBlockNotFound) then Some (Returned (Err NoBidFound))
          else Some (Returned (Err e))
      | Ok blk =>
          match findCorrespondingBid (Txs blk) m searchingHeight currentHeight with
          | Panicked e => Some (Panicked e)
          | Returned (Err _) =>
              searchFrom fuel' m currentHeight (uint64 (searchingHeight + 1)) st
          | Returned (Ok tx) => Some (Returned (Ok (tx, searchingHeight)))
          end
      end
  end.

(** [SearchForBid] *)
Definition SearchForBid (fuel : nat) (m : bytes) (st : Lite.memdb)
    : option (outcome (result (Tx * Z))) :=
  match getCurrentHeight st with
  | Panicked e => Some (Panicked e)
  | Returned currentHeight =>
      searchFrom fuel m currentHeight (getSearchingHeight currentHeight) st
  end.

End BidRetriever.

End Generation.

(** ** Stall detector: the ticker loop and [Quit] *)

Module StallWatch.

Import Stall.

(** The scan of [loop] at one tick: whether [now] is after some pending
    deadline.  Ranging over the map visits the entries in no fixed order;
    the scan only asks whether one of them qualifies. *)
Definition deadlinePassed (now : Time) (d : Detector) : bool :=
  existsb (fun kv => snd kv <? now) (map_to_list (responses d)).

(** [int32] arithmetic, as [atomic.AddInt32] does it. *)
Definition int32 (x : Z) : Z := (x + 2 ^ 31) mod 2 ^ 32 - 2 ^ 31.

(** The detector with its atomic flag and its quit channel, of which only
    whether it has been closed matters. *)
Record Watch : Type := mkWatch {
  detector : Detector;
  disconnected : Z;
  quitClosed : bool
}.

Definition NewWatch (rTime : Duration) : Watch :=
  {| detector := NewDetector rTime; disconnected := 0; quitClosed := false |}.

(** [Quit]; closing a closed channel panics. *)
Definition Quit (w : Watch) : outcome Watch :=
  if negb (disconnected w =? 0) then Returned w
  else if quitClosed w then Panicked (errNew "close of closed channel")
  else
    Returned {| detector := detector w;
                disconnected := int32 (disconnected w + 1);
                quitClosed := true |}.

(** One round of [loop]: the tick at [now]. When a deadline has passed the
    loop is left, [Quit] and [DeleteAll] run, and the result says so. *)
Definition tick (now : Time) (w : Watch) : outcome (bool * Watch) :=
  if deadlinePassed now (detector w) then
    match Quit w with
    | Panicked e => Panicked e
    | Returned w1 =>
        Returned (true,
                  {| detector := DeleteAll (detector w1);
                     disconnected := disconnected w1;
                     quitClosed := quitClosed w1 |})
    end
  else Returned (false, w).

End StallWatch.

(** ** Concrete instances *)

Module Toy.

(** A transaction is its payload. *)
Definition Tx : Type := bytes.

(** A length-prefixed byte string (shorter than 256 bytes). *)
Definition encBytes (l : bytes) : bytes :=
  byte_of_Z (Z.of_nat (length l)) :: l.

Definition decBytes (d : bytes) : option (bytes * bytes) :=
  match d with
  | [] => None
  | n :: r =>
      let k := Z.to_nat (Z_of_byte n) in
      if (length r <? k)%nat then None else Some (take k r, drop k r)
  end.

Fixpoint decAll (fuel : nat) (d : bytes) : option (list bytes) :=
  match fuel with
  | O => match d with [] => Some [] | _ => None end
  | S fuel' =>
      match d with
      | [] => Some []
      | _ =>
          match decBytes d with
          | None => None
          | Some (x, r) =>
              match decAll fuel' r with
              | None => None
              | Some xs => Some (x :: xs)
              end
          end
      end
  end.

(** Modelled from the spec: [message.MarshalBlock] and
    [message.UnmarshalBlock], a block codec whose decoder inverts its
    encoder; here heights and timestamps in eight little-endian bytes, the
    certificate step in one, and every byte string behind its length. *)
Definition MarshalBlock (b : Block Tx) : result bytes :=
  let short (l : bytes) := (length l <? 256)%nat in
  if short (Hash (Hdr b)) && short (Seed (Hdr b)) && short (StateHash (Hdr b))
     && forallb short (Txs b)
  then
    Ok (PutUint64 (Height (Hdr b)) ++ PutUint64 (Timestamp (Hdr b))
        ++ [byte_of_Z (Step (Cert (Hdr b)))]
        ++ encBytes (Hash (Hdr b)) ++ encBytes (Seed (Hdr b))
        ++ encBytes (StateHash (Hdr b))
        ++ concat (map encBytes (Txs b)))
  else Err (errNew "field too long").

Definition UnmarshalBlock (d : bytes) : result (Block Tx) :=
  if (length d <? 17)%nat then Err (errNew "unexpected EOF")
  else
    let height := Uint64 (take 8 d) in
    let timestamp := Uint64 (take 8 (drop 8 d)) in
    let step := match drop 16 d with s :: _ => Z_of_byte s | [] => 0 end in
    match decBytes (drop 17 d) with
    | None => Err (errNew "unexpected EOF")
    | Some (hash, d1) =>
        match decBytes d1 with
        | None => Err (errNew "unexpected EOF")
        | Some (seed, d2) =>
            match decBytes d2 with
            | None => Err (errNew "unexpected EOF")
            | Some (stateHash, d3) =>
                match decAll (length d3) d3 with
                | None => Err (errNew "unexpected EOF")
                | Some txs =>
                    Ok {| Hdr := {| Height := height; Timestamp := timestamp;
                                    Hash := hash; Seed := seed;
                                    StateHash := stateHash;
                                    Cert := {| Step := step |} |};
                          Txs := txs |}
                end
            end
        end
    end.

#[global] Instance liteDriver : Lite.Driver Tx := {|
  Lite.stateKey := String.list_byte_of_string "chain_state_key";
  Lite.MarshalBlock := MarshalBlock;
  Lite.UnmarshalBlock := UnmarshalBlock;
  Lite.CalculateHash := fun tx => Ok tx;
  Lite.EncodeBlockTx := fun tx i => Ok (byte_of_Z i :: tx)
|}.

#[global] Instance txDecoder : Lite.TxDecoder Tx := {|
  Lite.DecodeBlockTx := fun data =>
    match data with
    | [] => Err (errNew "unexpected EOF")
    | i :: tx => Ok (tx, Z_of_byte i)
    end
|}.

(** A 32-byte hash filled with one byte. *)
Definition hash32 (b : byte) : bytes := repeat b 32.

Definition header (height : Z) (hash stateHash : bytes) (step : Z) : Header :=
  {| Height := height; Timestamp := 1000 + height; Hash := hash;
     Seed := hash32 Byte.x05; StateHash := stateHash;
     Cert := {| Step := step |} |}.

(** A block at height 7 with two transactions. *)
Definition block7 : Block Tx :=
  {| Hdr := header 7 (hash32 Byte.xa1) (hash32 Byte.x07) 3;
     Txs := [[Byte.x01; Byte.x02]; [Byte.x03]] |}.


(** A transaction that starts with the byte [0xbd] is a bid: the next
    byte is its lock time and the rest its [M]. *)
#[global] Instance bidTransactions : Generation.Transactions Tx := {|
  Generation.asBid := fun tx =>
    match tx with
    | Byte.xbd :: lock :: m =>
        Some {| Generation.M := m; Generation.Lock := Z_of_byte lock |}
    | _ => None
    end;
  Generation.BidCalculateHash := fun bid => Ok (Generation.M bid);
  Generation.MaxLockTime := 250000
|}.

(** A block at height 0 that holds a bid locked for five blocks. *)
Definition block0 : Block Tx :=
  {| Hdr := header 0 (hash32 Byte.xa0) (hash32 Byte.x00) 3;
     Txs := [[Byte.x01]; [Byte.xbd; Byte.x05; Byte.x4d; Byte.x4d]] |}.

(** A reduction handler over four provisioners, named by one byte each:
    the key [b] has [b mod 4] votes, a committee is the list of its keys,
    the bitset has bit [i] set when the [i]-th committee key is in the
    set, and signatures aggregate by concatenation. *)
Definition committee4 : list bytes :=
  [[Byte.x01]; [Byte.x02]; [Byte.x03]; [Byte.x04]].

Definition toyBits (committee : list bytes) (s : gset bytes) : Z :=
  fold_right (fun k acc => (if bool_decide (k ∈ s) then 1 else 0) + 2 * acc)
    0 committee.

Definition toyAdd (signature sender : bytes) (step : Z) (sv : Reduction.StepVotes)
    : result Reduction.StepVotes :=
  if Reduction.SVStep sv =? 0 then
    Ok {| Reduction.Apk := sender; Reduction.BitSet := Reduction.BitSet sv;
          Reduction.Signature := signature; Reduction.SVStep := step |}
  else if negb (step =? Reduction.SVStep sv) then
    Err (errNew "mismatched step in aggregating vote set")
  else
    Ok {| Reduction.Apk := Reduction.Apk sv ++ sender;
          Reduction.BitSet := Reduction.BitSet sv;
          Reduction.Signature := Reduction.Signature sv ++ signature;
          Reduction.SVStep := Reduction.SVStep sv |}.

#[global] Instance reductionHandler : Reduction.Handler := {|
  Reduction.Committee := list bytes;
  Reduction.VotesFor := fun pk _ _ =>
    match pk with [b] => Z_of_byte b mod 4 | _ => 0 end;
  Reduction.CommitteeSize := fun _ => 4;
  Reduction.CommitteeAt := fun _ _ => committee4;
  Reduction.Bits := toyBits;
  Reduction.Add := toyAdd
|}.

Definition vote (pk : byte) (hash : bytes) : Reduction.ReductionMsg :=
  {| Reduction.State := {| PubKeyBLS := [pk]; Round := 1; MStep := 1; BlockHash := hash |};
     Reduction.SignedHash := [pk; pk] |}.

(** The vote the [i]-th key of a list signs, for the test helper. *)
Definition mockReduction (hash : bytes) (round step : Z) (keys : list bytes) (i : nat)
    : Reduction.ReductionMsg :=
  {| Reduction.State := {| PubKeyBLS := nth i keys []; Round := round; MStep := step;
                           BlockHash := hash |};
     Reduction.SignedHash := nth i keys [] |}.

(** Three votes for one hash (weights 1, 2, 3) around one for another. *)
Definition votes4 : list Reduction.ReductionMsg :=
  [vote Byte.x01 (hash32 Byte.xa1); vote Byte.x03 (hash32 Byte.xb2);
   vote Byte.x02 (hash32 Byte.xa1); vote Byte.x03 (hash32 Byte.xa1)].

(** A score is a value and a vote hash; the empty score is the zero value.
    The handler state is the threshold a score has to reach, halved when
    lowered; the better score has priority. *)
Definition toyMarshalScore (s : Z * bytes) : result bytes :=
  if (length (snd s) =? 32)%nat then Ok (PutUint64 (fst s) ++ snd s)
  else Err (errNew "invalid vote hash").

#[global] Instance scoreHandler : Selection.ScoreHandler := {|
  Selection.Score := Z * bytes;
  Selection.emptyScore := (0, []);
  Selection.Equal := fun a b => bool_decide (a = b);
  Selection.VoteHash := snd;
  Selection.MarshalScore := toyMarshalScore;
  Selection.HandlerSt := Z;
  Selection.Priority := fun _ a b => fst b <=? fst a;
  Selection.Verify := fun threshold s =>
    if fst s <? threshold then Some (errNew "score below threshold") else None;
  Selection.LowerThreshold := fun threshold => threshold / 2
|}.

(** A selector five seconds from its timeout, with threshold 10: one that
    has just received the generation event, and one whose best event is a
    score of 50. *)
Definition selectorEmpty : Selection.Selector :=
  snd (Selection.CollectGeneration (Selection.NewComponent 5000000000 10 1)).

Definition selectorBest : Selection.Selector :=
  Selection.setBestEvent (50, hash32 Byte.xa1) selectorEmpty.

(** Agreement handler: the key [b] is a committee member from step [b]
    on; a message is its header and its payload, and an empty payload does
    not decode. *)
#[global] Instance agreementHandler : Agreement.Handler := {|
  Agreement.IsMember := fun pk _ step =>
    match pk with [b] => Z_of_byte b <=? step | _ => false end;
  Agreement.AgreementMsg := MsgHeader * bytes;
  Agreement.New := fun hdr => (hdr, []);
  Agreement.Unmarshal := fun payload ev =>
    match payload with
    | [] => Err (errNew "unexpected EOF")
    | _ => Ok (fst ev, payload)
    end
|}.

(** An agreement of round 1, step 2, sent by key 2: a committee member at
    step 2 and not at step 1. *)
Definition agreementEvent : Agreement.Event :=
  {| Agreement.EvHeader :=
       {| PubKeyBLS := [Byte.x02]; Round := 1; MStep := 2;
          BlockHash := hash32 Byte.xa1 |};
     Agreement.Payload := [Byte.x09] |}.

(** The chain's collaborators: the executor state is its state root, and
    finalizing or accepting a block moves the root to 32 bytes of the
    block height; finalizing reports the four provisioners, accepting
    the first three of them; the verifier accepts the successor of the tip and a
    competing block at the tip's height, and any certificate with a
    positive step; the block store is the in-memory driver; digests are
    the payloads themselves. *)
Definition toyTransition (ps : list bytes) (txs : list Tx) (prev : bytes)
    (height gasLimit : Z) (root : bytes)
    : result (list Tx * list bytes * bytes) * bytes :=
  if bytes_Equal prev root then
    (Ok (txs, ps, hash32 (byte_of_Z height)), hash32 (byte_of_Z height))
  else (Err (errNew "unknown state root"), root).

#[global] Instance collaborators : Chain.Collaborators Tx := {|
  Chain.Provisioners := list bytes;
  Chain.SetLen := fun ps => Z.of_nat (length ps);
  Chain.CalculateHash := fun tx => (tx, None);
  Chain.GasSpent := fun tx => Z.of_nat (length tx);
  Chain.TxError := fun _ => None;
  Chain.TamperExecutedTransaction := fun _ _ _ blk => (None, blk);
  Chain.BlockGasLimit := 5000000000;
  Chain.PersistEvery := 2;
  Chain.APIEnabled := false;
  Chain.SanityCheckBlock := fun tipBlk blk =>
    if (Height (Hdr blk) =? Height (Hdr tipBlk) + 1)
       || (Height (Hdr blk) =? Height (Hdr tipBlk))
    then None else Some (errNew "block height is not the next one");
  Chain.CheckBlockCertificate := fun _ blk _ =>
    if 0 <? Step (Cert (Hdr blk)) then None
    else Some (errNew "invalid certificate");
  Chain.ExecSt := bytes;
  Chain.GetStateRoot := fun root => Ok root;
  Chain.Finalize := toyTransition committee4;
  Chain.Accept := toyTransition (take 3 committee4);
  Chain.Persist := fun _ root => (None, root);
  Chain.DBSt := Lite.memdb;
  Chain.StoreBlock := fun b _ st => Lite.acceptIntoStore b st;
  Chain.ClearCandidateMessages := fun st => (None, st);
  Chain.SyncSt := unit;
  Chain.hasher := {| Dupemap.Xxhash := fun b => b |}
|}.

(** The tip at height 6, and the chain standing on it with the executor
    at the tip's state root. *)
Definition block6 : Block Tx :=
  {| Hdr := header 6 (hash32 Byte.xc6) (hash32 Byte.x06) 3; Txs := [] |}.

Definition chain6 : Chain.Chain Tx :=
  {| Chain.tip := block6; Chain.p := committee4; Chain.highestSeen := 6;
     Chain.blacklisted := Dupemap.NewTmpMap 1000;
     Chain.exec := hash32 Byte.x06; Chain.db := Lite.emptydb;
     Chain.sync := tt; Chain.trace := [] |}.

(** Blocks for height 7: [block7] agreed at step 3, one agreed at step 6,
    and one that declares a state hash the executor does not arrive at. *)
Definition block7step6 : Block Tx :=
  {| Hdr := header 7 (hash32 Byte.xa2) (hash32 Byte.x07) 6;
     Txs := [[Byte.x01; Byte.x02]; [Byte.x03]] |}.

Definition block7bad : Block Tx :=
  {| Hdr := header 7 (hash32 Byte.xa3) (hash32 Byte.x11) 3;
     Txs := [[Byte.x01; Byte.x02]; [Byte.x03]] |}.

(** A block for height 6 competing with the tip, and one below the tip. *)
Definition block6fork : Block Tx :=
  {| Hdr := header 6 (hash32 Byte.xd6) (hash32 Byte.x06) 4; Txs := [] |}.

Definition block5 : Block Tx :=
  {| Hdr := header 5 (hash32 Byte.xc5) (hash32 Byte.x05) 3; Txs := [] |}.

(** Procedures for the examples: the fallback checks the certificate of
    the competing block against the tip and puts it in the tip's place;
    the synchronizer lets a block at or below the height it is given pass
    and accepts the next one. *)
#[global] Instance procedures : Chain.Procedures Tx := {|
  Chain.tryFallback := fun blk c =>
    match Chain.isValidBlock blk (Chain.tip c) false c with
    | (Some err, c1) => (Some err, c1)
    | (None, c1) => (None, Chain.setTip blk c1)
    end;
  Chain.processBlock := fun _ currentHeight blk kh c =>
    if Height (Hdr blk) <=? currentHeight then (([], None), c)
    else
      match Chain.TryNextConsecutiveBlockOutSync blk kh c with
      | (err, c1) => (([], err), c1)
      end
|}.

(** The loader of the examples reads the in-memory driver; the hash of
    the last persisted block is the one of [block6]. *)
#[global] Instance loader : Chain.Loader Tx := {|
  Chain.LoadTip := fun st =>
    match Lite.FetchState (Lite.begin false st) with
    | Err e => Err e
    | Ok hash =>
        match Lite.FetchBlock hash (Lite.begin false st) with
        | Err e => Err e
        | Ok blk => Ok (blk, hash32 Byte.xc6)
        end
    end;
  Chain.FetchBlock := fun hash st => Lite.FetchBlock hash (Lite.begin false st);
  Chain.FetchBlockHashByHeight := fun h st =>
    Lite.FetchBlockHashByHeight h (Lite.begin false st)
|}.

(** The chain of [chain6] restarted on a store that holds [block6]. *)
Definition chain6stored : Chain.Chain Tx :=
  Chain.setDb (snd (Lite.acceptIntoStore block6 Lite.emptydb)) chain6.

(** The same chain restarted on a store that holds [block6] and, above
    it, [block7], which the executor has not seen. *)
Definition chain7stored : Chain.Chain Tx :=
  Chain.setDb
    (snd (Lite.acceptIntoStore block7 (snd (Lite.acceptIntoStore block6 Lite.emptydb))))
    chain6.

End Toy.

(** * Properties *)

(** ** Bytes *)

Lemma bytes_Equal_true_iff (a b : bytes) : a = b <-> bytes_Equal a b = true.
Proof. unfold bytes_Equal. symmetry. apply bool_decide_eq_true. Qed.

Lemma bytes_Equal_false_iff (a b : bytes) : a <> b <-> bytes_Equal a b = false.
Proof. unfold bytes_Equal. symmetry. apply bool_decide_eq_false. Qed.


(** ** Stall detector *)

Module StallFacts.

Import Stall.

Lemma lookup_remove_loop (cmds : list Cmd) (m : gmap Cmd Time) (k : Cmd) :
  remove_loop cmds m !! k = if decide (k ∈ cmds) then None else m !! k.
Proof.
  revert m. induction cmds as [|c rest IH]; intros m; simpl.
  - destruct (decide (k ∈ [])) as [Hin|_]; [by apply elem_of_nil in Hin | done].
  - rewrite IH. destruct (decide (k ∈ rest)) as [Hin|Hnin].
    + rewrite decide_True; [done | by apply elem_of_cons; right].
    + destruct (decide (k = c)) as [->|Hne].
      * rewrite decide_True; [apply lookup_delete_eq | by apply elem_of_cons; left].
      * rewrite decide_False.
        -- by apply lookup_delete_ne.
        -- intros [?|?]%elem_of_cons; done.
Qed.

Lemma lookup_add_loop_notin (clock : nat -> Time) (rT : Duration) (cmds : list Cmd) :
  forall (i : nat) (m : gmap Cmd Time) (k : Cmd),
    k ∉ cmds -> add_loop clock rT i cmds m !! k = m !! k.
Proof.
  induction cmds as [|c rest IH]; intros i m k Hnin; simpl; [done|].
  rewrite IH.
  - apply lookup_insert_ne. intros ->. apply Hnin. by apply elem_of_cons; left.
  - intros Hin. apply Hnin. by apply elem_of_cons; right.
Qed.

(** Removing exactly the entries that were added, none of which was
    pending, gives the map back. *)
Lemma remove_add_loop (clock : nat -> Time) (rT : Duration) (i : nat)
    (cmds : list Cmd) (m : gmap Cmd Time) :
  (forall r, r ∈ cmds -> m !! r = None) ->
  remove_loop cmds (add_loop clock rT i cmds m) = m.
Proof.
  intros Hfree. apply map_eq. intros k. rewrite lookup_remove_loop.
  destruct (decide (k ∈ cmds)) as [Hin|Hnin].
  - symmetry. by apply Hfree.
  - by apply lookup_add_loop_notin.
Qed.

(** X1: for every command and expected reply other than [NotFound] after
    [GetData], on a detector where none of the command's replies is
    pending, [AddMessage] of the command followed by [RemoveMessage] of the
    reply leaves the pending map as it was. *)
Lemma add_remove_unchanged (clock : nat -> Time) (cmd reply : Cmd) (d : Detector) :
  reply ∈ addMessage cmd ->
  (cmd, reply) <> (GetData, NotFound) ->
  (forall r, r ∈ addMessage cmd -> responses d !! r = None) ->
  responses (RemoveMessage reply (AddMessage clock cmd d)) = responses d.
Proof.
  intros Hin Hne Hfree. unfold RemoveMessage, AddMessage. simpl.
  assert (removeMessage reply = addMessage cmd) as ->.
  { destruct cmd; simpl in Hin; try (by apply elem_of_nil in Hin);
      repeat (apply elem_of_cons in Hin as [->|Hin]); try done;
      by apply elem_of_nil in Hin. }
  by apply remove_add_loop.
Qed.

(** C9 (fails on the code): after [AddMessage(GetData)] on a detector with
    nothing pending, [RemoveMessage(NotFound)] removes only the [NotFound]
    entry: [Block] and [Tx] stay pending with their deadlines, and the map
    is not the empty map it was before the [AddMessage]. *)
Theorem add_GetData_remove_NotFound_leaves_pending (clock : nat -> Time) (rT : Duration) :
  NotFound ∈ addMessage GetData /\
  (forall r, r ∈ addMessage GetData -> responses (NewDetector rT) !! r = None) /\
  responses (RemoveMessage NotFound (AddMessage clock GetData (NewDetector rT)))
    = <[Tx := clock 1%nat + rT]> (<[Block := clock 0%nat + rT]> ∅) /\
  responses (RemoveMessage NotFound (AddMessage clock GetData (NewDetector rT)))
    <> responses (NewDetector rT).
Proof.
  assert (responses (RemoveMessage NotFound (AddMessage clock GetData (NewDetector rT)))
          = <[Tx := clock 1%nat + rT]> (<[Block := clock 0%nat + rT]> ∅)) as Heq.
  { unfold RemoveMessage, AddMessage. simpl.
    rewrite delete_insert_eq. reflexivity. }
  split; [|split; [|split]].
  - simpl. set_solver.
  - intros r _. apply lookup_empty.
  - exact Heq.
  - rewrite Heq. simpl. intros Hbad.
    assert (Hl : (<[Tx := clock 1%nat + rT]> (<[Block := clock 0%nat + rT]> ∅)
                   : gmap Cmd Time) !! Tx = Some (clock 1%nat + rT))
      by apply lookup_insert_eq.
    rewrite Hbad in Hl. by rewrite lookup_empty in Hl.
Qed.

End StallFacts.

(** ** In-memory block store *)

Module LiteFacts.

Import Lite.

Section Store.

Context {Tx : Type} `{D : Driver Tx}.

Lemma put_same (i : Ind) (k v : bytes) (m : memdb) :
  put i k v m i !! k = Some v.
Proof. unfold put. rewrite decide_True by done. apply lookup_insert_eq. Qed.

Lemma put_other (i j : Ind) (k v : bytes) (m : memdb) :
  j <> i -> put i k v m j = m j.
Proof. intros Hne. unfold put. by rewrite decide_False. Qed.

(** The transaction loop writes to the two transaction tables only. *)
Lemma storeTxs_other (hash : bytes) (txs : list Tx) :
  forall (i : nat) (bt bt' : memdb) (r : option error) (j : Ind),
    storeTxs hash i txs bt = (r, bt') ->
    j <> txsInd -> j <> txHashInd -> bt' j = bt j.
Proof.
  induction txs as [|tx rest IH]; intros i bt bt' r j Hrun Hj1 Hj2; simpl in Hrun.
  - by inversion Hrun.
  - destruct (CalculateHash tx) as [txID|e]; [|by inversion Hrun].
    destruct (Nat.eqb (length txID) 0); [by inversion Hrun|].
    destruct (EncodeBlockTx tx (uint32 (Z.of_nat i))) as [data|e]; [|by inversion Hrun].
    rewrite (IH _ _ _ _ j Hrun Hj1 Hj2).
    rewrite put_other by done. by rewrite put_other.
Qed.

(** What a successful [StoreBlock] followed by [Commit] leaves in the
    three tables the height and hash queries read. *)
Lemma StoreBlock_Commit_tables (b : Block Tx) (t t1 t2 : transaction) :
  StoreBlock b t = (None, t1) ->
  Commit t1 = (None, t2) ->
  exists blockBytes,
    MarshalBlock b = Ok blockBytes /\
    storage t2 blocksInd !! toKey (Hash (Hdr b)) = Some blockBytes /\
    storage t2 heightInd !! toKey (PutUint64 (Height (Hdr b))) = Some blockBytes /\
    storage t2 stateInd !! toKey stateKey = Some (Hash (Hdr b)).
Proof.
  unfold StoreBlock.
  destruct (negb (writable t)); [discriminate|].
  destruct (MarshalBlock b) as [blockBytes|e] eqn:Hm; [|discriminate].
  destruct (storeTxs _ _ _ _) as [[e|] bt2] eqn:Htxs; [discriminate|].
  intros Hstore. inversion Hstore. subst t1. clear Hstore.
  unfold Commit. simpl.
  destruct (negb (writable t)); [discriminate|].
  intros Hcommit. inversion Hcommit. subst t2. clear Hcommit. simpl.
  exists blockBytes. split; [done|].
  assert (Hb : bt2 blocksInd !! toKey (Hash (Hdr b)) = Some blockBytes).
  { rewrite (storeTxs_other _ _ _ _ _ _ blocksInd Htxs) by done. apply put_same. }
  repeat split.
  - apply lookup_union_Some_l.
    rewrite put_other by done. rewrite put_other by done. exact Hb.
  - apply lookup_union_Some_l. rewrite put_other by done. apply put_same.
  - apply lookup_union_Some_l. apply put_same.
Qed.

(** C8: once a block has been accepted into the store ([StoreBlock] in a
    transaction, then [Commit], both without error), and the block codec
    gives back the header it encoded and the block hash is not empty,
    every transaction on the resulting store reports the block's height as
    the current height and the block's hash as the hash at that height. *)
Theorem accept_then_fetch (b : Block Tx) (t t1 t2 t' : transaction) :
  StoreBlock b t = (None, t1) ->
  Commit t1 = (None, t2) ->
  storage t' = storage t2 ->
  (forall data, MarshalBlock b = Ok data ->
     exists b', UnmarshalBlock data = Ok b' /\ Hdr b' = Hdr b) ->
  Hash (Hdr b) <> [] ->
  FetchCurrentHeight t' = Ok (Height (Hdr b)) /\
  FetchBlockHashByHeight (Height (Hdr b)) t' = Ok (Hash (Hdr b)).
Proof.
  intros Hstore Hcommit Hview Hcodec Hhash.
  destruct (StoreBlock_Commit_tables _ _ _ _ Hstore Hcommit)
    as (data & Hm & Hblocks & Hheight & Hstate).
  destruct (Hcodec data Hm) as (b' & Hu & Hhdr).
  split.
  - unfold FetchCurrentHeight, FetchState, FetchBlockHeader.
    rewrite Hview, Hstate.
    assert (Nat.eqb (length (Hash (Hdr b))) 0 = false) as ->.
    { destruct (Hash (Hdr b)); [done | reflexivity]. }
    rewrite Hblocks, Hu, Hhdr. reflexivity.
  - unfold FetchBlockHashByHeight.
    rewrite Hview, Hheight, Hu, Hhdr. reflexivity.
Qed.

End Store.

(** The theorem at a block of height 7 stored from an empty store and read
    back through a read-only transaction. *)
Lemma accept_then_fetch_witness :
  Lite.FetchCurrentHeight
    (Lite.begin false (snd (Lite.acceptIntoStore Toy.block7 Lite.emptydb))) = Ok 7 /\
  Lite.FetchBlockHashByHeight 7
    (Lite.begin false (snd (Lite.acceptIntoStore Toy.block7 Lite.emptydb)))
    = Ok (Toy.hash32 Byte.xa1).
Proof.
  apply (accept_then_fetch Toy.block7
           (Lite.begin true Lite.emptydb)
           (snd (Lite.StoreBlock Toy.block7 (Lite.begin true Lite.emptydb)))
           (snd (Lite.Commit
                   (snd (Lite.StoreBlock Toy.block7 (Lite.begin true Lite.emptydb)))))).
  - reflexivity.
  - reflexivity.
  - reflexivity.
  - intros data Hm. vm_compute in Hm. inversion Hm. subst data.
    exists Toy.block7. split; [vm_compute; reflexivity | reflexivity].
  - discriminate.
Defined.

End LiteFacts.

(** ** Reduction vote aggregator *)

Module ReductionFacts.

Import Reduction.

Section Aggregation.

Context `{RH : Handler}.

Lemma size_insertTimes (n : nat) (k : bytes) (c : Cluster) :
  size (insertTimes n k c) = (n + size c)%nat.
Proof.
  revert c. induction n as [|n IH]; intros c; simpl; [done|].
  rewrite IH. unfold ClusterInsert.
  rewrite gmultiset_size_disj_union, gmultiset_size_singleton. lia.
Qed.

Lemma dom_insertTimes (n : nat) (k : bytes) (c : Cluster) :
  dom (insertTimes n k c) =
  (if decide (0 < n)%nat then {[ k ]} else ∅) ∪ dom c.
Proof.
  revert c. induction n as [|n IH]; intros c; simpl.
  - destruct (decide (0 < 0)%nat); [lia | set_solver].
  - rewrite IH. destruct (decide (0 < S n)%nat); [|lia].
    unfold ClusterInsert. apply set_eq. intros x.
    destruct (decide (0 < n)%nat);
      rewrite !elem_of_union, !gmultiset_elem_of_dom,
        gmultiset_elem_of_disj_union, gmultiset_elem_of_singleton;
      set_solver.
Qed.

(** One call: it panics or returns; when it returns, the entry of the
    vote's hash holds the cluster with the sender inserted once per vote,
    no other entry changes, the result is non-nil exactly when that
    cluster has reached the quorum, and a result carries the hash and the
    entry's [StepVotes] with the committee bitset of the cluster's keys. *)
Lemma CollectVote_returns (ev : ReductionMsg) (a a' : Aggregator) (r : option Result) :
  CollectVote ev a = Returned (r, a') ->
  let hdr := State ev in
  let cl := insertTimes (weightOf ev) (PubKeyBLS hdr) (clusterOf a (BlockHash hdr)) in
  (exists sv, voteSets a' !! BlockHash hdr = Some (sv, cl) /\
     forall res, r = Some res ->
       RHash res = BlockHash hdr /\ SV res = sv /\
       BitSet sv = Bits (CommitteeAt (Round hdr) (MStep hdr)) (ClusterSet cl)) /\
  (forall h, h <> BlockHash hdr -> voteSets a' !! h = voteSets a !! h) /\
  (is_Some r <-> Quorum (Round hdr) <= TotalOccurrences cl).
Proof.
  unfold CollectVote, clusterOf, weightOf. simpl.
  set (hdr := State ev).
  set (e0 := match voteSets a !! BlockHash hdr with
             | Some sv => sv
             | None => (NewStepVotes, NewCluster)
             end).
  assert (He0 : match voteSets a !! BlockHash hdr with
                | Some sv => snd sv
                | None => NewCluster
                end = snd e0).
  { unfold e0. by destruct (voteSets a !! BlockHash hdr). }
  rewrite He0.
  destruct (Add _ _ _ (fst e0)) as [stepVotes|e]; [|discriminate].
  destruct (Quorum (Round hdr) <=? TotalOccurrences _) eqn:Hq;
    intros Hret; inversion Hret; subst r a'; clear Hret; simpl.
  - apply Z.leb_le in Hq. repeat split.
    + eexists. split; [apply lookup_insert_eq|].
      intros res Hres. inversion Hres. subst res. simpl. done.
    + intros h Hne. by apply lookup_insert_ne.
    + done.
    + intros _. by eexists.
  - apply Z.leb_gt in Hq. repeat split.
    + eexists. split; [apply lookup_insert_eq|]. intros res Hres. discriminate.
    + intros h Hne. by apply lookup_insert_ne.
    + intros [res Hres]. discriminate.
    + intros Hle. lia.
Qed.

(** The only way out of [CollectVote] other than a return is the panic on
    a failed aggregation of the vote's signature. *)
Lemma CollectVote_panics (ev : ReductionMsg) (a : Aggregator) (e : error) :
  CollectVote ev a = Panicked e <->
  Add (SignedHash ev) (PubKeyBLS (State ev)) (MStep (State ev))
    (fst (match voteSets a !! BlockHash (State ev) with
          | Some sv => sv
          | None => (NewStepVotes, NewCluster)
          end)) = Err e.
Proof.
  unfold CollectVote.
  destruct (Add _ _ _ _) as [stepVotes|e'].
  - destruct (_ <=? _); split; discriminate.
  - split; intros Heq; inversion Heq; reflexivity.
Qed.

Lemma CollectVote_clusterOf (ev : ReductionMsg) (a a' : Aggregator) (r : option Result) (h : bytes) :
  CollectVote ev a = Returned (r, a') ->
  clusterOf a' h =
  if decide (BlockHash (State ev) = h)
  then insertTimes (weightOf ev) (PubKeyBLS (State ev)) (clusterOf a h)
  else clusterOf a h.
Proof.
  intros Hret. destruct (CollectVote_returns _ _ _ _ Hret) as ((sv & Hsv & _) & Hother & _).
  destruct (decide (BlockHash (State ev) = h)) as [<-|Hne].
  - unfold clusterOf at 1. by rewrite Hsv.
  - unfold clusterOf. rewrite Hother; [done | congruence].
Qed.

(** Votes collected one after the other, from any aggregator: the [i]-th
    result is decided by the weight and the signers of the first [i+1]
    votes for its hash, on top of what the aggregator held. *)
Lemma collectVotes_from (evs : list ReductionMsg) :
  forall (a a' : Aggregator) (rs : list (option Result)),
    collectVotes evs a = Returned (rs, a') ->
    length rs = length evs /\
    forall (i : nat) (ev : ReductionMsg),
      evs !! i = Some ev ->
      let hdr := State ev in
      exists r, rs !! i = Some r /\
        (is_Some r <->
         Quorum (Round hdr)
         <= Z.of_nat (weight (BlockHash hdr) (take (S i) evs)
                      + size (clusterOf a (BlockHash hdr)))) /\
        forall res, r = Some res ->
          RHash res = BlockHash hdr /\
          BitSet (SV res)
          = Bits (CommitteeAt (Round hdr) (MStep hdr))
              (signers (BlockHash hdr) (take (S i) evs)
               ∪ dom (clusterOf a (BlockHash hdr))).
Proof.
  induction evs as [|ev0 rest IH]; intros a a' rs Hrun; simpl in Hrun.
  - inversion Hrun. split; [done|]. intros i ev Hi. by rewrite lookup_nil in Hi.
  - destruct (CollectVote ev0 a) as [[r0 a1]|e] eqn:Hstep; [|discriminate].
    destruct (collectVotes rest a1) as [[rs1 a2]|e] eqn:Hrest; [|discriminate].
    inversion Hrun. subst rs a'. clear Hrun.
    destruct (IH _ _ _ Hrest) as [Hlen Hrs].
    split; [simpl; by rewrite Hlen|].
    intros [|i] ev Hi; simpl in Hi.
    + inversion Hi. subst ev0. clear Hi.
      destruct (CollectVote_returns _ _ _ _ Hstep) as ((sv & Hsv & Hres) & _ & Hq).
      exists r0. split; [done|]. cbn [firstn weight signers].
      rewrite decide_True by done.
      unfold TotalOccurrences in Hq. rewrite size_insertTimes in Hq.
      split; [by rewrite Nat.add_0_r|].
      intros res Hr. destruct (Hres res Hr) as (Hh & Hs & Hb).
      split; [done|]. rewrite Hs, Hb. f_equal.
      unfold ClusterSet. rewrite dom_insertTimes.
      destruct (decide (0 < weightOf ev)%nat).
      * rewrite decide_True by done. set_solver.
      * rewrite decide_False by tauto. set_solver.
    + destruct (Hrs i ev Hi) as (r & Hr & Hq & Hres).
      exists r. split; [done|].
      rewrite (CollectVote_clusterOf _ _ _ _ (BlockHash (State ev)) Hstep) in Hq, Hres.
      cbn [firstn weight signers].
      destruct (decide (BlockHash (State ev0) = BlockHash (State ev))) as [Heq|Hne].
      * rewrite size_insertTimes in Hq. rewrite dom_insertTimes in Hres.
        split.
        -- rewrite Hq. apply ZifyClasses.eq_iff. f_equal. f_equal. lia.
        -- intros res Hr'. destruct (Hres res Hr') as [Hh Hb].
           split; [done|]. rewrite Hb. f_equal.
           destruct (decide (0 < weightOf ev0)%nat).
           ++ rewrite decide_True by done. set_solver.
           ++ rewrite decide_False by tauto. set_solver.
      * split; [done|].
        intros res Hr'. destruct (Hres res Hr') as [Hh Hb].
        split; [done|]. rewrite Hb. f_equal.
        rewrite decide_False by tauto. set_solver.
Qed.

(** One call and the entry of the vote's hash: the call stores what
    [tallyVote] makes of the entry, and a result carries its
    [StepVotes]. *)
Lemma CollectVote_entry (ev : ReductionMsg) (a a' : Aggregator) (r : option Result) :
  CollectVote ev a = Returned (r, a') ->
  exists e',
    tallyVote ev (entryOf a (BlockHash (State ev))) = Ok e' /\
    voteSets a' !! BlockHash (State ev) = Some e' /\
    forall res, r = Some res -> SV res = fst e'.
Proof.
  unfold CollectVote, tallyVote, entryOf, weightOf.
  destruct (Add _ _ _ _) as [stepVotes|e]; [|discriminate].
  destruct (Quorum _ <=? TotalOccurrences _);
    intros Hret; inversion Hret; subst r a'; clear Hret; simpl;
    eexists; (split; [reflexivity|]); (split; [apply lookup_insert_eq|]).
  - intros res Hres. by inversion Hres.
  - discriminate.
Qed.

(** Votes collected one after the other, from any aggregator: what the
    aggregator holds for the hash of the [i]-th vote after it is the tally
    of the first [i+1] votes for that hash, and a result for the vote
    carries the [StepVotes] of that tally. *)
Lemma collectVotes_tally (evs : list ReductionMsg) :
  forall (a a' : Aggregator) (rs : list (option Result)),
    collectVotes evs a = Returned (rs, a') ->
    forall (i : nat) (ev : ReductionMsg),
      evs !! i = Some ev ->
      exists e',
        tally (BlockHash (State ev)) (take (S i) evs)
          (entryOf a (BlockHash (State ev))) = Ok e' /\
        forall res, rs !! i = Some (Some res) -> SV res = fst e'.
Proof.
  induction evs as [|ev0 rest IH]; intros a a' rs Hrun; simpl in Hrun.
  - intros i ev Hi. by rewrite lookup_nil in Hi.
  - destruct (CollectVote ev0 a) as [[r0 a1]|e] eqn:Hstep; [|discriminate].
    destruct (collectVotes rest a1) as [[rs1 a2]|e] eqn:Hrest; [|discriminate].
    inversion Hrun. subst rs a'. clear Hrun.
    destruct (CollectVote_entry _ _ _ _ Hstep) as (e0 & Ht0 & He0 & Hres0).
    intros [|i] ev Hi; simpl in Hi.
    + inversion Hi. subst ev0. clear Hi.
      exists e0. cbn [firstn tally]. rewrite decide_True by done.
      rewrite Ht0. split; [done|].
      intros res Hr. simpl in Hr. inversion Hr. by apply Hres0.
    + destruct (IH _ _ _ Hrest i ev Hi) as (e' & Ht & Hres).
      exists e'. split; [|exact Hres].
      cbn [firstn tally].
      destruct (decide (BlockHash (State ev0) = BlockHash (State ev))) as [Heq|Hne].
      * rewrite <- Heq, Ht0. rewrite <- Heq in Ht.
        unfold entryOf in Ht at 1. by rewrite He0 in Ht.
      * destruct (CollectVote_returns _ _ _ _ Hstep) as (_ & Hother & _).
        unfold entryOf in *. rewrite Hother in Ht by congruence. exact Ht.
Qed.

Lemma weight_take_le (hash : bytes) (evs : list ReductionMsg) :
  forall i j : nat,
    (i <= j)%nat -> (weight hash (take i evs) <= weight hash (take j evs))%nat.
Proof.
  induction evs as [|ev rest IH]; intros i j Hij.
  - by rewrite !take_nil.
  - destruct i as [|i]; [cbn; lia|].
    destruct j as [|j]; [lia|].
    cbn [firstn weight]. specialize (IH i j). lia.
Qed.

(** X25: once the votes for a hash have reached the quorum, every later
    vote of the round for that hash gets a result as well: the first result
    for a hash marks the vote at which its quorum was first reached, and
    the aggregator is not meant to be used past it. *)
Lemma result_after_quorum (evs : list ReductionMsg) (rs : list (option Result))
    (a' : Aggregator) (i j : nat) (ev ev' : ReductionMsg) (res : Result) :
  collectVotes evs NewAggregator = Returned (rs, a') ->
  evs !! i = Some ev -> evs !! j = Some ev' -> (i <= j)%nat ->
  BlockHash (State ev') = BlockHash (State ev) ->
  Round (State ev') = Round (State ev) ->
  rs !! i = Some (Some res) ->
  exists res', rs !! j = Some (Some res').
Proof.
  intros Hrun Hi Hj Hij Hhash Hround Hres.
  destruct (collectVotes_from _ _ _ _ Hrun) as [_ Hrs].
  destruct (Hrs i ev Hi) as (r & Hr & Hq & _).
  destruct (Hrs j ev' Hj) as (r' & Hr' & Hq' & _).
  simpl in Hq, Hq'. rewrite Hhash, Hround in Hq'.
  rewrite Hr in Hres. inversion Hres. subst r.
  assert (Hreached : is_Some r').
  { apply Hq'. etransitivity; [apply Hq; by eexists|].
    pose proof (weight_take_le (BlockHash (State ev)) evs (S i) (S j)). lia. }
  destruct Hreached as [res' ->]. by exists res'.
Qed.

(** C3 (amended): for the votes of a step collected by a fresh
    aggregator without a panic, [CollectVote] returns a result for a vote
    exactly when the weighted occurrences accumulated so far for the vote's
    block hash, this vote included, reach or exceed the quorum
    ceil(2 * committee_size / 3) + 1, and returns nil otherwise: at the
    vote that first takes the hash to the quorum and at every vote for it
    after that one.  The result carries the block hash and the
    [StepVotes] aggregated, by [Add] and in their order, from all the
    votes for the hash so far, with the committee's bitset of the keys
    that voted for the hash. *)
Theorem CollectVote_quorum (evs : list ReductionMsg) (rs : list (option Result))
    (a' : Aggregator) (i : nat) (ev : ReductionMsg) :
  collectVotes evs NewAggregator = Returned (rs, a') ->
  evs !! i = Some ev ->
  let hdr := State ev in
  exists r, rs !! i = Some r /\
    (is_Some r <->
     (2 * CommitteeSize (Round hdr) + 2) / 3 + 1
     <= Z.of_nat (weight (BlockHash hdr) (take (S i) evs))) /\
    (r = None <->
     Z.of_nat (weight (BlockHash hdr) (take (S i) evs))
     < (2 * CommitteeSize (Round hdr) + 2) / 3 + 1) /\
    forall res, r = Some res ->
      RHash res = BlockHash hdr /\
      BitSet (SV res)
      = Bits (CommitteeAt (Round hdr) (MStep hdr))
          (signers (BlockHash hdr) (take (S i) evs)) /\
      exists cl,
        tally (BlockHash hdr) (take (S i) evs) (NewStepVotes, NewCluster)
        = Ok (SV res, cl).
Proof.
  intros Hrun Hi.
  destruct (collectVotes_from _ _ _ _ Hrun) as [_ Hrs].
  destruct (Hrs i ev Hi) as (r & Hr & Hq & Hres).
  destruct (collectVotes_tally _ _ _ _ Hrun i ev Hi) as ([sv cl] & Htally & Hsv).
  exists r. split; [done|].
  assert (Hc : clusterOf NewAggregator (BlockHash (State ev)) = ∅) by done.
  rewrite Hc in Hq, Hres.
  rewrite gmultiset_size_empty, Nat.add_0_r in Hq.
  unfold Quorum in Hq.
  split; [exact Hq|]. split.
  - split.
    + intros ->. apply Z.lt_nge. intros Hle. apply Hq in Hle.
      by destruct Hle.
    + intros Hlt. destruct r as [res|]; [|done].
      exfalso. apply Z.lt_nge in Hlt. apply Hlt. apply Hq. by eexists.
  - intros res Hr'. destruct (Hres res Hr') as [Hh Hb]. split; [done|]. split.
    + rewrite Hb. f_equal. set_solver.
    + exists cl. subst r. rewrite (Hsv res Hr). exact Htally.
Qed.

End Aggregation.

(** The theorem at the last of four votes, where the hash reaches 6 >= 4:
    the result carries the signatures of the three votes for the hash, in
    their order. *)
Lemma CollectVote_quorum_witness :
  exists r,
    fst (match Reduction.collectVotes Toy.votes4 Reduction.NewAggregator with
         | Returned x => x
         | Panicked _ => ([], Reduction.NewAggregator)
         end) !! 3%nat = Some r /\
    (is_Some r <->
     (2 * 4 + 2) / 3 + 1
     <= Z.of_nat (Reduction.weight (Toy.hash32 Byte.xa1) (take 4 Toy.votes4))) /\
    forall res, r = Some res ->
      Signature (SV res)
      = [Byte.x01; Byte.x01; Byte.x02; Byte.x02; Byte.x03; Byte.x03].
Proof.
  destruct (CollectVote_quorum Toy.votes4
              (fst (match Reduction.collectVotes Toy.votes4 Reduction.NewAggregator with
                    | Returned x => x
                    | Panicked _ => ([], Reduction.NewAggregator)
                    end))
              (snd (match Reduction.collectVotes Toy.votes4 Reduction.NewAggregator with
                    | Returned x => x
                    | Panicked _ => ([], Reduction.NewAggregator)
                    end))
              3%nat (Toy.vote Byte.x03 (Toy.hash32 Byte.xa1)))
    as (r & Hr & Hq & _ & Hres).
  - vm_compute. reflexivity.
  - reflexivity.
  - exists r. split; [exact Hr|]. split; [exact Hq|].
    intros res Hsome. destruct (Hres res Hsome) as (_ & _ & cl & Htally).
    match type of Htally with
    | ?l = _ =>
        assert (Hs : match l with Ok x => Signature (fst x) | Err _ => [] end
                     = Signature (SV res)) by (rewrite Htally; reflexivity)
    end.
    rewrite <- Hs. vm_compute. reflexivity.
Defined.

(** C3 as stated fails: of five votes, the fourth is the one that first
    takes its hash to the quorum (3 of the 4 needed before it, 6 with
    it), and the fifth, for the same hash, gets a result as well, whose
    [StepVotes] has gone on aggregating. *)
Lemma CollectVote_result_past_first_quorum :
  let hash := Toy.hash32 Byte.xa1 in
  let evs := Toy.votes4 ++ [Toy.vote Byte.x01 hash] in
  let rs := fst (match collectVotes evs NewAggregator with
                 | Returned x => x
                 | Panicked _ => ([], NewAggregator)
                 end) in
  Quorum 1 = 4 /\
  Z.of_nat (weight hash (take 3 evs)) = 3 /\
  Z.of_nat (weight hash (take 4 evs)) = 6 /\
  Z.of_nat (weight hash (take 5 evs)) = 7 /\
  exists res3 res4,
    rs !! 3%nat = Some (Some res3) /\
    rs !! 4%nat = Some (Some res4) /\
    RHash res3 = hash /\ RHash res4 = hash /\
    Signature (SV res3) = [Byte.x01; Byte.x01; Byte.x02; Byte.x02; Byte.x03; Byte.x03] /\
    Signature (SV res4)
    = [Byte.x01; Byte.x01; Byte.x02; Byte.x02; Byte.x03; Byte.x03; Byte.x01; Byte.x01].
Proof.
  repeat split; try (vm_compute; reflexivity).
  eexists _, _. repeat split; vm_compute; reflexivity.
Qed.

End ReductionFacts.

(** ** Score selector *)

Module SelectionFacts.

Import Selection.

Section Selector.

Context `{SH : ScoreHandler}.

Lemma int64_small (x : Z) : - 2 ^ 63 <= x < 2 ^ 63 -> int64 x = x.
Proof.
  intros Hx. unfold int64. rewrite Z.mod_small; lia.
Qed.

(** C7: a [Process] call that returns an error, from the verification of
    the event or from its repropagation, leaves the best event as it was
    before the call (and the handler and the timeout with it). *)
Theorem Process_error_keeps_best (ev : Score) (s s' : Selector) (e : error) :
  Process ev s = Returned (Some e, s') ->
  bestEvent s' = bestEvent s /\ handler s' = handler s /\ timeout s' = timeout s.
Proof.
  unfold Process.
  destruct (bestEvent s) as [best|] eqn:Hbest; [|discriminate].
  destruct (negb (Equal best emptyScore) && Priority (handler s) best ev);
    [discriminate|].
  simpl. destruct (Verify (handler s) ev) as [e1|].
  - intros Hret. inversion Hret. subst. done.
  - unfold repropagate. destruct (MarshalScore ev) as [buf|e1].
    + discriminate.
    + intros Hret. inversion Hret. subst. done.
Qed.

(** C6 (amended): when the timeout fires, [publishBestEvent] pauses the
    score listener and publishes one best-score message, with a hash of 32
    zero bytes when the best event is the empty score and with the best
    event's vote hash otherwise; in both cases it lowers the handler's
    threshold and doubles the timeout (in [int64]; exactly twice the old
    value when that is within range), and keeps the best event. *)
Theorem publishBestEvent_publishes_and_doubles (s : Selector) (best : Score) :
  bestEvent s = Some best ->
  exists s',
    publishBestEvent s = Returned (None, s') /\
    effects s' =
      effects s ++
      [Pause (scoreID s);
       SendWithHeader BestScore
         (if Equal best emptyScore then zero_bytes 32 else VoteHash best)
         [] (scoreID s)] /\
    handler s' = LowerThreshold (handler s) /\
    timeout s' = int64 (timeout s * 2) /\
    (- 2 ^ 62 <= timeout s < 2 ^ 62 -> timeout s' = 2 * timeout s) /\
    bestEvent s' = bestEvent s.
Proof.
  intros Hbest. unfold publishBestEvent. simpl. rewrite Hbest.
  eexists. split; [reflexivity|].
  unfold IncreaseTimeOut, ID.
  destruct (Equal best emptyScore); simpl;
    (repeat split;
     [ by rewrite <- app_assoc
     | intros Hr; rewrite int64_small; lia
     | done ]).
Qed.

End Selector.

(** The theorem of C7 at a score of 3 under threshold 10. *)
Lemma Process_error_keeps_best_witness :
  Process (3, Toy.hash32 Byte.xb2) Toy.selectorEmpty
    = Returned (Some (errNew "score below threshold"), Toy.selectorEmpty) /\
  bestEvent Toy.selectorEmpty = Some emptyScore.
Proof.
  split; [reflexivity|].
  exact (proj1 (Process_error_keeps_best (3, Toy.hash32 Byte.xb2)
                  Toy.selectorEmpty Toy.selectorEmpty
                  (errNew "score below threshold") eq_refl)).
Defined.

(** The theorem of C6 at the selector that holds no score. *)
Lemma publishBestEvent_publishes_and_doubles_witness :
  exists s',
    publishBestEvent Toy.selectorEmpty = Returned (None, s') /\
    effects s' =
      effects Toy.selectorEmpty ++
      [Pause 1; SendWithHeader BestScore (zero_bytes 32) [] 1] /\
    timeout s' = 10000000000.
Proof.
  destruct (publishBestEvent_publishes_and_doubles Toy.selectorEmpty emptyScore eq_refl)
    as (s' & Hrun & Heff & _ & _ & Hdouble & _).
  exists s'. split; [exact Hrun|]. split; [exact Heff|].
  apply Hdouble. vm_compute. split; [discriminate | reflexivity].
Defined.

(** C6 as stated fails: a round that collected a valid score (best event a
    score of 50) publishes that score's vote hash, and its timeout is
    doubled and its threshold lowered all the same. *)
Lemma publishBestEvent_changes_nonempty_round :
  Equal (50, Toy.hash32 Byte.xa1) emptyScore = false /\
  bestEvent Toy.selectorBest = Some (50, Toy.hash32 Byte.xa1) /\
  exists s',
    publishBestEvent Toy.selectorBest = Returned (None, s') /\
    effects s' =
      effects Toy.selectorBest ++
      [Pause 1; SendWithHeader BestScore (Toy.hash32 Byte.xa1) [] 1] /\
    timeout Toy.selectorBest = 5000000000 /\
    timeout s' = 10000000000 /\
    timeout s' <> timeout Toy.selectorBest /\
    handler Toy.selectorBest = 10 /\
    handler s' = 5 /\
    handler s' <> handler Toy.selectorBest.
Proof.
  split; [reflexivity|]. split; [reflexivity|].
  eexists. split; [reflexivity|].
  repeat split; try reflexivity; discriminate.
Qed.

End SelectionFacts.

(** ** Agreement component *)

Module AgreementFacts.

Import Agreement.

Section Component.

Context `{AH : Handler}.

(** C4 (amended): the component filters a message out exactly when the
    sender of its header is not a committee member at the header's (round,
    step); a filtered message leaves the accumulator untouched, and one
    from a member at (round, step) goes to [CollectAgreementEvent], which
    hands it to the accumulator when its payload decodes. *)
Theorem Filter_rejects_non_members (event : Event) (a : agreement) :
  let hdr := EvHeader event in
  Filter hdr = negb (IsMember (PubKeyBLS hdr) (Round hdr) (MStep hdr)) /\
  (IsMember (PubKeyBLS hdr) (Round hdr) (MStep hdr) = false ->
   Notify event a = (Filtered, a)) /\
  (IsMember (PubKeyBLS hdr) (Round hdr) (MStep hdr) = true ->
   Notify event a =
     (Collected (fst (CollectAgreementEvent event a)),
      snd (CollectAgreementEvent event a)) /\
   forall ev, Unmarshal (Payload event) (New hdr) = Ok ev ->
     Notify event a = (Collected None, {| accumulated := accumulated a ++ [ev] |})).
Proof.
  simpl. split; [reflexivity|]. unfold Notify, Filter. split.
  - intros ->. reflexivity.
  - intros ->. simpl. split.
    + by destruct (CollectAgreementEvent event a).
    + intros ev Hev. unfold CollectAgreementEvent. by rewrite Hev.
Qed.

End Component.

(** The theorem at an agreement from a member at its step. *)
Lemma Filter_rejects_non_members_witness :
  Notify Toy.agreementEvent {| accumulated := [] |}
  = (Collected None,
     {| accumulated := [(EvHeader Toy.agreementEvent, [Byte.x09])] |}).
Proof.
  destruct (Filter_rejects_non_members Toy.agreementEvent {| accumulated := [] |})
    as (_ & _ & Hmember).
  destruct (Hmember eq_refl) as [_ Hpass].
  exact (Hpass (EvHeader Toy.agreementEvent, [Byte.x09]) eq_refl).
Defined.

(** C4 as stated fails: the sender of this agreement is not a committee
    member at (round, step - 1), yet the message is not filtered and
    reaches the accumulator. *)
Lemma Filter_passes_non_member_of_previous_step :
  let hdr := EvHeader Toy.agreementEvent in
  IsMember (PubKeyBLS hdr) (Round hdr) (uint8 (MStep hdr - 1)) = false /\
  IsMember (PubKeyBLS hdr) (Round hdr) (MStep hdr) = true /\
  Filter hdr = false /\
  Notify Toy.agreementEvent {| accumulated := [] |}
  = (Collected None,
     {| accumulated := [(hdr, [Byte.x09])] |}).
Proof. repeat split. Qed.

End AgreementFacts.

(** ** Blacklist *)

Module DupemapFacts.

Import Dupemap.

Section TmpMap.

Context `{X : Hasher}.

(** No false negatives: what was added is there. *)
Lemma Has_Add (b : bytes) (t : TmpMap) : Has b (snd (Add b t)) = true.
Proof.
  unfold Has, HasAt, Add. simpl. rewrite lookup_insert_eq.
  apply bool_decide_eq_true. set_solver.
Qed.

(** Adding keeps what was there. *)
Lemma Has_Add_mono (a b : bytes) (t : TmpMap) :
  Has a t = true -> Has a (snd (Add b t)) = true.
Proof.
  unfold Has, HasAt, Add. simpl. rewrite lookup_insert_eq.
  destruct (msgSets t !! height t) as [s|]; [|discriminate]. simpl.
  intros Hin%bool_decide_eq_true. apply bool_decide_eq_true. set_solver.
Qed.

End TmpMap.

End DupemapFacts.

(** ** Chain acceptor *)

Module ChainFacts.

Import Dupemap Chain.

Section Acceptor.

Context {Tx : Type} `{C : Collaborators Tx}.

Lemma stateTransitionCall_step (tipBlk blk : Block Tx) :
  stateTransitionCall tipBlk blk =
  if Step (Cert (Hdr blk)) =? 3
  then CallFinalize (Txs blk) (StateHash (Hdr tipBlk)) (Height (Hdr blk)) BlockGasLimit
  else CallAccept (Txs blk) (StateHash (Hdr tipBlk)) (Height (Hdr blk)) BlockGasLimit.
Proof.
  unfold stateTransitionCall, stateTransition.
  destruct (Step (Cert (Hdr blk))) as [|q|q]; try reflexivity.
  destruct q as [[q|q|]|[q|q|]|]; reflexivity.
Qed.

Lemma executeStateTransition_step (tipBlk blk : Block Tx) (e : ExecSt) :
  executeStateTransition tipBlk blk e =
  if Step (Cert (Hdr blk)) =? 3
  then Finalize (Txs blk) (StateHash (Hdr tipBlk)) (Height (Hdr blk)) BlockGasLimit e
  else Accept (Txs blk) (StateHash (Hdr tipBlk)) (Height (Hdr blk)) BlockGasLimit e.
Proof.
  unfold executeStateTransition, stateTransition.
  destruct (Step (Cert (Hdr blk))) as [|q|q]; try reflexivity.
  destruct q as [[q|q|]|[q|q|]|]; reflexivity.
Qed.

Lemma isTransition_stateTransitionCall (tipBlk blk : Block Tx) :
  isTransition (stateTransitionCall tipBlk blk) = true.
Proof.
  rewrite stateTransitionCall_step.
  by destruct (Step (Cert (Hdr blk)) =? 3).
Qed.

(** What each step of [acceptBlock] does to the state: the calls it adds
    to the trace and the fields it leaves alone. *)
Lemma sanityCheckStateHash_frame (c c1 : Chain Tx) (r : option error) :
  sanityCheckStateHash c = (r, c1) ->
  c1 = call CallGetStateRoot c.
Proof.
  unfold sanityCheckStateHash. simpl.
  destruct (GetStateRoot (exec c)) as [root|e]; [|by inversion 1].
  destruct (_ || _); by inversion 1.
Qed.

Lemma isValidBlock_frame (blk tipBlk : Block Tx) (w : bool) (c c1 : Chain Tx)
    (r : option error) :
  isValidBlock blk tipBlk w c = (r, c1) ->
  exists added,
    trace c1 = trace c ++ added /\
    transitions added = [] /\ storeBlocks added = [] /\
    tip c1 = tip c /\ p c1 = p c /\ db c1 = db c /\ exec c1 = exec c /\
    blacklisted c1 = blacklisted c /\ highestSeen c1 = highestSeen c.
Proof.
  unfold isValidBlock. destruct w.
  - destruct (SanityCheckBlock tipBlk blk) as [e|]; inversion 1; subst; simpl.
    + by eexists [_].
    + rewrite <- app_assoc. by eexists [_; _].
  - inversion 1; subst; simpl. by eexists [_].
Qed.

Lemma persist_frame (b : Block Tx) (c c1 : Chain Tx) (r : option error) :
  persist b c = (r, c1) ->
  exists added,
    trace c1 = trace c ++ added /\ transitions added = [] /\
    tip c1 = tip c /\ p c1 = p c /\
    blacklisted c1 = blacklisted c /\ highestSeen c1 = highestSeen c /\
    (r <> None -> db c1 = db c).
Proof.
  unfold persist, Update. simpl.
  destruct (StoreBlock b _ _) as [[e|] d] eqn:Hs; simpl.
  - inversion 1; subst; simpl. by eexists [_].
  - destruct ((0 <? PersistEvery) && _).
    + simpl. destruct (Persist _ _) as [[e|] ex]; inversion 1; subst; simpl;
        rewrite <- app_assoc; by eexists [_; _].
    + inversion 1; subst; simpl. by eexists [_].
Qed.

Lemma postAcceptBlock_frame (b : Block Tx) (c : Chain Tx) :
  exists added,
    trace (postAcceptBlock b c) = trace c ++ added /\ transitions added = [] /\
    tip (postAcceptBlock b c) = tip c /\ p (postAcceptBlock b c) = p c /\
    blacklisted (postAcceptBlock b c) = blacklisted c.
Proof.
  unfold postAcceptBlock, Update. simpl.
  destruct (ClearCandidateMessages (db c)) as [[e|] d];
    destruct APIEnabled; simpl; rewrite <- ?app_assoc;
    first [by eexists [_; _; _] | by eexists [_; _]].
Qed.

(** [runStateTransition] once the sanity check has passed: one call of
    the executor, chosen by the certificate step. *)
Lemma runStateTransition_dispatch (tipBlk blk : Block Tx) (c c' : Chain Tx)
    (r : Block Tx * option error) :
  fst (sanityCheckStateHash c) = None ->
  runStateTransition tipBlk blk c = (r, c') ->
  trace c' = trace c ++ [CallGetStateRoot; stateTransitionCall tipBlk blk] /\
  exec c' = snd (executeStateTransition tipBlk blk (exec c)) /\
  tip c' = tip c /\ db c' = db c /\ blacklisted c' = blacklisted c /\
  (snd r <> None -> p c' = p c).
Proof.
  unfold runStateTransition.
  destruct (sanityCheckStateHash c) as [[e|] c1] eqn:Hs; [discriminate|].
  intros _. apply sanityCheckStateHash_frame in Hs. subst c1. simpl.
  destruct (executeStateTransition tipBlk blk (exec c)) as [[[[txs ps] resp]|e] ex].
  - destruct (negb (bytes_Equal resp (StateHash (Hdr blk))));
      inversion 1; subst; simpl; by rewrite <- app_assoc.
  - inversion 1; subst; simpl. by rewrite <- app_assoc.
Qed.

(** What an acceptance that goes through took from the executor: the
    result of the state transition is the new tip and the new
    provisioners, and the executor is left in the state the transition
    (and, for a persisted block, [Persist]) put it in. *)
Lemma acceptBlock_executor (blk : Block Tx) (w : bool) (c c' : Chain Tx) :
  acceptBlock blk w c = (None, c') ->
  exists txs ps ex,
    executeStateTransition (tip c) blk (exec c)
      = (Ok (txs, ps, StateHash (Hdr blk)), ex) /\
    tip c' = tamper txs blk /\ p c' = ps /\
    exec c' = (if persisted (tamper txs blk)
               then snd (Persist (StateHash (Hdr (tamper txs blk))) ex)
               else ex).
Proof.
  unfold acceptBlock.
  destruct (isValidBlock blk (tip c) w c) as [[e|] c1] eqn:Hv; [discriminate|].
  destruct (isValidBlock_frame _ _ _ _ _ _ Hv)
    as (a1 & _ & _ & _ & Htip1 & _ & _ & Hex1 & _).
  rewrite Htip1.
  unfold runStateTransition, sanityCheckStateHash. simpl.
  destruct (GetStateRoot (exec c1)) as [root|e]; [|discriminate].
  destruct (_ || _); [discriminate|]. simpl. rewrite Hex1.
  destruct (executeStateTransition (tip c) blk (exec c))
    as [[[[txs ps] resp]|e] ex] eqn:He; [|discriminate].
  destruct (bytes_Equal resp (StateHash (Hdr blk))) eqn:Hresp; [|discriminate].
  apply bytes_Equal_true_iff in Hresp. subst resp. simpl.
  unfold persist, Update. fold (persisted (tamper txs blk)). simpl.
  destruct (StoreBlock (tamper txs blk) _ _) as [[e|] d]; [discriminate|].
  assert (Hpost : forall c0 : Chain Tx,
            tip (postAcceptBlock (tamper txs blk) c0) = tip c0 /\
            p (postAcceptBlock (tamper txs blk) c0) = p c0 /\
            exec (postAcceptBlock (tamper txs blk) c0) = exec c0).
  { intros c0. unfold postAcceptBlock, Update. simpl.
    destruct (ClearCandidateMessages (db c0)) as [[e|] d0];
      by destruct APIEnabled. }
  destruct (persisted (tamper txs blk)) eqn:Hper.
  - simpl. destruct (Persist (StateHash (Hdr (tamper txs blk))) ex) as [[e|] ex'] eqn:HP;
      [discriminate|].
    inversion 1; subst c'. destruct (Hpost (setTip (tamper txs blk)
      (setExec ex' (call (CallPersist (StateHash (Hdr (tamper txs blk))))
        (setDb d (call (CallStoreBlock (tamper txs blk) true)
          (setP ps (setExec ex (call (stateTransitionCall (tip c) blk)
            (call CallGetStateRoot c1)))))))))) as (-> & -> & ->).
    exists txs, ps, ex. unfold persisted in *. rewrite ?Hper, ?HP. done.
  - inversion 1; subst c'. destruct (Hpost (setTip (tamper txs blk)
      (setDb d (call (CallStoreBlock (tamper txs blk) false)
        (setP ps (setExec ex (call (stateTransitionCall (tip c) blk)
          (call CallGetStateRoot c1)))))))) as (-> & -> & ->).
    exists txs, ps, ex. unfold persisted in *. rewrite ?Hper. done.
Qed.

(** C1: for every block that [acceptBlock] accepts, the state transition
    is the executor's [Finalize] when the certificate step of the block is
    3 and its [Accept] for every other step, in both cases on the block's
    transactions, the state hash of the tip the block is accepted on, the
    block height and the block gas limit.  The calls made during the
    acceptance contain exactly that one state transition, and it is the
    result of that method, run on the executor as it stood, that the
    acceptance takes over: its transactions are written into the new tip,
    its provisioners are the new provisioners, its state root is the state
    hash the block declares, and the executor it leaves behind is the one
    the chain goes on with (after [Persist], for a persisted block). *)
Theorem acceptBlock_dispatches_on_step (blk : Block Tx) (w : bool) (c c' : Chain Tx) :
  acceptBlock blk w c = (None, c') ->
  (exists added,
     trace c' = trace c ++ added /\
     transitions added =
       [if Step (Cert (Hdr blk)) =? 3
        then CallFinalize (Txs blk) (StateHash (Hdr (tip c))) (Height (Hdr blk)) BlockGasLimit
        else CallAccept (Txs blk) (StateHash (Hdr (tip c))) (Height (Hdr blk)) BlockGasLimit]) /\
  exists txs ps ex,
    (if Step (Cert (Hdr blk)) =? 3
     then Finalize (Txs blk) (StateHash (Hdr (tip c))) (Height (Hdr blk)) BlockGasLimit
            (exec c)
     else Accept (Txs blk) (StateHash (Hdr (tip c))) (Height (Hdr blk)) BlockGasLimit
            (exec c))
    = (Ok (txs, ps, StateHash (Hdr blk)), ex) /\
    tip c' = tamper txs blk /\ p c' = ps /\
    exec c' = (if persisted (tamper txs blk)
               then snd (Persist (StateHash (Hdr (tamper txs blk))) ex)
               else ex).
Proof.
  intros Hacc. split.
  - revert Hacc. unfold acceptBlock.
    destruct (isValidBlock blk (tip c) w c) as [[e|] c1] eqn:Hv; [discriminate|].
    destruct (isValidBlock_frame _ _ _ _ _ _ Hv)
      as (a1 & Ht1 & Hn1 & _ & Htip1 & _).
    destruct (runStateTransition (tip c1) blk c1) as [[b [e|]] c2] eqn:Hr; [discriminate|].
    assert (Hsan : fst (sanityCheckStateHash c1) = None).
    { unfold runStateTransition in Hr.
      destruct (sanityCheckStateHash c1) as [[e|] c1']; [discriminate | done]. }
    destruct (runStateTransition_dispatch _ _ _ _ _ Hsan Hr) as (Ht2 & _).
    destruct (persist b c2) as [[e|] c3] eqn:Hp; [discriminate|].
    destruct (persist_frame _ _ _ _ Hp) as (a3 & Ht3 & Hn3 & _).
    intros Hacc. inversion Hacc. subst c'. clear Hacc.
    destruct (postAcceptBlock_frame b (setTip b c3)) as (a4 & Ht4 & Hn4 & _).
    exists (a1 ++ [CallGetStateRoot; stateTransitionCall (tip c1) blk] ++ a3 ++ a4).
    split.
    + rewrite Ht4. simpl. rewrite Ht3, Ht2, Ht1. by rewrite <- !app_assoc.
    + unfold transitions in *. rewrite !List.filter_app, Hn1, Hn3, Hn4. simpl.
      rewrite isTransition_stateTransitionCall, stateTransitionCall_step, Htip1.
      reflexivity.
  - destruct (acceptBlock_executor _ _ _ _ Hacc) as (txs & ps & ex & He & Hrest).
    rewrite executeStateTransition_step in He.
    exists txs, ps, ex. split; [|exact Hrest].
    by destruct (Step (Cert (Hdr blk)) =? 3).
Qed.

(** C2: when the block is valid, the sanity check passes and the executor
    completes the state transition, a returned state root that differs
    from the state hash the block header declares makes
    [runStateTransition] return [errInvalidStateHash]; [acceptBlock] then
    returns that error with the tip, the provisioners and the block store
    as they were and no block written to the store.  When the two are
    equal, [runStateTransition] returns no error. *)
Theorem invalid_state_hash_rejects (blk : Block Tx) (w : bool) (c c0 c1 : Chain Tx)
    (txs : list Tx) (ps : Provisioners) (resp : bytes) (ex : ExecSt) :
  isValidBlock blk (tip c) w c = (None, c0) ->
  sanityCheckStateHash c0 = (None, c1) ->
  executeStateTransition (tip c0) blk (exec c1) = (Ok (txs, ps, resp), ex) ->
  (resp <> StateHash (Hdr blk) ->
   fst (runStateTransition (tip c0) blk c0) = (NewBlock, Some errInvalidStateHash) /\
   exists c',
     acceptBlock blk w c = (Some errInvalidStateHash, c') /\
     tip c' = tip c /\ p c' = p c /\ db c' = db c /\
     exists added, trace c' = trace c ++ added /\ storeBlocks added = []) /\
  (resp = StateHash (Hdr blk) ->
   fst (runStateTransition (tip c0) blk c0) = (tamper txs blk, None)).
Proof.
  intros Hv Hs He.
  destruct (isValidBlock_frame _ _ _ _ _ _ Hv)
    as (a1 & Ht1 & _ & Hst1 & Htip1 & Hp1 & Hdb1 & _).
  pose proof (sanityCheckStateHash_frame _ _ _ Hs) as Hc1.
  assert (Hex : exec (call (stateTransitionCall (tip c0) blk) c1) = exec c1) by done.
  split.
  - intros Hne. apply bytes_Equal_false_iff in Hne.
    assert (Hrun : runStateTransition (tip c0) blk c0 =
                   ((NewBlock, Some errInvalidStateHash),
                    setExec ex (call (stateTransitionCall (tip c0) blk) c1))).
    { unfold runStateTransition. rewrite Hs, Hex, He, Hne. reflexivity. }
    split; [by rewrite Hrun|].
    eexists. split.
    + unfold acceptBlock. rewrite Hv, Hrun. reflexivity.
    + subst c1. simpl. rewrite Htip1, Hp1, Hdb1. repeat split.
      exists (a1 ++ [CallGetStateRoot; stateTransitionCall (tip c) blk]).
      split.
      * rewrite Ht1. rewrite <- !app_assoc. reflexivity.
      * unfold storeBlocks in *. rewrite List.filter_app, Hst1. simpl.
        rewrite stateTransitionCall_step.
        by destruct (Step (Cert (Hdr blk)) =? 3).
  - intros Heq. apply bytes_Equal_true_iff in Heq.
    unfold runStateTransition. rewrite Hs, Hex, He, Heq. reflexivity.
Qed.

Context `{P : Procedures Tx}.

(** C10: a block below the tip whose hash is not blacklisted is answered
    with no buffers and no error, and nothing changes: tip, provisioners,
    blacklist, block store and every other part of the state are the same,
    and no call was made. *)
Theorem ProcessBlockFromNetwork_drops_old (srcPeerID : string) (header : bytes)
    (blk : Block Tx) (c : Chain Tx) :
  Has (Hash (Hdr blk)) (blacklisted c) = false ->
  Height (Hdr blk) < Height (Hdr (tip c)) ->
  ProcessBlockFromNetwork srcPeerID header blk c = (([], None), c).
Proof.
  intros Hbl Hlt. unfold ProcessBlockFromNetwork. rewrite Hbl.
  assert ((Height (Hdr blk) =? Height (Hdr (tip c))) = false) as ->
    by (apply Z.eqb_neq; lia).
  assert ((Height (Hdr blk) <? Height (Hdr (tip c))) = true) as ->
    by (apply Z.ltb_lt; lia).
  reflexivity.
Qed.

(** A block with a blacklisted hash is dropped at once. *)
Lemma ProcessBlockFromNetwork_drops_blacklisted (srcPeerID : string) (header : bytes)
    (blk : Block Tx) (c : Chain Tx) :
  Has (Hash (Hdr blk)) (blacklisted c) = true ->
  ProcessBlockFromNetwork srcPeerID header blk c = (([], None), c).
Proof. intros Hbl. unfold ProcessBlockFromNetwork. by rewrite Hbl. Qed.

(** C5: when a block that is not blacklisted arrives at the height of the
    tip with another hash and the fallback succeeds, the hash the tip had
    before the fallback is added to the blacklist, and the block goes on to
    the synchronizer with that blacklist, in which the displaced hash is
    present.  In any state, a block whose hash the blacklist has is
    answered with no buffers and no error and leaves the whole state as it
    was, the trace of calls included: no verification ran. *)
Theorem fallback_blacklists_displaced_tip (srcPeerID : string) (header : bytes)
    (blk : Block Tx) (c c1 : Chain Tx) :
  Has (Hash (Hdr blk)) (blacklisted c) = false ->
  Height (Hdr blk) = Height (Hdr (tip c)) ->
  Hash (Hdr blk) <> Hash (Hdr (tip c)) ->
  tryFallback blk c = (None, c1) ->
  let displaced := Hash (Hdr (tip c)) in
  let c2 := setBlacklisted (snd (Add displaced (blacklisted c1))) c1 in
  let kh := match header with [] => Byte.xff | b :: _ => b end in
  ProcessBlockFromNetwork srcPeerID header blk c
    = processBlock srcPeerID (Height (Hdr (tip c2))) blk kh c2 /\
  Has displaced (blacklisted c2) = true /\
  forall (src' : string) (header' : bytes) (blk' : Block Tx) (c' : Chain Tx),
    Has (Hash (Hdr blk')) (blacklisted c') = true ->
    ProcessBlockFromNetwork src' header' blk' c' = (([], None), c').
Proof.
  intros Hbl Hh Hne Hfb. simpl. split; [|split].
  - unfold ProcessBlockFromNetwork. rewrite Hbl.
    assert ((Height (Hdr blk) =? Height (Hdr (tip c))) = true) as ->
      by (apply Z.eqb_eq; lia).
    apply bytes_Equal_false_iff in Hne. rewrite Hne, Hfb. reflexivity.
  - apply DupemapFacts.Has_Add.
  - intros src' header' blk' c'. apply ProcessBlockFromNetwork_drops_blacklisted.
Qed.

End Acceptor.

Lemma pair_of_fst {A B : Type} (x : A * B) (a : A) : fst x = a -> x = (a, snd x).
Proof. destruct x. simpl. by intros ->. Qed.

(** The theorem of C1 at [Toy.block7], agreed at step 3, where the
    provisioners are those [Finalize] reports, and at [Toy.block7step6],
    agreed at step 6, where they are those [Accept] reports. *)
Lemma acceptBlock_dispatches_on_step_witness :
  (exists added,
     trace (snd (acceptBlock Toy.block7 true Toy.chain6))
       = trace Toy.chain6 ++ added /\
     transitions added
       = [CallFinalize (Txs Toy.block7) (Toy.hash32 Byte.x06) 7 5000000000]) /\
  p (snd (acceptBlock Toy.block7 true Toy.chain6)) = Toy.committee4 /\
  p (snd (acceptBlock Toy.block7step6 true Toy.chain6)) = take 3 Toy.committee4.
Proof.
  assert (H3 : acceptBlock Toy.block7 true Toy.chain6
               = (None, snd (acceptBlock Toy.block7 true Toy.chain6))).
  { apply pair_of_fst. vm_compute. reflexivity. }
  assert (H6 : acceptBlock Toy.block7step6 true Toy.chain6
               = (None, snd (acceptBlock Toy.block7step6 true Toy.chain6))).
  { apply pair_of_fst. vm_compute. reflexivity. }
  destruct (acceptBlock_dispatches_on_step Toy.block7 true Toy.chain6 _ H3)
    as (Hcalls & txs & ps & ex & Hrun & _ & Hp & _).
  destruct (acceptBlock_dispatches_on_step Toy.block7step6 true Toy.chain6 _ H6)
    as (_ & txs' & ps' & ex' & Hrun' & _ & Hp' & _).
  split; [exact Hcalls|]. split.
  - rewrite Hp. vm_compute in Hrun. by inversion Hrun.
  - rewrite Hp'. vm_compute in Hrun'. by inversion Hrun'.
Defined.

(** The theorem of C2 at [Toy.block7bad], which declares a state hash
    other than the root the executor returns. *)
Lemma invalid_state_hash_rejects_witness :
  exists c',
    acceptBlock Toy.block7bad true Toy.chain6 = (Some errInvalidStateHash, c') /\
    tip c' = tip Toy.chain6 /\ p c' = p Toy.chain6 /\ db c' = db Toy.chain6 /\
    exists added, trace c' = trace Toy.chain6 ++ added /\ storeBlocks added = [].
Proof.
  pose (c0 := snd (isValidBlock Toy.block7bad (tip Toy.chain6) true Toy.chain6)).
  pose (c1 := snd (sanityCheckStateHash c0)).
  refine (proj2 (proj1 (invalid_state_hash_rejects Toy.block7bad true Toy.chain6 c0 c1
                          (Txs Toy.block7bad) Toy.committee4 (Toy.hash32 Byte.x07)
                          (Toy.hash32 Byte.x07) _ _ _) _)).
  - apply pair_of_fst. vm_compute. reflexivity.
  - apply pair_of_fst. vm_compute. reflexivity.
  - vm_compute. reflexivity.
  - vm_compute. discriminate.
Defined.

(** The theorem of C10 at a block of height 5 under a tip of height 6. *)
Lemma ProcessBlockFromNetwork_drops_old_witness :
  ProcessBlockFromNetwork "peer" [] Toy.block5 Toy.chain6 = (([], None), Toy.chain6).
Proof.
  apply ProcessBlockFromNetwork_drops_old.
  - reflexivity.
  - vm_compute. reflexivity.
Defined.

(** The theorem of C5 at a block competing with the tip of height 6. *)
Lemma fallback_blacklists_displaced_tip_witness :
  Has (Toy.hash32 Byte.xc6)
    (blacklisted
       (setBlacklisted
          (snd (Add (Toy.hash32 Byte.xc6)
                  (blacklisted (snd (tryFallback Toy.block6fork Toy.chain6)))))
          (snd (tryFallback Toy.block6fork Toy.chain6)))) = true.
Proof.
  refine (proj1 (proj2 (fallback_blacklists_displaced_tip "peer" [] Toy.block6fork
                          Toy.chain6 (snd (tryFallback Toy.block6fork Toy.chain6))
                          _ _ _ _))).
  - reflexivity.
  - reflexivity.
  - vm_compute. discriminate.
  - apply pair_of_fst. vm_compute. reflexivity.
Defined.

End ChainFacts.

(** ** Stall detector: deadlines, unsolicited replies, the ticker *)

Module StallMore.

Import Stall StallWatch.

Lemma addMessage_NoDup (cmd : Cmd) : NoDup (addMessage cmd).
Proof.
  destruct cmd; simpl;
    repeat (apply NoDup_cons_2; [set_solver|]); apply NoDup_nil_2.
Qed.

Lemma lookup_add_loop_in (clock : nat -> Time) (rT : Duration) (cmds : list Cmd) :
  forall (i j : nat) (m : gmap Cmd Time) (r : Cmd),
    NoDup cmds -> cmds !! j = Some r ->
    add_loop clock rT i cmds m !! r = Some (clock (i + j)%nat + rT).
Proof.
  induction cmds as [|c rest IH]; intros i j m r Hnd Hj; [by rewrite lookup_nil in Hj|].
  apply NoDup_cons_1_1 in Hnd as Hnotin. apply NoDup_cons_1_2 in Hnd. simpl.
  destruct j as [|j]; simpl in Hj.
  - inversion Hj. subst c.
    rewrite (StallFacts.lookup_add_loop_notin _ _ _ _ _ _ Hnotin).
    rewrite lookup_insert_eq. by rewrite Nat.add_0_r.
  - rewrite (IH (S i) j _ r Hnd Hj).
    by replace (S i + j)%nat with (i + S j)%nat by lia.
Qed.

(** X2: after [AddMessage], each reply the command expects is pending
    with the deadline "time read at its turn + response time", whatever
    deadline it had before; every other entry is as it was. *)
Theorem AddMessage_deadlines (clock : nat -> Time) (cmd r : Cmd) (d : Detector) :
  (forall j : nat, addMessage cmd !! j = Some r ->
     responses (AddMessage clock cmd d) !! r = Some (clock j + responseTime d)) /\
  (r ∉ addMessage cmd ->
     responses (AddMessage clock cmd d) !! r = responses d !! r).
Proof.
  unfold AddMessage. simpl. split.
  - intros j Hj.
    by rewrite (lookup_add_loop_in _ _ _ 0 j _ r (addMessage_NoDup cmd) Hj).
  - intros Hnotin. by apply StallFacts.lookup_add_loop_notin.
Qed.

Lemma AddMessage_deadlines_witness :
  responses (AddMessage (fun i => 100 + Z.of_nat i) GetData (NewDetector 5)) !! Tx
    = Some 106 /\
  responses (AddMessage (fun i => 100 + Z.of_nat i) GetData (NewDetector 5)) !! Inv
    = None.
Proof.
  destruct (AddMessage_deadlines (fun i => 100 + Z.of_nat i) GetData Tx (NewDetector 5))
    as [Hin _].
  destruct (AddMessage_deadlines (fun i => 100 + Z.of_nat i) GetData Inv (NewDetector 5))
    as [_ Hout].
  split.
  - exact (Hin 1%nat eq_refl).
  - rewrite Hout; [reflexivity|]. simpl. set_solver.
Defined.

(** X3: after [RemoveMessage], none of the entries the received command
    clears is pending and every other entry is as it was; a command whose
    entries were not pending (an unsolicited message) leaves the detector
    as it was. *)
Theorem RemoveMessage_clears (cmd r : Cmd) (d : Detector) :
  responses (RemoveMessage cmd d) !! r
    = (if decide (r ∈ removeMessage cmd) then None else responses d !! r) /\
  ((forall c, c ∈ removeMessage cmd -> responses d !! c = None) ->
   RemoveMessage cmd d = d).
Proof.
  split.
  - unfold RemoveMessage. simpl. apply StallFacts.lookup_remove_loop.
  - intros Hfree. destruct d as [rT m]. unfold RemoveMessage. simpl in *.
    f_equal. apply map_eq. intros k. rewrite StallFacts.lookup_remove_loop.
    destruct (decide (k ∈ removeMessage cmd)) as [Hin|]; [|done].
    symmetry. by apply Hfree.
Qed.

Lemma RemoveMessage_clears_witness :
  RemoveMessage Pong (NewDetector 5) = NewDetector 5.
Proof.
  apply (proj2 (RemoveMessage_clears Pong Pong (NewDetector 5))).
  intros c _. apply lookup_empty.
Defined.

Lemma deadlinePassed_true (now : Time) (d : Detector) :
  deadlinePassed now d = true <->
  exists cmd deadline, responses d !! cmd = Some deadline /\ deadline < now.
Proof.
  unfold deadlinePassed. rewrite existsb_exists. split.
  - intros [[cmd deadline] [Hin Hlt]]. exists cmd, deadline.
    apply list_elem_of_In, elem_of_map_to_list in Hin. simpl in Hlt.
    split; [done | by apply Z.ltb_lt].
  - intros (cmd & deadline & Hl & Hlt). exists (cmd, deadline). split.
    + by apply list_elem_of_In, elem_of_map_to_list.
    + simpl. by apply Z.ltb_lt.
Qed.

(** X4: at a tick, a detector that has not quit yet disconnects exactly
    when [now] is after the deadline of some pending entry: it then closes
    the quit channel, sets the flag and empties the map; when no deadline
    has passed (in particular when nothing is pending) the tick changes
    nothing. *)
Theorem tick_disconnects_on_passed_deadline (now : Time) (w : Watch) :
  disconnected w = 0 -> quitClosed w = false ->
  ((exists cmd deadline,
      responses (detector w) !! cmd = Some deadline /\ deadline < now) ->
   tick now w =
     Returned (true,
               {| detector := {| responseTime := responseTime (detector w);
                                 responses := ∅ |};
                  disconnected := 1; quitClosed := true |})) /\
  ((forall cmd deadline,
      responses (detector w) !! cmd = Some deadline -> now <= deadline) ->
   tick now w = Returned (false, w)).
Proof.
  intros Hflag Hopen. unfold tick, Quit. split.
  - intros Hpassed. apply deadlinePassed_true in Hpassed.
    rewrite Hpassed, Hflag, Hopen. reflexivity.
  - intros Hnone.
    destruct (deadlinePassed now (detector w)) eqn:Hp; [|done].
    apply deadlinePassed_true in Hp as (cmd & deadline & Hl & Hlt).
    specialize (Hnone cmd deadline Hl). lia.
Qed.

Lemma tick_disconnects_on_passed_deadline_witness :
  tick 7 (NewWatch 5) = Returned (false, NewWatch 5).
Proof.
  apply (proj2 (tick_disconnects_on_passed_deadline 7 (NewWatch 5) eq_refl eq_refl)).
  intros cmd deadline Hl. simpl in Hl. by rewrite lookup_empty in Hl.
Defined.

(** X5: [Quit] on a detector that has not quit closes the quit channel and
    sets the flag to 1; every further [Quit] returns at the flag without
    touching the channel, so the channel is never closed twice. *)
Theorem Quit_closes_once (w : Watch) :
  disconnected w = 0 -> quitClosed w = false ->
  exists w1,
    Quit w = Returned w1 /\ quitClosed w1 = true /\ disconnected w1 = 1 /\
    detector w1 = detector w /\ Quit w1 = Returned w1.
Proof.
  intros Hflag Hopen. unfold Quit. rewrite Hflag, Hopen. simpl.
  eexists. split; [reflexivity|]. simpl. done.
Qed.

Lemma Quit_closes_once_witness :
  exists w1, Quit (NewWatch 5) = Returned w1 /\ Quit w1 = Returned w1.
Proof.
  destruct (Quit_closes_once (NewWatch 5) eq_refl eq_refl)
    as (w1 & Hq & _ & _ & _ & Hq2).
  exists w1. split; [exact Hq | exact Hq2].
Defined.

(** [GetData] answered by a [Block], on a detector with nothing pending. *)
Lemma add_remove_unchanged_witness :
  responses (RemoveMessage Block
               (AddMessage (fun i => 100 + Z.of_nat i) GetData (NewDetector 5)))
  = responses (NewDetector 5).
Proof.
  apply StallFacts.add_remove_unchanged.
  - simpl. set_solver.
  - discriminate.
  - intros r _. apply lookup_empty.
Defined.

End StallMore.

(** ** Little-endian heights *)

Lemma Z_of_byte_of_Z (y : Z) : Z_of_byte (byte_of_Z y) = Z.land y 255.
Proof.
  assert (Hb : 0 <= Z.land y 255 < 256).
  { change 255 with (Z.ones 8). rewrite Z.land_ones by lia.
    apply Z.mod_pos_bound. lia. }
  unfold Z_of_byte, byte_of_Z.
  destruct (Byte.of_N (Z.to_N (Z.land y 255))) as [b|] eqn:Hof.
  - apply Byte.to_of_N in Hof. rewrite Hof. lia.
  - apply Byte.of_N_None_iff in Hof. lia.
Qed.

Lemma testbit_lor_shiftl8 (a b n : Z) :
  0 <= n ->
  Z.testbit (Z.lor (Z.land a 255) (Z.shiftl b 8)) n
  = if n <? 8 then Z.testbit a n else Z.testbit b (n - 8).
Proof.
  intros Hn. rewrite Z.lor_spec, Z.land_spec, Z.shiftl_spec by lia.
  change 255 with (Z.ones 8). rewrite Z.testbit_ones_nonneg by lia.
  destruct (n <? 8) eqn:Hlt.
  - apply Z.ltb_lt in Hlt. rewrite (Z.testbit_neg_r b (n - 8)) by lia.
    by rewrite andb_true_r, orb_false_r.
  - by rewrite andb_false_r.
Qed.

(** Reading back the eight bytes written for a height gives the height
    (its low 64 bits). *)
Lemma Uint64_PutUint64 (x : Z) : Uint64 (PutUint64 x) = x mod 2 ^ 64.
Proof.
  unfold Uint64, PutUint64. cbn [seq map firstn fold_right].
  rewrite !Z_of_byte_of_Z.
  apply Z.bits_inj'. intros n Hn.
  rewrite <- Z.land_ones by lia. rewrite Z.land_spec.
  rewrite Z.testbit_ones_nonneg by lia.
  repeat (rewrite testbit_lor_shiftl8 by lia;
          let E := fresh "E" in
          destruct (_ <? 8) eqn:E;
          [ apply Z.ltb_lt in E; rewrite Z.shiftr_spec by lia;
            replace (n <? 64) with true by (symmetry; apply Z.ltb_lt; lia);
            rewrite andb_true_r; f_equal; lia
          | apply Z.ltb_ge in E ]).
  rewrite Z.testbit_0_l.
  replace (n <? 64) with false by (symmetry; apply Z.ltb_ge; lia).
  by rewrite andb_false_r.
Qed.

Lemma PutUint64_inj (x y : Z) :
  0 <= x < 2 ^ 64 -> 0 <= y < 2 ^ 64 -> PutUint64 x = PutUint64 y -> x = y.
Proof.
  intros Hx Hy Heq.
  rewrite <- (Z.mod_small x (2 ^ 64)), <- (Z.mod_small y (2 ^ 64)) by lia.
  by rewrite <- !Uint64_PutUint64, Heq.
Qed.

Lemma PutUint64_length (x : Z) : length (PutUint64 x) = 8%nat.
Proof. reflexivity. Qed.

(** ** In-memory block store: isolation, lookups by hash and transaction,
       other heights, bid values *)

Module LiteMore.

Import Lite.

Section Store.

Context {Tx : Type} `{D : Driver Tx}.

Lemma toKey_short (d : bytes) :
  (length d <= keyLen)%nat -> toKey d = d ++ zero_bytes (keyLen - length d).
Proof. intros Hlen. unfold toKey. by rewrite take_ge. Qed.

Lemma toKey_inj_same_length (a b : bytes) :
  length a = length b -> (length a <= keyLen)%nat -> toKey a = toKey b -> a = b.
Proof.
  intros Hab Hlen. rewrite !toKey_short by lia. rewrite <- Hab.
  intros Heq. by apply app_inv_tail in Heq.
Qed.

Lemma setTable_other (i j : Ind) (tbl : table) (m : memdb) :
  j <> i -> setTable i tbl m j = m j.
Proof. intros Hne. unfold setTable. by rewrite decide_False. Qed.

(** [StoreBlock] writes to the store itself only in the bid-value table,
    and not at all when it fails. *)
Lemma StoreBlock_storage (b : Block Tx) (t t1 : transaction) (r : option error) :
  StoreBlock b t = (r, t1) ->
  (forall i, i <> bidValuesInd -> storage t1 i = storage t i) /\
  (r <> None -> storage t1 = storage t).
Proof.
  unfold StoreBlock.
  destruct (negb (writable t)); [by inversion 1|].
  destruct (MarshalBlock b) as [blockBytes|e]; [|by inversion 1].
  destruct (storeTxs _ _ _ _) as [[e|] bt2]; inversion 1; subst; simpl.
  - done.
  - split; [|done]. intros i Hi. by apply setTable_other.
Qed.

(** X6: a block stored in a transaction is not visible before [Commit]:
    whatever [StoreBlock] returns, the block, hash and height queries
    through the transaction answer as they did before it. *)
Theorem StoreBlock_invisible_before_Commit (b : Block Tx) (t t1 : transaction)
    (r : option error) (hash : bytes) (h : Z) :
  StoreBlock b t = (r, t1) ->
  FetchBlockExists hash t1 = FetchBlockExists hash t /\
  FetchBlock hash t1 = FetchBlock hash t /\
  FetchBlockHashByHeight h t1 = FetchBlockHashByHeight h t /\
  FetchState t1 = FetchState t /\
  FetchCurrentHeight t1 = FetchCurrentHeight t.
Proof.
  intros Hs. destruct (StoreBlock_storage _ _ _ _ Hs) as [Hst _].
  unfold FetchCurrentHeight, FetchBlock, FetchBlockExists, FetchBlockHeader,
    FetchBlockTxs, FetchBlockHashByHeight, FetchState.
  rewrite !(Hst blocksInd), !(Hst heightInd), !(Hst stateInd) by done.
  done.
Qed.

(** X7: after a block has been stored and committed, [FetchBlockExists]
    finds its hash, and when the codec gives back the block it encoded,
    [FetchBlock] returns the block, header and transactions. *)
Theorem accept_then_FetchBlock (b : Block Tx) (t t1 t2 t' : transaction) :
  StoreBlock b t = (None, t1) ->
  Commit t1 = (None, t2) ->
  storage t' = storage t2 ->
  (forall data, MarshalBlock b = Ok data -> UnmarshalBlock data = Ok b) ->
  FetchBlockExists (Hash (Hdr b)) t' = Ok true /\
  FetchBlock (Hash (Hdr b)) t' = Ok b.
Proof.
  intros Hstore Hcommit Hview Hcodec.
  destruct (LiteFacts.StoreBlock_Commit_tables _ _ _ _ Hstore Hcommit)
    as (data & Hm & Hblocks & _).
  unfold FetchBlockExists, FetchBlock, FetchBlockHeader, FetchBlockTxs.
  rewrite Hview, Hblocks, (Hcodec data Hm). split; [done|]. by destruct b.
Qed.

(** The transaction loop leaves alone the keys that no transaction of the
    list hashes to. *)
Lemma storeTxs_keep (hash : bytes) (txs : list Tx) :
  forall (i : nat) (bt bt' : memdb) (r : option error) (ind : Ind) (key : bytes),
    storeTxs hash i txs bt = (r, bt') ->
    (forall tx' id', tx' ∈ txs -> CalculateHash tx' = Ok id' -> toKey id' <> key) ->
    bt' ind !! key = bt ind !! key.
Proof.
  induction txs as [|tx rest IH]; intros i bt bt' r ind key Hrun Hfresh; simpl in Hrun.
  - by inversion Hrun.
  - destruct (CalculateHash tx) as [txID|e] eqn:Hh; [|by inversion Hrun].
    destruct (Nat.eqb (length txID) 0); [by inversion Hrun|].
    destruct (EncodeBlockTx tx (uint32 (Z.of_nat i))) as [data|e]; [|by inversion Hrun].
    rewrite (IH _ _ _ _ ind key Hrun).
    + assert (Hne : toKey txID <> key) by (apply (Hfresh tx); [set_solver | done]).
      unfold put. repeat case_decide; rewrite ?lookup_insert_ne; done.
    + intros tx' id' Hin. apply Hfresh. set_solver.
Qed.

(** What the transaction loop writes for the transaction at a position,
    when no other transaction of the list has the same key. *)
Lemma storeTxs_lookup (hash : bytes) (txs : list Tx) :
  forall (i : nat) (bt bt' : memdb) (j : nat) (tx : Tx) (txID : bytes),
    storeTxs hash i txs bt = (None, bt') ->
    txs !! j = Some tx -> CalculateHash tx = Ok txID ->
    (forall j' tx' id', txs !! j' = Some tx' -> CalculateHash tx' = Ok id' ->
       toKey id' = toKey txID -> j' = j) ->
    exists data,
      EncodeBlockTx tx (uint32 (Z.of_nat (i + j))) = Ok data /\
      bt' txsInd !! toKey txID = Some data /\
      bt' txHashInd !! toKey txID = Some hash.
Proof.
  induction txs as [|tx0 rest IH]; intros i bt bt' j tx txID Hrun Hj Hh Huniq;
    [by rewrite lookup_nil in Hj|].
  simpl in Hrun.
  destruct (CalculateHash tx0) as [id0|e] eqn:Hh0; [|by inversion Hrun].
  destruct (Nat.eqb (length id0) 0); [by inversion Hrun|].
  destruct (EncodeBlockTx tx0 (uint32 (Z.of_nat i))) as [data0|e] eqn:He0;
    [|by inversion Hrun].
  destruct j as [|j]; simpl in Hj.
  - inversion Hj. subst tx0. rewrite Hh in Hh0. inversion Hh0. subst id0.
    exists data0. rewrite Nat.add_0_r. split; [done|].
    assert (Hfresh : forall tx' id', tx' ∈ rest -> CalculateHash tx' = Ok id' ->
                       toKey id' <> toKey txID).
    { intros tx' id' Hin Hh' Heq. apply list_elem_of_lookup in Hin as [k Hk].
      specialize (Huniq (S k) tx' id' Hk Hh' Heq). discriminate. }
    rewrite (storeTxs_keep _ _ _ _ _ _ txsInd _ Hrun Hfresh).
    rewrite (storeTxs_keep _ _ _ _ _ _ txHashInd _ Hrun Hfresh).
    split.
    + rewrite LiteFacts.put_other by done. apply LiteFacts.put_same.
    + apply LiteFacts.put_same.
  - destruct (IH (S i) _ _ j tx txID Hrun Hj Hh) as (data & He & Ht & Hx).
    { intros j' tx' id' Hj' Hh' Heq.
      specialize (Huniq (S j') tx' id' Hj' Hh' Heq). lia. }
    exists data. replace (i + S j)%nat with (S i + j)%nat by lia. done.
Qed.

End Store.

Section TxIndex.

Context {Tx : Type} `{D : Driver Tx} `{TD : TxDecoder Tx}.

(** X8: after a block has been stored and committed, [FetchBlockTxByHash]
    on the id of one of its transactions returns that transaction, its
    position in the block and the hash of the block, provided no other
    transaction of the block has the same key and the transaction codec
    gives back what it encoded; an id that is not in the transaction
    table is reported as [ErrTxNotFound]. *)
Theorem accept_then_FetchBlockTxByHash (b : Block Tx) (t t1 t2 t' : transaction)
    (j : nat) (tx : Tx) (txID : bytes) :
  StoreBlock b t = (None, t1) ->
  Commit t1 = (None, t2) ->
  storage t' = storage t2 ->
  Txs b !! j = Some tx -> CalculateHash tx = Ok txID ->
  (forall j' tx' id', Txs b !! j' = Some tx' -> CalculateHash tx' = Ok id' ->
     toKey id' = toKey txID -> j' = j) ->
  (forall data, EncodeBlockTx tx (uint32 (Z.of_nat j)) = Ok data ->
     DecodeBlockTx data = Ok (tx, uint32 (Z.of_nat j))) ->
  FetchBlockTxByHash txID t' = Ok (tx, uint32 (Z.of_nat j), Hash (Hdr b)) /\
  forall other, storage t' txsInd !! toKey other = None ->
    FetchBlockTxByHash other t' = Err ErrTxNotFound.
Proof.
  intros Hstore Hcommit Hview Hj Hh Huniq Hcodec. split.
  - revert Hstore. unfold StoreBlock.
    destruct (negb (writable t)); [discriminate|].
    destruct (MarshalBlock b) as [blockBytes|e]; [|discriminate].
    destruct (storeTxs _ _ _ _) as [[e|] bt2] eqn:Htxs; [discriminate|].
    intros Hstore. inversion Hstore. subst t1. clear Hstore.
    revert Hcommit. unfold Commit. simpl.
    destruct (negb (writable t)); [discriminate|].
    intros Hcommit. inversion Hcommit. subst t2. clear Hcommit. simpl in Hview.
    destruct (LiteMore.storeTxs_lookup _ _ _ _ _ _ _ _ Htxs Hj Hh Huniq)
      as (data & He & Ht & Hx).
    simpl in He.
    unfold FetchBlockTxByHash. rewrite Hview.
    rewrite (lookup_union_Some_l _ _ _ data),
      (Hcodec data He), (lookup_union_Some_l _ _ _ (Hash (Hdr b))).
    + done.
    + rewrite LiteFacts.put_other by done. by rewrite LiteFacts.put_other.
    + rewrite LiteFacts.put_other by done. by rewrite LiteFacts.put_other.
  - intros other Hnone. unfold FetchBlockTxByHash. by rewrite Hnone.
Qed.

End TxIndex.

Section Heights.

Context {Tx : Type} `{D : Driver Tx}.

Lemma heightKey_inj (h h' : Z) :
  0 <= h < 2 ^ 64 -> 0 <= h' < 2 ^ 64 ->
  toKey (PutUint64 h) = toKey (PutUint64 h') -> h = h'.
Proof.
  intros Hh Hh' Heq. apply PutUint64_inj; [done..|].
  apply toKey_inj_same_length; [done | | done].
  rewrite PutUint64_length. unfold keyLen. lia.
Qed.

(** X9: storing and committing a block at one height does not change what
    [FetchBlockHashByHeight] reports for any other height (heights being
    64-bit, and the transaction holding no other height entry). *)
Theorem accept_keeps_other_heights (b : Block Tx) (t t1 t2 : transaction) (h' : Z) :
  StoreBlock b t = (None, t1) ->
  Commit t1 = (None, t2) ->
  (batch t heightInd = ∅) ->
  (0 <= Height (Hdr b) < 2 ^ 64) -> (0 <= h' < 2 ^ 64) ->
  (h' <> Height (Hdr b)) ->
  (FetchBlockHashByHeight h' t2 = FetchBlockHashByHeight h' t).
Proof.
  intros Hstore Hcommit Hbatch Hh Hh' Hne.
  revert Hstore. unfold StoreBlock.
  destruct (negb (writable t)); [discriminate|].
  destruct (MarshalBlock b) as [blockBytes|e]; [|discriminate].
  destruct (storeTxs _ _ _ _) as [[e|] bt2] eqn:Htxs; [discriminate|].
  intros Hstore. inversion Hstore. subst t1. clear Hstore.
  revert Hcommit. unfold Commit. simpl.
  destruct (negb (writable t)); [discriminate|].
  intros Hcommit. inversion Hcommit. subst t2. clear Hcommit.
  unfold FetchBlockHashByHeight. simpl.
  rewrite setTable_other by done.
  rewrite lookup_union_r; [done|].
  rewrite LiteFacts.put_other by done.
  unfold put at 1. rewrite decide_True by done.
  rewrite lookup_insert_ne.
  - rewrite (LiteFacts.storeTxs_other _ _ _ _ _ _ heightInd Htxs) by done.
    rewrite LiteFacts.put_other by done. rewrite Hbatch. apply lookup_empty.
  - intros Heq. apply heightKey_inj in Heq; [lia | done..].
Qed.

(** X10: on a store that holds nothing, as [ClearDatabase] leaves it
    through a transaction of either kind, every query reports its
    not-found error, and [FetchOutputExists] answers false without one. *)
Theorem ClearDatabase_leaves_nothing (t : transaction) (hash : bytes) (h : Z) :
  let t' := snd (ClearDatabase t) in
  fst (ClearDatabase t) = None /\
  FetchBlockExists hash t' = Err ErrBlockNotFound /\
  FetchBlock hash t' = Err ErrBlockNotFound /\
  FetchBlockHashByHeight h t' = Err ErrBlockNotFound /\
  FetchState t' = Err ErrStateNotFound /\
  FetchCurrentHeight t' = Err ErrStateNotFound /\
  FetchKeyImageExists hash t' = Err ErrKeyImageNotFound /\
  FetchOutputExists hash t' = Ok false.
Proof.
  simpl. unfold FetchCurrentHeight, FetchBlock, FetchBlockExists, FetchBlockHeader,
    FetchBlockHashByHeight, FetchState, FetchKeyImageExists, FetchOutputExists.
  simpl. unfold emptydb. rewrite !lookup_empty. repeat split.
Qed.

Lemma Uint64_bidKey (e : Z) : Uint64 (drop 9 (bidKey e)) = e mod 2 ^ 64.
Proof. rewrite <- Uint64_PutUint64. reflexivity. Qed.

(** What [StoreBlock] does to the stored bid values that expire at a
    height. *)
Lemma StoreBlock_expires_bids (b : Block Tx) (t t1 : transaction) (e : Z) :
  StoreBlock b t = (None, t1) ->
  0 <= e < 2 ^ 64 ->
  storage t1 bidValuesInd !! bidKey e =
  if e <? Height (Hdr b) then None else storage t bidValuesInd !! bidKey e.
Proof.
  unfold StoreBlock.
  destruct (negb (writable t)); [discriminate|].
  destruct (MarshalBlock b) as [blockBytes|err]; [|discriminate].
  destruct (storeTxs _ _ _ _) as [[err|] bt2]; [discriminate|].
  intros Hs He. inversion Hs. subst t1. clear Hs. simpl.
  unfold setTable. rewrite decide_True by done.
  unfold removeExpiredBids.
  destruct (e <? Height (Hdr b)) eqn:Hlt.
  - apply map_lookup_filter_None_2. right. intros v _. cbn [fst].
    rewrite Uint64_bidKey, Z.mod_small, Hlt by lia. discriminate.
  - destruct (storage t bidValuesInd !! bidKey e) as [v|] eqn:Hl.
    + apply map_lookup_filter_Some_2; [done|]. cbn [fst].
      by rewrite Uint64_bidKey, Z.mod_small, Hlt by lia.
    + apply map_lookup_filter_None_2. by left.
Qed.

(** X11: bid values stored with a lock time when the current height is
    [H] are written, at [Commit], under the key of the height [H + lock
    time] (as a [uint64]); every later [StoreBlock] keeps them while the
    block height is at most that height and removes them from the store
    once it is above. *)
Theorem bid_values_kept_until_expiry (d k edPk : bytes) (lockTime H : Z)
    (t : transaction) :
  writable t = true ->
  FetchCurrentHeight t = Ok H ->
  let expiry := uint64 (lockTime + H) in
  exists t1 t2,
    StoreBidValues d k edPk lockTime t = (None, t1) /\
    Commit t1 = (None, t2) /\
    storage t1 = storage t /\
    storage t2 bidValuesInd !! bidKey expiry = Some (d ++ k ++ edPk) /\
    forall (b : Block Tx) (t3 t4 : transaction),
      storage t3 = storage t2 ->
      StoreBlock b t3 = (None, t4) ->
      storage t4 bidValuesInd !! bidKey expiry =
      if expiry <? Height (Hdr b) then None else Some (d ++ k ++ edPk).
Proof.
  intros Hw Hcur expiry. unfold StoreBidValues, Commit. rewrite Hcur. simpl.
  rewrite Hw. simpl. do 2 eexists. split; [reflexivity|]. split; [reflexivity|].
  simpl. split; [done|].
  assert (Hput : (put bidValuesInd (toKey (bidValuesTag ++ PutUint64 expiry))
                    (d ++ k ++ edPk) (batch t) bidValuesInd
                  ∪ storage t bidValuesInd) !! bidKey expiry
                 = Some (d ++ k ++ edPk)).
  { apply lookup_union_Some_l. apply LiteFacts.put_same. }
  split; [exact Hput|].
  intros b t3 t4 Hview Hstore.
  rewrite (StoreBlock_expires_bids _ _ _ expiry Hstore).
  - rewrite Hview. destruct (expiry <? Height (Hdr b)); [done | exact Hput].
  - unfold expiry, uint64, wrap. apply Z.mod_pos_bound. lia.
Qed.

End Heights.

(** The store that holds [Toy.block7], and the transaction that wrote
    it. *)
Lemma store7_committed :
  StoreBlock Toy.block7 (begin true emptydb)
    = (None, snd (StoreBlock Toy.block7 (begin true emptydb))) /\
  Commit (snd (StoreBlock Toy.block7 (begin true emptydb)))
    = (None, snd (Commit (snd (StoreBlock Toy.block7 (begin true emptydb))))) /\
  storage (begin false (snd (acceptIntoStore Toy.block7 emptydb)))
    = storage (snd (Commit (snd (StoreBlock Toy.block7 (begin true emptydb))))).
Proof. repeat split. Defined.

Lemma StoreBlock_invisible_before_Commit_witness :
  FetchBlockExists (Toy.hash32 Byte.xa1)
    (snd (StoreBlock Toy.block7 (begin true emptydb)))
  = Err ErrBlockNotFound.
Proof.
  rewrite (proj1 (StoreBlock_invisible_before_Commit Toy.block7 (begin true emptydb)
                    (snd (StoreBlock Toy.block7 (begin true emptydb))) None
                    (Toy.hash32 Byte.xa1) 7 (proj1 store7_committed))).
  reflexivity.
Defined.

Lemma accept_then_FetchBlock_witness :
  FetchBlock (Toy.hash32 Byte.xa1)
    (begin false (snd (acceptIntoStore Toy.block7 emptydb))) = Ok Toy.block7.
Proof.
  destruct store7_committed as (Hs & Hc & Hv).
  refine (proj2 (accept_then_FetchBlock Toy.block7 _ _ _ _ Hs Hc Hv _)).
  intros data Hm. vm_compute in Hm. inversion Hm. subst data.
  vm_compute. reflexivity.
Defined.

Lemma accept_then_FetchBlockTxByHash_witness :
  FetchBlockTxByHash [Byte.x03]
    (begin false (snd (acceptIntoStore Toy.block7 emptydb)))
  = Ok ([Byte.x03], 1, Toy.hash32 Byte.xa1).
Proof.
  destruct store7_committed as (Hs & Hc & Hv).
  refine (proj1 (accept_then_FetchBlockTxByHash Toy.block7 _ _ _ _ 1%nat
                   [Byte.x03] [Byte.x03] Hs Hc Hv eq_refl eq_refl _ _)).
  - intros [|[|[|j']]] tx' id' Hj' Hh' Hk; simpl in Hj'; try discriminate;
      [|reflexivity].
    inversion Hj'. subst tx'. inversion Hh'. subst id'. vm_compute in Hk.
    discriminate.
  - intros data He. inversion He. reflexivity.
Defined.

Lemma accept_keeps_other_heights_witness :
  FetchBlockHashByHeight 6
    (snd (Commit (snd (StoreBlock Toy.block7 (begin true emptydb)))))
  = FetchBlockHashByHeight 6 (begin true emptydb).
Proof.
  destruct store7_committed as (Hs & Hc & _).
  apply (accept_keeps_other_heights Toy.block7 _ _ _ 6 Hs Hc).
  - reflexivity.
  - simpl. lia.
  - lia.
  - simpl. lia.
Defined.

Lemma bid_values_kept_until_expiry_witness :
  exists t1 t2,
    StoreBidValues [Byte.x0d] [Byte.x0e] [Byte.x0f] 10
      (begin true (snd (acceptIntoStore Toy.block7 emptydb))) = (None, t1) /\
    Commit t1 = (None, t2) /\
    storage t2 bidValuesInd !! bidKey 17 = Some [Byte.x0d; Byte.x0e; Byte.x0f].
Proof.
  destruct (bid_values_kept_until_expiry [Byte.x0d] [Byte.x0e] [Byte.x0f] 10 7
              (begin true (snd (acceptIntoStore Toy.block7 emptydb))) eq_refl)
    as (t1 & t2 & H1 & H2 & _ & H3 & _).
  - vm_compute. reflexivity.
  - exists t1, t2. repeat split; assumption.
Defined.

End LiteMore.

(** ** Bid retriever *)

Module GenerationMore.

Import Generation.

Section BidRetriever.

Context {Tx : Type} `{D : Lite.Driver Tx} `{T : Transactions Tx}.

(** X12: [findCorrespondingBid] returns the first transaction of the list
    that is a bid with the given [M] and a lock reaching beyond the current
    height ([Lock + searchingHeight > currentHeight] in [uint64]); it
    returns its error exactly when no transaction of the list is one, and
    it panics only when the first one that is cannot be hashed. *)
Theorem findCorrespondingBid_first (txs : list Tx) (m : bytes) (sh ch : Z) :
  match findCorrespondingBid txs m sh ch with
  | Returned (Ok tx) =>
      exists pre post,
        txs = pre ++ tx :: post /\
        isMatchingBid m sh ch tx = true /\
        forall x, x ∈ pre -> isMatchingBid m sh ch x = false
  | Returned (Err _) =>
      forall x, x ∈ txs -> isMatchingBid m sh ch x = false
  | Panicked e =>
      exists pre tx post bid,
        txs = pre ++ tx :: post /\
        (forall x, x ∈ pre -> isMatchingBid m sh ch x = false) /\
        asBid tx = Some bid /\ bidMatches m sh ch bid = true /\
        BidCalculateHash bid = Err e
  end.
Proof.
  induction txs as [|tx rest IH]; simpl.
  - intros x Hx. by apply elem_of_nil in Hx.
  - assert (Hskip : isMatchingBid m sh ch tx = false ->
      match findCorrespondingBid rest m sh ch with
      | Returned (Ok tx0) =>
          exists pre post,
            tx :: rest = pre ++ tx0 :: post /\
            isMatchingBid m sh ch tx0 = true /\
            forall x, x ∈ pre -> isMatchingBid m sh ch x = false
      | Returned (Err _) =>
          forall x, x ∈ tx :: rest -> isMatchingBid m sh ch x = false
      | Panicked e =>
          exists pre tx0 post bid,
            tx :: rest = pre ++ tx0 :: post /\
            (forall x, x ∈ pre -> isMatchingBid m sh ch x = false) /\
            asBid tx0 = Some bid /\ bidMatches m sh ch bid = true /\
            BidCalculateHash bid = Err e
      end).
    { intros Hno.
      destruct (findCorrespondingBid rest m sh ch) as [[tx0|e]|e].
      - destruct IH as (pre & post & -> & Hm & Hpre).
        exists (tx :: pre), post. split; [done|]. split; [done|].
        intros x [->|Hx]%elem_of_cons; [done | by apply Hpre].
      - intros x [->|Hx]%elem_of_cons; [done | by apply IH].
      - destruct IH as (pre & tx0 & post & bid & -> & Hpre & Hb & Hm & Hh).
        exists (tx :: pre), tx0, post, bid. split; [done|]. split; [|done].
        intros x [->|Hx]%elem_of_cons; [done | by apply Hpre]. }
    unfold isMatchingBid in Hskip at 1.
    destruct (asBid tx) as [bid|] eqn:Hbid; [|by apply Hskip].
    destruct (bidMatches m sh ch bid) eqn:Hm; [|by apply Hskip].
    destruct (BidCalculateHash bid) as [h|e] eqn:Hh.
    + exists [], rest. split; [done|]. split.
      * unfold isMatchingBid. by rewrite Hbid.
      * intros x Hx. by apply elem_of_nil in Hx.
    + exists [], tx, rest, bid. repeat split; try done.
      intros x Hx. by apply elem_of_nil in Hx.
Qed.

Lemma findCorrespondingBid_none (txs : list Tx) (m : bytes) (sh ch : Z) :
  (forall x, x ∈ txs -> isMatchingBid m sh ch x = false) ->
  exists e, findCorrespondingBid txs m sh ch = Returned (Err e).
Proof.
  induction txs as [|tx rest IH]; intros Hno; cbn [findCorrespondingBid].
  - by eexists.
  - assert (Htx : isMatchingBid m sh ch tx = false) by (apply Hno; set_solver).
    unfold isMatchingBid in Htx.
    destruct (asBid tx) as [bid|].
    + unfold bidMatches in *. rewrite Htx. apply IH. intros x Hx. apply Hno. set_solver.
    + apply IH. intros x Hx. apply Hno. set_solver.
Qed.

Lemma getSearchingHeight_bounds (ch : Z) :
  0 <= ch -> 0 <= MaxLockTime ->
  0 <= getSearchingHeight ch <= ch /\
  getSearchingHeight ch = Z.max 0 (ch - MaxLockTime).
Proof.
  intros Hch Hmax. unfold getSearchingHeight.
  destruct (ch <? MaxLockTime) eqn:Hlt.
  - apply Z.ltb_lt in Hlt. lia.
  - apply Z.ltb_ge in Hlt. lia.
Qed.

Lemma searchFrom_walks (m : bytes) (ch : Z) (st : Lite.memdb) (n : nat) :
  forall (fuel : nat) (start : Z),
    0 <= start -> start + Z.of_nat n < 2 ^ 64 -> (n < fuel)%nat ->
    (forall k : nat, (k < n)%nat ->
       exists blk, getBlock (start + Z.of_nat k) st = Ok blk /\
         forall x, x ∈ Txs blk ->
           isMatchingBid m (start + Z.of_nat k) ch x = false) ->
    searchFrom fuel m ch start st
    = searchFrom (fuel - n) m ch (start + Z.of_nat n) st.
Proof.
  induction n as [|n IH]; intros fuel start Hs Hend Hfuel Hblocks.
  - by rewrite Nat.sub_0_r, Z.add_0_r.
  - destruct fuel as [|fuel]; [lia|]. cbn [searchFrom].
    destruct (Hblocks O) as (blk & Hblk & Hno); [lia|].
    rewrite Z.add_0_r in Hblk, Hno. rewrite Hblk.
    destruct (findCorrespondingBid_none (Txs blk) m start ch Hno) as (e & ->).
    assert (uint64 (start + 1) = start + 1) as ->.
    { unfold uint64, wrap. apply Z.mod_small. lia. }
    rewrite (IH fuel (start + 1)); [| lia | lia | lia |].
    + f_equal. lia.
    + intros k Hk. destruct (Hblocks (S k)) as (blk' & Hblk' & Hno'); [lia|].
      exists blk'. replace (start + 1 + Z.of_nat k) with (start + Z.of_nat (S k)) by lia.
      done.
Qed.

(** X13: [SearchForBid] starts at the current height minus the maximum
    lock time (at 0 when that would be negative) and walks up one height
    at a time past the blocks that hold no matching bid.  With fuel for
    the walk, it returns the first matching bid of the first block that
    has one, with the height of that block, and [NoBidFound] when it
    reaches a height without a block first. *)
Theorem SearchForBid_lowest_height (m : bytes) (st : Lite.memdb) (ch : Z)
    (n fuel : nat) :
  Lite.FetchCurrentHeight (Lite.begin false st) = Ok ch ->
  0 <= ch -> 0 <= MaxLockTime ->
  let start := Z.max 0 (ch - MaxLockTime) in
  start + Z.of_nat n < 2 ^ 64 -> (n < fuel)%nat ->
  (forall k : nat, (k < n)%nat ->
     exists blk, getBlock (start + Z.of_nat k) st = Ok blk /\
       forall x, x ∈ Txs blk ->
         isMatchingBid m (start + Z.of_nat k) ch x = false) ->
  (getBlock (start + Z.of_nat n) st = Err ErrBlockNotFound ->
   SearchForBid fuel m st = Some (Returned (Err NoBidFound))) /\
  (forall blk tx,
     getBlock (start + Z.of_nat n) st = Ok blk ->
     findCorrespondingBid (Txs blk) m (start + Z.of_nat n) ch = Returned (Ok tx) ->
     SearchForBid fuel m st = Some (Returned (Ok (tx, start + Z.of_nat n)))).
Proof.
  intros Hcur Hch Hmax start Hend Hfuel Hblocks.
  destruct (getSearchingHeight_bounds ch Hch Hmax) as [Hb Hstart].
  assert (Hrun : SearchForBid fuel m st
                 = searchFrom (fuel - n) m ch (start + Z.of_nat n) st).
  { unfold SearchForBid, getCurrentHeight. rewrite Hcur, Hstart.
    apply searchFrom_walks; [lia | done | done | done]. }
  destruct (fuel - n)%nat as [|fuel'] eqn:Hleft; [lia|].
  rewrite Hrun. cbn [searchFrom]. split.
  - intros ->. by rewrite decide_True.
  - intros blk tx -> ->. done.
Qed.

End BidRetriever.

(** The store that holds [Toy.block0]. *)
Lemma store0_committed :
  Lite.StoreBlock Toy.block0 (Lite.begin true Lite.emptydb)
    = (None, snd (Lite.StoreBlock Toy.block0 (Lite.begin true Lite.emptydb))) /\
  Lite.Commit (snd (Lite.StoreBlock Toy.block0 (Lite.begin true Lite.emptydb)))
    = (None, snd (Lite.Commit
                    (snd (Lite.StoreBlock Toy.block0 (Lite.begin true Lite.emptydb))))) /\
  Lite.storage (Lite.begin false (snd (Lite.acceptIntoStore Toy.block0 Lite.emptydb)))
    = Lite.storage
        (snd (Lite.Commit
                (snd (Lite.StoreBlock Toy.block0 (Lite.begin true Lite.emptydb))))).
Proof. repeat split. Defined.

Lemma block0_codec (data : bytes) :
  Lite.MarshalBlock Toy.block0 = Ok data -> Lite.UnmarshalBlock data = Ok Toy.block0.
Proof.
  intros Hm. vm_compute in Hm. inversion Hm. subst data. vm_compute. reflexivity.
Defined.

Lemma store0_height :
  Lite.FetchCurrentHeight
    (Lite.begin false (snd (Lite.acceptIntoStore Toy.block0 Lite.emptydb))) = Ok 0.
Proof.
  vm_compute. reflexivity.
Defined.

Lemma store0_block :
  getBlock 0 (snd (Lite.acceptIntoStore Toy.block0 Lite.emptydb)) = Ok Toy.block0.
Proof.
  destruct store0_committed as (Hs & Hc & Hv).
  unfold getBlock.
  assert (Hh : Lite.FetchBlockHashByHeight 0
                 (Lite.begin false (snd (Lite.acceptIntoStore Toy.block0 Lite.emptydb)))
               = Ok (Hash (Hdr Toy.block0))).
  { vm_compute. reflexivity. }
  rewrite Hh. vm_compute. reflexivity.
Defined.

Lemma SearchForBid_lowest_height_witness :
  SearchForBid 1 [Byte.x4d; Byte.x4d]
    (snd (Lite.acceptIntoStore Toy.block0 Lite.emptydb))
  = Some (Returned (Ok ([Byte.xbd; Byte.x05; Byte.x4d; Byte.x4d], 0))).
Proof.
  refine (proj2 (SearchForBid_lowest_height [Byte.x4d; Byte.x4d]
                   (snd (Lite.acceptIntoStore Toy.block0 Lite.emptydb))
                   0 0 1 store0_height _ _ _ _ _) Toy.block0 _ store0_block _).
  - lia.
  - simpl. lia.
  - simpl. lia.
  - lia.
  - intros k Hk. lia.
  - reflexivity.
Defined.

End GenerationMore.

(** ** Chain acceptor: what an acceptance checks, does and leaves alone *)

Module ChainMore.

Import Dupemap Chain.

Section Acceptor.

Context {Tx : Type} `{C : Collaborators Tx}.

(** The state after [isValidBlock] and the checks behind its verdict. *)
Lemma isValidBlock_result (blk tipBlk : Block Tx) (w : bool) (c c1 : Chain Tx)
    (r : option error) :
  isValidBlock blk tipBlk w c = (r, c1) ->
  tip c1 = tip c /\ p c1 = p c /\ db c1 = db c /\ exec c1 = exec c /\
  blacklisted c1 = blacklisted c /\ highestSeen c1 = highestSeen c /\
  sync c1 = sync c /\
  r = (if w then
         match SanityCheckBlock tipBlk blk with
         | Some e => Some e
         | None => CheckBlockCertificate (p c) blk (Seed (Hdr tipBlk))
         end
       else CheckBlockCertificate (p c) blk (Seed (Hdr tipBlk))) /\
  trace c1 = trace c ++
    (if w then
       CallSanityCheckBlock tipBlk blk ::
       match SanityCheckBlock tipBlk blk with
       | Some _ => []
       | None => [CallCheckBlockCertificate blk (Seed (Hdr tipBlk))]
       end
     else [CallCheckBlockCertificate blk (Seed (Hdr tipBlk))]).
Proof.
  unfold isValidBlock. destruct w.
  - destruct (SanityCheckBlock tipBlk blk) as [e|]; inversion 1; subst; simpl.
    + done.
    + by rewrite <- app_assoc.
  - inversion 1; subst; simpl. done.
Qed.

(** The state after a [runStateTransition] that returns no error. *)
Lemma runStateTransition_ok (tipBlk blk b : Block Tx) (c c2 : Chain Tx) :
  runStateTransition tipBlk blk c = ((b, None), c2) ->
  exists txs ps ex,
    GetStateRoot (exec c) = Ok (StateHash (Hdr (tip c))) /\
    StateHash (Hdr (tip c)) <> [] /\
    executeStateTransition tipBlk blk (exec c)
      = (Ok (txs, ps, StateHash (Hdr blk)), ex) /\
    b = tamper txs blk /\
    tip c2 = tip c /\ p c2 = ps /\ db c2 = db c /\ exec c2 = ex /\
    blacklisted c2 = blacklisted c /\ highestSeen c2 = highestSeen c /\
    sync c2 = sync c /\
    trace c2 = trace c ++ [CallGetStateRoot; stateTransitionCall tipBlk blk].
Proof.
  unfold runStateTransition, sanityCheckStateHash. simpl.
  destruct (GetStateRoot (exec c)) as [root|e] eqn:Hroot; [|discriminate].
  destruct (bytes_Equal (StateHash (Hdr (tip c))) root) eqn:Heq; [|discriminate].
  destruct (Nat.eqb (length (StateHash (Hdr (tip c)))) 0) eqn:Hlen; [discriminate|].
  simpl.
  destruct (executeStateTransition tipBlk blk (exec c))
    as [[[[txs ps] resp]|e] ex] eqn:He; [|discriminate].
  destruct (bytes_Equal resp (StateHash (Hdr blk))) eqn:Hresp; [|discriminate].
  simpl. intros Hrun. inversion Hrun. subst. clear Hrun.
  apply bytes_Equal_true_iff in Heq. apply bytes_Equal_true_iff in Hresp. subst.
  exists txs, ps, ex. simpl. rewrite <- app_assoc.
  repeat split; try done.
  intros Hnil. rewrite Hnil in Hlen. discriminate.
Qed.

(** [persist] makes no call that publishes a block or checks one. *)
Lemma persist_calls (b : Block Tx) (c c' : Chain Tx) (r : option error) :
  persist b c = (r, c') ->
  exists added,
    trace c' = trace c ++ added /\ publishes added = [] /\ sanityChecks added = [].
Proof.
  unfold persist, Update. simpl.
  destruct (StoreBlock b _ _) as [[e|] d] eqn:Hs; simpl.
  - inversion 1; subst; simpl. by eexists [_].
  - destruct ((0 <? PersistEvery) && _).
    + simpl. destruct (Persist _ _) as [[e|] ex]; inversion 1; subst; simpl;
        rewrite <- app_assoc; by eexists [_; _].
    + inversion 1; subst; simpl. by eexists [_].
Qed.

(** X17: [persist] is all or nothing on the block store: when it returns
    an error, from the store or from the executor's [Persist], the store
    is as it was.  The executor's [Persist] is called, with the block's
    state hash, exactly when the store took the block and the block height
    is a multiple of a positive [PersistEvery]; when the store refuses the
    block the executor is left alone. *)
Theorem persist_all_or_nothing (b : Block Tx) (c c' : Chain Tx) (r : option error) :
  persist b c = (r, c') ->
  (r <> None -> db c' = db c) /\
  (r = None -> db c' = snd (StoreBlock b (persisted b) (db c))) /\
  tip c' = tip c /\ p c' = p c /\
  (if decide (fst (StoreBlock b (persisted b) (db c)) = None /\ persisted b = true)
   then trace c' = trace c ++ [CallStoreBlock b true; CallPersist (StateHash (Hdr b))] /\
        r = fst (Persist (StateHash (Hdr b)) (exec c)) /\
        exec c' = snd (Persist (StateHash (Hdr b)) (exec c))
   else trace c' = trace c ++ [CallStoreBlock b (persisted b)] /\
        r = fst (StoreBlock b (persisted b) (db c)) /\
        exec c' = exec c).
Proof.
  intros Hrun. unfold persist, Update in Hrun. fold (persisted b) in Hrun.
  simpl in Hrun.
  destruct (StoreBlock b (persisted b) (db c)) as [[e|] d] eqn:Hs.
  - inversion Hrun; subst. case_decide as Hcase; [by destruct Hcase|].
    simpl. done.
  - destruct (persisted b) eqn:Hp.
    + case_decide as Hcase; [|by destruct Hcase].
      destruct (Persist (StateHash (Hdr b)) (exec c)) as [[e|] ex] eqn:HP;
        inversion Hrun; subst; simpl; rewrite <- app_assoc; done.
    + case_decide as Hcase; [by destruct Hcase|].
      inversion Hrun; subst; simpl. done.
Qed.

Lemma persist_ok (b : Block Tx) (c c3 : Chain Tx) :
  persist b c = (None, c3) ->
  fst (StoreBlock b (persisted b) (db c)) = None /\
  tip c3 = tip c /\ p c3 = p c /\
  blacklisted c3 = blacklisted c /\ highestSeen c3 = highestSeen c /\
  trace c3 = trace c ++ CallStoreBlock b (persisted b) ::
             (if persisted b then [CallPersist (StateHash (Hdr b))] else []).
Proof.
  unfold persist, Update. fold (persisted b). simpl.
  destruct (StoreBlock b (persisted b) (db c)) as [[e|] d] eqn:Hs; simpl;
    [discriminate|].
  destruct (persisted b) eqn:Hp.
  - simpl. destruct (Persist (StateHash (Hdr b)) (exec c)) as [[e|] ex];
      inversion 1; subst; simpl. by rewrite <- app_assoc.
  - inversion 1; subst; simpl. done.
Qed.

Lemma postAcceptBlock_result (b : Block Tx) (c : Chain Tx) :
  tip (postAcceptBlock b c) = tip c /\ p (postAcceptBlock b c) = p c /\
  blacklisted (postAcceptBlock b c) = blacklisted c /\
  highestSeen (postAcceptBlock b c) = highestSeen c /\
  trace (postAcceptBlock b c) = trace c ++
    [PublishAcceptedBlock b; CallClearCandidateMessages]
    ++ (if APIEnabled then [StoreStakesInStormDB (Height (Hdr b))] else []).
Proof.
  unfold postAcceptBlock, Update. simpl.
  destruct (ClearCandidateMessages (db c)) as [[e|] d];
    destruct APIEnabled; simpl; rewrite <- ?app_assoc; done.
Qed.

(** X14: an acceptance that goes through makes its calls in one order
    and each once: the sanity check when asked for, the certificate check,
    the executor's state root and state transition, the store, the
    executor's [Persist] for a persisted block, and only then the
    announcement of the accepted block and the clearing of the candidates.
    The new tip is the block with the gas the executor reported written
    into it, the provisioners are the executor's, and the blacklist and
    the highest height seen are as before. *)
Theorem acceptBlock_order_of_calls (blk : Block Tx) (w : bool) (c c' : Chain Tx) :
  acceptBlock blk w c = (None, c') ->
  exists txs ps ex,
    executeStateTransition (tip c) blk (exec c)
      = (Ok (txs, ps, StateHash (Hdr blk)), ex) /\
    tip c' = tamper txs blk /\ p c' = ps /\
    blacklisted c' = blacklisted c /\ highestSeen c' = highestSeen c /\
    trace c' = trace c ++ acceptedCalls w (tip c) blk (tamper txs blk).
Proof.
  unfold acceptBlock.
  destruct (isValidBlock blk (tip c) w c) as [[e|] c1] eqn:Hv; [discriminate|].
  destruct (isValidBlock_result _ _ _ _ _ _ Hv)
    as (Ht1 & Hp1 & Hd1 & He1 & Hb1 & Hh1 & _ & Hr1 & Htr1).
  destruct (runStateTransition (tip c1) blk c1) as [[b [e|]] c2] eqn:Hr; [discriminate|].
  destruct (runStateTransition_ok _ _ _ _ _ Hr)
    as (txs & ps & ex & _ & _ & Hex & Hb & Ht2 & Hp2 & Hd2 & He2 & Hb2 & Hh2 & _ & Htr2).
  destruct (persist b c2) as [[e|] c3] eqn:Hp; [discriminate|].
  destruct (persist_ok _ _ _ Hp) as (_ & Ht3 & Hp3 & Hb3 & Hh3 & Htr3).
  intros Hacc. inversion Hacc. subst c'. clear Hacc.
  destruct (postAcceptBlock_result b (setTip b c3)) as (Ht4 & Hp4 & Hb4 & Hh4 & Htr4).
  exists txs, ps, ex. rewrite Ht1, He1 in Hex.
  split; [done|]. rewrite Ht4, Hp4, Hb4, Hh4, Htr4. simpl.
  rewrite Hp3, Hp2, Hb3, Hb2, Hb1, Hh3, Hh2, Hh1, Htr3, Htr2, Htr1, Ht1, Hb.
  repeat split; try done.
  unfold acceptedCalls.
  assert (Hchecks :
    (if w then
       CallSanityCheckBlock (tip c) blk ::
       match SanityCheckBlock (tip c) blk with
       | Some _ => []
       | None => [CallCheckBlockCertificate blk (Seed (Hdr (tip c)))]
       end
     else [CallCheckBlockCertificate blk (Seed (Hdr (tip c)))])
    = (if w then [CallSanityCheckBlock (tip c) blk] else [])
      ++ [CallCheckBlockCertificate blk (Seed (Hdr (tip c)))]).
  { destruct w; [|done].
    destruct (SanityCheckBlock (tip c) blk); [discriminate | done]. }
  rewrite Hchecks. rewrite <- !app_assoc. reflexivity.
Qed.

(** X15: a block is accepted only when every check passed: the verifier's
    sanity check when it was asked for, the certificate check against the
    provisioners and the seed of the tip, the state hash of the tip being
    non-empty and equal to the executor's state root, the executor's new
    root being the state hash the block declares, and the store taking
    the block. *)
Theorem acceptBlock_only_if_checks_pass (blk : Block Tx) (w : bool) (c c' : Chain Tx) :
  acceptBlock blk w c = (None, c') ->
  (w = true -> SanityCheckBlock (tip c) blk = None) /\
  CheckBlockCertificate (p c) blk (Seed (Hdr (tip c))) = None /\
  StateHash (Hdr (tip c)) <> [] /\
  GetStateRoot (exec c) = Ok (StateHash (Hdr (tip c))) /\
  exists txs ps ex,
    executeStateTransition (tip c) blk (exec c)
      = (Ok (txs, ps, StateHash (Hdr blk)), ex) /\
    fst (StoreBlock (tamper txs blk) (persisted (tamper txs blk)) (db c)) = None.
Proof.
  unfold acceptBlock.
  destruct (isValidBlock blk (tip c) w c) as [[e|] c1] eqn:Hv; [discriminate|].
  destruct (isValidBlock_result _ _ _ _ _ _ Hv)
    as (Ht1 & Hp1 & Hd1 & He1 & _ & _ & _ & Hr1 & _).
  destruct (runStateTransition (tip c1) blk c1) as [[b [e|]] c2] eqn:Hr; [discriminate|].
  destruct (runStateTransition_ok _ _ _ _ _ Hr)
    as (txs & ps & ex & Hroot & Hne & Hex & Hb & _ & _ & Hd2 & _).
  destruct (persist b c2) as [[e|] c3] eqn:Hp; [discriminate|].
  destruct (persist_ok _ _ _ Hp) as (Hstore & _).
  intros _. rewrite Ht1, He1 in *. rewrite Hd2, Hd1, Hb in Hstore.
  split; [|split; [|split; [done|split; [done|]]]].
  - intros ->. by destruct (SanityCheckBlock (tip c) blk).
  - destruct w; [|done]. by destruct (SanityCheckBlock (tip c) blk).
  - by exists txs, ps, ex.
Qed.

(** X16: an acceptance that fails, at whatever step, leaves the tip, the
    block store, the blacklist and the highest height seen as they were,
    and announces no accepted block. *)
Theorem acceptBlock_failure_keeps_tip (blk : Block Tx) (w : bool) (c c' : Chain Tx)
    (e : error) :
  acceptBlock blk w c = (Some e, c') ->
  tip c' = tip c /\ db c' = db c /\
  blacklisted c' = blacklisted c /\ highestSeen c' = highestSeen c /\
  exists added, trace c' = trace c ++ added /\ publishes added = [].
Proof.
  unfold acceptBlock.
  destruct (isValidBlock blk (tip c) w c) as [[e1|] c1] eqn:Hv.
  - destruct (isValidBlock_result _ _ _ _ _ _ Hv)
      as (Ht1 & _ & Hd1 & _ & Hb1 & Hh1 & _ & _ & Htr1).
    inversion 1; subst. repeat split; try done.
    eexists. split; [exact Htr1|].
    destruct w; [destruct (SanityCheckBlock _ _)|]; reflexivity.
  - destruct (isValidBlock_result _ _ _ _ _ _ Hv)
      as (Ht1 & _ & Hd1 & _ & Hb1 & Hh1 & _ & _ & Htr1).
    assert (Hn1 : publishes
              (if w then
                 CallSanityCheckBlock (tip c) blk ::
                 match SanityCheckBlock (tip c) blk with
                 | Some _ => []
                 | None => [CallCheckBlockCertificate blk (Seed (Hdr (tip c)))]
                 end
               else [CallCheckBlockCertificate blk (Seed (Hdr (tip c)))]) = []).
    { destruct w; [destruct (SanityCheckBlock _ _)|]; reflexivity. }
    destruct (runStateTransition (tip c1) blk c1) as [[b [e2|]] c2] eqn:Hr.
    + inversion 1; subst.
      assert (Hfr : tip c' = tip c1 /\ db c' = db c1 /\
                    blacklisted c' = blacklisted c1 /\
                    highestSeen c' = highestSeen c1 /\
                    exists added, trace c' = trace c1 ++ added /\ publishes added = []).
      { revert Hr. unfold runStateTransition, sanityCheckStateHash. simpl.
        destruct (GetStateRoot (exec c1)) as [root|e3];
          [|inversion 1; subst; simpl; repeat split; by eexists [_]].
        destruct (_ || _);
          [inversion 1; subst; simpl; repeat split; by eexists [_]|].
        simpl.
        assert (Hnp : isPublish (stateTransitionCall (tip c1) blk) = false).
        { rewrite ChainFacts.stateTransitionCall_step.
          by destruct (Step (Cert (Hdr blk)) =? 3). }
        destruct (executeStateTransition (tip c1) blk (exec c1))
          as [[[[txs ps] resp]|e3] ex].
        - destruct (negb (bytes_Equal resp (StateHash (Hdr blk))));
            inversion 1; subst; simpl; repeat split;
            rewrite <- app_assoc; eexists [_; _]; split; [reflexivity|];
            unfold publishes; simpl; by rewrite Hnp.
        - inversion 1; subst; simpl; repeat split;
            rewrite <- app_assoc; eexists [_; _]; split; [reflexivity|];
            unfold publishes; simpl; by rewrite Hnp. }
      destruct Hfr as (Ht2 & Hd2 & Hb2 & Hh2 & added & Htr2 & Hn2).
      rewrite Ht2, Hd2, Hb2, Hh2, Htr2, Htr1. repeat split; try done.
      eexists. split; [by rewrite <- app_assoc|].
      unfold publishes in *. by rewrite List.filter_app, Hn1, Hn2.
    + destruct (runStateTransition_ok _ _ _ _ _ Hr)
        as (txs & ps & ex & _ & _ & _ & _ & Ht2 & _ & Hd2 & _ & Hb2 & Hh2 & _ & Htr2).
      assert (Hnp : isPublish (stateTransitionCall (tip c1) blk) = false).
      { rewrite ChainFacts.stateTransitionCall_step.
        by destruct (Step (Cert (Hdr blk)) =? 3). }
      destruct (persist b c2) as [[e3|] c3] eqn:Hp; [|discriminate].
      inversion 1; subst.
      destruct (ChainFacts.persist_frame _ _ _ _ Hp)
        as (a3' & _ & _ & Ht3 & _ & Hb3 & Hh3 & Hd3).
      destruct (persist_calls _ _ _ _ Hp) as (a3 & Htr3 & Hn3 & _).
      rewrite Ht3, Ht2, Ht1, (Hd3 ltac:(done)), Hd2, Hd1, Hb3, Hb2, Hb1, Hh3, Hh2, Hh1.
      repeat split; try done.
      rewrite Htr3, Htr2, Htr1.
      eexists. split; [by rewrite <- !app_assoc|].
      unfold publishes in *. rewrite !List.filter_app, Hn1, Hn3. simpl.
      by rewrite Hnp.
Qed.

(** X18: [TryNextConsecutiveBlockIsValid] changes no state: it returns the
    error of the verifier's sanity check when there is one, without
    looking at the certificate, and the verdict of the certificate check
    otherwise. *)
Theorem TryNextConsecutiveBlockIsValid_changes_nothing (blk : Block Tx)
    (c c' : Chain Tx) (r : option error) :
  TryNextConsecutiveBlockIsValid blk c = (r, c') ->
  tip c' = tip c /\ p c' = p c /\ db c' = db c /\ exec c' = exec c /\
  blacklisted c' = blacklisted c /\ highestSeen c' = highestSeen c /\
  r = match SanityCheckBlock (tip c) blk with
      | Some e => Some e
      | None => CheckBlockCertificate (p c) blk (Seed (Hdr (tip c)))
      end /\
  trace c' = trace c ++
    CallSanityCheckBlock (tip c) blk ::
    match SanityCheckBlock (tip c) blk with
    | Some _ => []
    | None => [CallCheckBlockCertificate blk (Seed (Hdr (tip c)))]
    end.
Proof.
  unfold TryNextConsecutiveBlockIsValid. intros Hv.
  destruct (isValidBlock_result _ _ _ _ _ _ Hv)
    as (Ht & Hp & Hd & He & Hb & Hh & _ & Hr & Htr).
  done.
Qed.

Context `{P : Procedures Tx}.

(** X19: of the blocks that are not blacklisted, one that is the tip
    itself (same height and hash) is dropped with no change; one that
    competes with the tip and fails the fallback is answered with no
    buffers and no error, the error of the fallback being dropped, and
    the tip hash is not blacklisted; one above the tip goes to the
    synchronizer with the highest height seen raised to its height when
    that is higher, and nothing else changed. *)
Theorem ProcessBlockFromNetwork_other_cases (srcPeerID : string) (header : bytes)
    (blk : Block Tx) (c : Chain Tx) :
  Has (Hash (Hdr blk)) (blacklisted c) = false ->
  (Height (Hdr blk) = Height (Hdr (tip c)) ->
   Hash (Hdr blk) = Hash (Hdr (tip c)) ->
   ProcessBlockFromNetwork srcPeerID header blk c = (([], None), c)) /\
  (forall e c1,
     Height (Hdr blk) = Height (Hdr (tip c)) ->
     Hash (Hdr blk) <> Hash (Hdr (tip c)) ->
     tryFallback blk c = (Some e, c1) ->
     ProcessBlockFromNetwork srcPeerID header blk c = (([], None), c1)) /\
  (Height (Hdr (tip c)) < Height (Hdr blk) ->
   ProcessBlockFromNetwork srcPeerID header blk c
   = processBlock srcPeerID (Height (Hdr (tip c))) blk
       (match header with [] => Byte.xff | b :: _ => b end)
       (setHighestSeen (Z.max (highestSeen c) (Height (Hdr blk))) c)).
Proof.
  intros Hbl. unfold ProcessBlockFromNetwork. rewrite Hbl. split; [|split].
  - intros Hh Hhash. apply Z.eqb_eq in Hh. apply bytes_Equal_true_iff in Hhash.
    by rewrite Hh, Hhash.
  - intros e c1 Hh Hhash Hfb. apply Z.eqb_eq in Hh.
    apply bytes_Equal_false_iff in Hhash. by rewrite Hh, Hhash, Hfb.
  - intros Hlt.
    assert ((Height (Hdr blk) =? Height (Hdr (tip c))) = false) as ->
      by (apply Z.eqb_neq; lia).
    assert ((Height (Hdr blk) <? Height (Hdr (tip c))) = false) as ->
      by (apply Z.ltb_ge; lia).
    destruct (highestSeen c <? Height (Hdr blk)) eqn:Hhs.
    + apply Z.ltb_lt in Hhs. by rewrite Z.max_r by lia.
    + apply Z.ltb_ge in Hhs. rewrite Z.max_l by lia.
      by destruct c.
Qed.

End Acceptor.

Section Recovery.

Context {Tx : Type} `{C : Collaborators Tx} `{L : Loader Tx}.

(** X20: [syncWithRusk] compares the executor's state root with the state
    hash of the last persisted block before anything else: when they
    differ it fails with "invalid state detected" and leaves the tip
    alone; when they agree and the persisted block is the tip of the
    store, the persisted block becomes the tip and no block is accepted
    again.  The only call on the executor in both cases is the one for
    the state root; the store is only read. *)
Theorem syncWithRusk_compares_state_first (fuel : nat) (c : Chain Tx)
    (root persistedHash : bytes) (prevBlock persistedBlock : Block Tx) :
  GetStateRoot (exec c) = Ok root ->
  LoadTip (db c) = Ok (prevBlock, persistedHash) ->
  FetchBlock persistedHash (db c) = Ok persistedBlock ->
  (StateHash (Hdr persistedBlock) <> root ->
   syncWithRusk fuel c
   = Some (Some (errNew "invalid state detected"), call CallGetStateRoot c)) /\
  (StateHash (Hdr persistedBlock) = root ->
   persistedHash = Hash (Hdr prevBlock) ->
   syncWithRusk fuel c
   = Some (None, setTip persistedBlock (call CallGetStateRoot c))).
Proof.
  intros Hroot Htip Hblk. unfold syncWithRusk. simpl.
  rewrite Hroot, Htip, Hblk. split.
  - intros Hne. apply bytes_Equal_false_iff in Hne. by rewrite Hne.
  - intros Heq Hsame. apply bytes_Equal_true_iff in Heq.
    apply bytes_Equal_true_iff in Hsame. by rewrite Heq, Hsame.
Qed.

Lemma sanityChecks_stateTransitionCall (tipBlk blk : Block Tx) :
  isSanityCheck (stateTransitionCall tipBlk blk) = false.
Proof.
  rewrite ChainFacts.stateTransitionCall_step.
  by destruct (Step (Cert (Hdr blk)) =? 3).
Qed.

Lemma runStateTransition_no_sanity (tipBlk blk : Block Tx) (c c2 : Chain Tx)
    (r : Block Tx * option error) :
  runStateTransition tipBlk blk c = (r, c2) ->
  blacklisted c2 = blacklisted c /\ highestSeen c2 = highestSeen c /\
  exists added, trace c2 = trace c ++ added /\ sanityChecks added = [].
Proof.
  pose proof (sanityChecks_stateTransitionCall tipBlk blk) as Hns.
  unfold runStateTransition, sanityCheckStateHash. simpl.
  destruct (GetStateRoot (exec c)) as [root|e];
    [|inversion 1; subst; simpl; split; [done|split; [done|by eexists [_]]]].
  destruct (_ || _);
    [inversion 1; subst; simpl; split; [done|split; [done|by eexists [_]]]|].
  simpl.
  destruct (executeStateTransition tipBlk blk (exec c)) as [[[[txs ps] resp]|e] ex].
  - destruct (negb (bytes_Equal resp (StateHash (Hdr blk))));
      inversion 1; subst; simpl; (split; [done|split; [done|]]);
      rewrite <- app_assoc; eexists [_; _]; (split; [reflexivity|]);
      unfold sanityChecks; simpl; by rewrite Hns.
  - inversion 1; subst; simpl; (split; [done|split; [done|]]);
      rewrite <- app_assoc; eexists [_; _]; (split; [reflexivity|]);
      unfold sanityChecks; simpl; by rewrite Hns.
Qed.

(** An acceptance without the sanity check never calls it, whatever its
    outcome. *)
Lemma acceptBlock_false_no_sanity (blk : Block Tx) (c c' : Chain Tx) (r : option error) :
  acceptBlock blk false c = (r, c') ->
  blacklisted c' = blacklisted c /\ highestSeen c' = highestSeen c /\
  exists added, trace c' = trace c ++ added /\ sanityChecks added = [].
Proof.
  unfold acceptBlock.
  destruct (isValidBlock blk (tip c) false c) as [r1 c1] eqn:Hv.
  destruct (ChainMore.isValidBlock_result _ _ _ _ _ _ Hv)
    as (_ & _ & _ & _ & Hb1 & Hh1 & _ & _ & Htr1).
  destruct r1 as [e1|].
  { inversion 1; subst. repeat split; try done. by eexists. }
  destruct (runStateTransition (tip c1) blk c1) as [[b r2] c2] eqn:Hr.
  destruct (runStateTransition_no_sanity _ _ _ _ _ Hr)
    as (Hb2 & Hh2 & a2 & Htr2 & Hn2).
  destruct r2 as [e2|].
  { inversion 1; subst. rewrite Hb2, Hh2, Htr2, Htr1. repeat split; try done.
    eexists. split; [by rewrite <- app_assoc|].
    unfold sanityChecks in *. rewrite List.filter_app. by rewrite Hn2. }
  destruct (persist b c2) as [r3 c3] eqn:Hp.
  destruct (ChainFacts.persist_frame _ _ _ _ Hp)
    as (a3' & _ & _ & _ & _ & Hb3 & Hh3 & _).
  destruct (ChainMore.persist_calls _ _ _ _ Hp) as (a3 & Htr3' & _ & Hn3).
  destruct r3 as [e3|].
  { inversion 1; subst. rewrite Hb3, Hb2, Hh3, Hh2, Htr3', Htr2, Htr1.
    repeat split; try done.
    eexists. split; [by rewrite <- !app_assoc|].
    unfold sanityChecks in *. rewrite !List.filter_app. by rewrite Hn2, Hn3. }
  inversion 1; subst.
  destruct (ChainMore.postAcceptBlock_result b (setTip b c3))
    as (_ & _ & Hb4 & Hh4 & Htr4).
  rewrite Hb4, Hh4, Htr4. simpl. rewrite Hb3, Hb2, Hh3, Hh2, Htr3', Htr2, Htr1.
  repeat split; try done.
  eexists. split; [by rewrite <- !app_assoc|].
  unfold sanityChecks in *. rewrite !List.filter_app, Hn2, Hn3.
  by destruct APIEnabled.
Qed.

Lemma reaccept_no_sanity (fuel : nat) :
  forall (i : Z) (c c' : Chain Tx) (r : option error),
    reaccept fuel i c = Some (r, c') ->
    blacklisted c' = blacklisted c /\ highestSeen c' = highestSeen c /\
    exists added, trace c' = trace c ++ added /\ sanityChecks added = [].
Proof.
  induction fuel as [|fuel IH]; intros i c c' r Hrun; [discriminate|].
  cbn [reaccept] in Hrun.
  destruct (match FetchBlockHashByHeight (uint64 (i + 1)) (db c) with
            | Ok hash => FetchBlock hash (db c)
            | Err e => Err e
            end) as [blk|e].
  - destruct (acceptBlock blk false c) as [r1 c1] eqn:Hacc.
    destruct (acceptBlock_false_no_sanity _ _ _ _ Hacc) as (Hb1 & Hh1 & a1 & Htr1 & Hn1).
    destruct r1 as [e1|].
    + inversion Hrun; subst. repeat split; try done. by exists a1.
    + destruct (IH _ _ _ _ Hrun) as (Hb2 & Hh2 & a2 & Htr2 & Hn2).
      rewrite Hb2, Hh2, Htr2, Htr1. repeat split; try done.
      exists (a1 ++ a2). split; [by rewrite <- app_assoc|].
      unfold sanityChecks in *. by rewrite List.filter_app, Hn1, Hn2.
  - inversion Hrun; subst. repeat split; try done. exists [].
    by rewrite app_nil_r.
Qed.

(** X21: whatever [syncWithRusk] returns, and however many blocks it
    accepted again from the store, it never ran the verifier's sanity
    check on any of them, and it left the blacklist and the highest
    height seen as they were. *)
Theorem syncWithRusk_skips_sanity_check (fuel : nat) (c c' : Chain Tx)
    (r : option error) :
  syncWithRusk fuel c = Some (r, c') ->
  blacklisted c' = blacklisted c /\ highestSeen c' = highestSeen c /\
  exists added, trace c' = trace c ++ added /\ sanityChecks added = [].
Proof.
  unfold syncWithRusk. simpl.
  destruct (GetStateRoot (exec c)) as [root|e];
    [|inversion 1; subst; simpl; split; [done|split; [done|by eexists [_]]]].
  destruct (LoadTip (db c)) as [[prevBlock persistedHash]|e];
    [|inversion 1; subst; simpl; split; [done|split; [done|by eexists [_]]]].
  destruct (FetchBlock persistedHash (db c)) as [persistedBlock|e];
    [|inversion 1; subst; simpl; split; [done|split; [done|by eexists [_]]]].
  destruct (negb (bytes_Equal (StateHash (Hdr persistedBlock)) root));
    [inversion 1; subst; simpl; split; [done|split; [done|by eexists [_]]]|].
  destruct (bytes_Equal persistedHash (Hash (Hdr prevBlock)));
    [inversion 1; subst; simpl; split; [done|split; [done|by eexists [_]]]|].
  intros Hrun. destruct (reaccept_no_sanity _ _ _ _ _ Hrun)
    as (Hb & Hh & added & Htr & Hn).
  simpl in Hb, Hh, Htr. rewrite Hb, Hh, Htr. repeat split; try done.
  exists (CallGetStateRoot :: added). split; [by rewrite <- app_assoc|].
  unfold sanityChecks in *. simpl. exact Hn.
Qed.

End Recovery.

(** The theorems at the chain of [Toy]. *)
Lemma acceptBlock_order_of_calls_witness :
  exists txs,
    tip (snd (acceptBlock Toy.block7 true Toy.chain6)) = tamper txs Toy.block7 /\
    trace (snd (acceptBlock Toy.block7 true Toy.chain6))
      = trace Toy.chain6 ++ acceptedCalls true (tip Toy.chain6) Toy.block7
                              (tamper txs Toy.block7).
Proof.
  destruct (acceptBlock_order_of_calls Toy.block7 true Toy.chain6
              (snd (acceptBlock Toy.block7 true Toy.chain6)))
    as (txs & ps & ex & _ & Htip & _ & _ & _ & Htr).
  - apply ChainFacts.pair_of_fst. vm_compute. reflexivity.
  - exists txs. split; [exact Htip | exact Htr].
Defined.

Lemma acceptBlock_only_if_checks_pass_witness :
  CheckBlockCertificate (p Toy.chain6) Toy.block7 (Seed (Hdr (tip Toy.chain6))) = None /\
  GetStateRoot (exec Toy.chain6) = Ok (StateHash (Hdr (tip Toy.chain6))).
Proof.
  destruct (acceptBlock_only_if_checks_pass Toy.block7 true Toy.chain6
              (snd (acceptBlock Toy.block7 true Toy.chain6)))
    as (_ & Hcert & _ & Hroot & _).
  - apply ChainFacts.pair_of_fst. vm_compute. reflexivity.
  - split; [exact Hcert | exact Hroot].
Defined.

Lemma acceptBlock_failure_keeps_tip_witness :
  tip (snd (acceptBlock Toy.block7bad true Toy.chain6)) = tip Toy.chain6 /\
  db (snd (acceptBlock Toy.block7bad true Toy.chain6)) = db Toy.chain6.
Proof.
  destruct (acceptBlock_failure_keeps_tip Toy.block7bad true Toy.chain6
              (snd (acceptBlock Toy.block7bad true Toy.chain6)) errInvalidStateHash)
    as (Htip & Hdb & _).
  - apply ChainFacts.pair_of_fst. vm_compute. reflexivity.
  - split; [exact Htip | exact Hdb].
Defined.

Lemma persist_all_or_nothing_witness :
  tip (snd (persist Toy.block7 Toy.chain6)) = tip Toy.chain6 /\
  trace (snd (persist Toy.block7 Toy.chain6))
    = trace Toy.chain6 ++ [CallStoreBlock Toy.block7 false].
Proof.
  destruct (persist_all_or_nothing Toy.block7 Toy.chain6
              (snd (persist Toy.block7 Toy.chain6))
              (fst (persist Toy.block7 Toy.chain6)))
    as (_ & _ & Htip & _ & Hcase).
  - apply surjective_pairing.
  - split; [exact Htip|].
    destruct (decide _) as [[_ Hp]|_] in Hcase.
    + vm_compute in Hp. discriminate.
    + exact (proj1 Hcase).
Defined.

Lemma TryNextConsecutiveBlockIsValid_changes_nothing_witness :
  tip (snd (TryNextConsecutiveBlockIsValid Toy.block7 Toy.chain6)) = tip Toy.chain6 /\
  fst (TryNextConsecutiveBlockIsValid Toy.block7 Toy.chain6) = None.
Proof.
  destruct (TryNextConsecutiveBlockIsValid_changes_nothing Toy.block7 Toy.chain6
              (snd (TryNextConsecutiveBlockIsValid Toy.block7 Toy.chain6))
              (fst (TryNextConsecutiveBlockIsValid Toy.block7 Toy.chain6)))
    as (Htip & _ & _ & _ & _ & _ & Hr & _).
  - apply surjective_pairing.
  - split; [exact Htip | exact Hr].
Defined.

Lemma ProcessBlockFromNetwork_other_cases_witness :
  ProcessBlockFromNetwork "peer" [] Toy.block6 Toy.chain6 = (([], None), Toy.chain6).
Proof.
  exact (proj1 (ProcessBlockFromNetwork_other_cases "peer" [] Toy.block6 Toy.chain6
                  eq_refl) eq_refl eq_refl).
Defined.

Lemma syncWithRusk_compares_state_first_witness :
  syncWithRusk 0 Toy.chain6stored
  = Some (None, setTip Toy.block6 (call CallGetStateRoot Toy.chain6stored)).
Proof.
  refine (proj2 (syncWithRusk_compares_state_first 0 Toy.chain6stored
                   (Toy.hash32 Byte.x06) (Toy.hash32 Byte.xc6) Toy.block6 Toy.block6
                   _ _ _) _ _).
  - reflexivity.
  - vm_compute. reflexivity.
  - vm_compute. reflexivity.
  - reflexivity.
  - reflexivity.
Defined.

Lemma some_of_default {A : Type} (o : option A) (d : A) :
  match o with Some _ => true | None => false end = true -> o = Some (default d o).
Proof. destruct o; [reflexivity | discriminate]. Defined.

(** Recovery at the chain of [Toy] whose store is one block ahead of the
    executor: the block of height 7 is accepted again. *)
Lemma syncWithRusk_skips_sanity_check_witness :
  let x := default (None, Toy.chain7stored) (syncWithRusk 2 Toy.chain7stored) in
  syncWithRusk 2 Toy.chain7stored = Some (fst x, snd x) /\
  Height (Hdr (tip (snd x))) = 7 /\
  exists added,
    trace (snd x) = trace Toy.chain7stored ++ added /\ sanityChecks added = [].
Proof.
  intros x.
  assert (Hrun : syncWithRusk 2 Toy.chain7stored = Some (fst x, snd x)).
  { rewrite <- surjective_pairing. apply some_of_default. vm_compute. reflexivity. }
  split; [exact Hrun|]. split.
  - vm_compute. reflexivity.
  - exact (proj2 (proj2 (syncWithRusk_skips_sanity_check 2 Toy.chain7stored _ _ Hrun))).
Defined.

End ChainMore.

(** ** Selector: a round of score collection *)

Module SelectionMore.

Import Selection.

Section Selector.

Context `{SH : ScoreHandler}.


(** X22: [Process] on a selector that has a best event always returns,
    and never changes handler, timeout, id or the goroutines launched.
    When the best event is not the empty score and has priority over the
    incoming score, it returns nil and the selector is exactly as it was.
    Otherwise the outcome is decided by [Verify] and then by the encoding
    of the score: an error from either is returned with the best event and
    the calls made as they were; with neither, the incoming score is the
    best event and one call is added, the authenticated send on the score
    topic of its vote hash and its encoding under the selector's id. *)
Theorem Process_sends_only_new_best (ev best : Score) (s : Selector) :
  bestEvent s = Some best ->
  exists r s',
    Process ev s = Returned (r, s') /\
    handler s' = handler s /\ timeout s' = timeout s /\ scoreID s' = scoreID s /\
    spawned s' = spawned s /\
    (negb (Equal best emptyScore) && Priority (handler s) best ev = true ->
     r = None /\ s' = s) /\
    (negb (Equal best emptyScore) && Priority (handler s) best ev = false ->
     match Verify (handler s) ev, MarshalScore ev with
     | Some e, _ =>
         r = Some e /\ bestEvent s' = Some best /\ effects s' = effects s
     | None, Err e =>
         r = Some e /\ bestEvent s' = Some best /\ effects s' = effects s
     | None, Ok buf =>
         r = None /\ bestEvent s' = Some ev /\
         effects s' = effects s
                      ++ [SendAuthenticated ScoreTopic (VoteHash ev) buf (scoreID s)]
     end).
Proof.
  intros Hbest. unfold Process. rewrite Hbest.
  destruct (negb (Equal best emptyScore) && Priority (handler s) best ev).
  { exists None, s. repeat split; done. }
  simpl. destruct (Verify (handler s) ev) as [e1|] eqn:Hver.
  { eexists _, _. split; [reflexivity|]. repeat split; done. }
  unfold repropagate. destruct (MarshalScore ev) as [buf|e1] eqn:Hm.
  - eexists _, _. split; [reflexivity|]. repeat split; done.
  - eexists _, _. split; [reflexivity|]. repeat split; done.
Qed.



End Selector.

(** [Process] at the selector of [Toy] whose best event is a score of 50,
    handed a score of 60: the best event has no priority, the score is
    above the threshold and encodes, so it is the new best event. *)
Lemma Process_sends_only_new_best_witness :
  bestEvent Toy.selectorBest = Some (50, Toy.hash32 Byte.xa1) /\
  exists s',
    Process (60, Toy.hash32 Byte.xb2) Toy.selectorBest = Returned (None, s') /\
    bestEvent s' = Some (60, Toy.hash32 Byte.xb2) /\
    effects s'
    = effects Toy.selectorBest
      ++ [SendAuthenticated ScoreTopic (Toy.hash32 Byte.xb2)
            (PutUint64 60 ++ Toy.hash32 Byte.xb2) 1].
Proof.
  split; [reflexivity|].
  destruct (Process_sends_only_new_best (SH := Toy.scoreHandler)
              (60, Toy.hash32 Byte.xb2) (50, Toy.hash32 Byte.xa1)
              Toy.selectorBest eq_refl)
    as (r & s' & Hrun & _ & _ & _ & _ & _ & Hnew).
  assert (Hno : negb (Equal (50, Toy.hash32 Byte.xa1) emptyScore)
                && Priority (handler Toy.selectorBest) (50, Toy.hash32 Byte.xa1)
                     (60, Toy.hash32 Byte.xb2) = false).
  { vm_compute. reflexivity. }
  destruct (Hnew Hno) as (Hr & Hb & He).
  exists s'. rewrite <- Hr. split; [exact Hrun|]. split; [exact Hb | exact He].
Defined.

End SelectionMore.

(** ** Reduction aggregator: votes past the quorum and votes without weight *)

Module ReductionMore.

Import Reduction.

Section Aggregation.

Context `{RH : Handler}.

(** X26: a vote whose sender has no voting weight at the vote's round and
    step ([VotesFor] is zero or less) inserts nothing into any cluster, so
    it gets a result only if the quorum of its hash had been reached
    before; its signature is aggregated all the same: the entry of its
    hash holds the [StepVotes] that [Add] returned for it (with the bitset
    set when a result is returned), and no other entry changes. *)
Theorem CollectVote_weightless (ev : ReductionMsg) (a a' : Aggregator)
    (r : option Result) :
  let hdr := State ev in
  VotesFor (PubKeyBLS hdr) (Round hdr) (MStep hdr) <= 0 ->
  CollectVote ev a = Returned (r, a') ->
  (forall h, clusterOf a' h = clusterOf a h) /\
  (forall h, h <> BlockHash hdr -> voteSets a' !! h = voteSets a !! h) /\
  (is_Some r <-> Quorum (Round hdr) <= TotalOccurrences (clusterOf a (BlockHash hdr))) /\
  exists added sv,
    Add (SignedHash ev) (PubKeyBLS hdr) (MStep hdr)
      (match voteSets a !! BlockHash hdr with
       | Some e => fst e
       | None => NewStepVotes
       end) = Ok added /\
    voteSets a' !! BlockHash hdr = Some (sv, clusterOf a (BlockHash hdr)) /\
    Apk sv = Apk added /\ Signature sv = Signature added /\ SVStep sv = SVStep added.
Proof.
  intros hdr Hw Hret.
  assert (Hn : weightOf ev = 0%nat).
  { unfold weightOf. fold hdr. lia. }
  pose proof (ReductionFacts.CollectVote_returns _ _ _ _ Hret) as Hr.
  cbn zeta in Hr. fold hdr in Hr. rewrite Hn in Hr. cbn [insertTimes] in Hr.
  destruct Hr as ((sv & Hsv & _) & Hother & Hq).
  split; [|split; [exact Hother|split; [exact Hq|]]].
  - intros h. rewrite (ReductionFacts.CollectVote_clusterOf _ _ _ _ h Hret).
    rewrite Hn. by destruct (decide _).
  - revert Hret Hsv. unfold CollectVote. fold hdr.
    assert (He : fst (match voteSets a !! BlockHash hdr with
                      | Some sv0 => sv0
                      | None => (NewStepVotes, NewCluster)
                      end)
                 = match voteSets a !! BlockHash hdr with
                   | Some e => fst e
                   | None => NewStepVotes
                   end).
    { by destruct (voteSets a !! BlockHash hdr). }
    rewrite He.
    destruct (Add _ _ _ _) as [added|e]; [|discriminate].
    destruct (_ <=? _); intros Hret Hsv; inversion Hret; subst a'; simpl in Hsv;
      rewrite lookup_insert_eq in Hsv; inversion Hsv; subst sv;
      exists added; eexists; (split; [reflexivity|]);
      (split; [apply lookup_insert_eq|]); done.
Qed.

End Aggregation.

Section Helper.

Context `{RH : Handler}.

Variable MockReduction : bytes -> Z -> Z -> list bytes -> nat -> ReductionMsg.

Lemma votesOf_nonneg (round step : Z) (keys : list bytes) :
  (forall k, In k keys -> 0 <= VotesFor k round step) ->
  0 <= votesOf round step keys.
Proof.
  induction keys as [|k rest IH]; intros Hpos; simpl; [lia|].
  pose proof (Hpos k (or_introl eq_refl)).
  assert (0 <= votesOf round step rest) by (apply IH; intros; apply Hpos; by right).
  lia.
Qed.

Lemma spawnFrom_counts (keys : list bytes) (hash : bytes) (round step : Z)
    (rest : list bytes) :
  forall (i : nat) (count : Z) (evs : list ReductionMsg),
    0 <= count ->
    (forall k, In k rest -> 0 <= VotesFor k round step) ->
    count + votesOf round step rest < 2 ^ 63 ->
    match spawnFrom MockReduction keys hash round step rest i count evs with
    | Returned out =>
        exists n : nat,
          (n <= length rest)%nat /\
          out = evs ++ map (MockReduction hash round step keys) (seq i n) /\
          Quorum round <= count + votesOf round step (take n rest) /\
          forall m : nat, (m < n)%nat ->
            count + votesOf round step (take m rest) < Quorum round
    | Panicked _ => count + votesOf round step rest < Quorum round
    end.
Proof.
  induction rest as [|k rest IH]; intros i count evs Hcount Hpos Hsmall;
    cbn [spawnFrom]; destruct (Quorum round <=? count) eqn:Hq.
  - apply Z.leb_le in Hq. exists 0%nat. simpl. rewrite app_nil_r.
    repeat split; lia || done.
  - apply Z.leb_gt in Hq. simpl. lia.
  - apply Z.leb_le in Hq. exists 0%nat. cbn [take votesOf fold_right seq map].
    rewrite app_nil_r. repeat split; lia || done.
  - apply Z.leb_gt in Hq.
    pose proof (Hpos k (or_introl eq_refl)) as Hk.
    assert (Hrest : 0 <= votesOf round step rest).
    { apply votesOf_nonneg. intros; apply Hpos; by right. }
    cbn [votesOf fold_right] in Hsmall. fold (votesOf round step rest) in Hsmall.
    rewrite SelectionFacts.int64_small by lia.
    specialize (IH (S i) (count + VotesFor k round step)
                  (evs ++ [MockReduction hash round step keys i])).
    destruct (spawnFrom _ _ _ _ _ _ _ _ _) as [out|e].
    + destruct IH as (n & Hn & Hout & Hreach & Hbelow);
        [lia | intros; apply Hpos; by right | lia |].
      exists (S n). cbn [take votesOf fold_right seq map length].
      fold (votesOf round step (take n rest)).
      split; [lia|]. split; [by rewrite Hout, <- app_assoc|]. split; [lia|].
      intros [|m] Hm.
      * cbn. lia.
      * cbn [take votesOf fold_right]. fold (votesOf round step (take m rest)).
        specialize (Hbelow m). lia.
    + cbn [votesOf fold_right]. fold (votesOf round step rest).
      assert (count + VotesFor k round step + votesOf round step rest < Quorum round);
        [|lia].
      apply IH; [lia | intros; apply Hpos; by right | lia].
Qed.

(** X27: [Spawn] counts, for each event it builds, the votes of the key
    after the one that signed the event.  With votes that are not
    negative and do not overflow an [int], it returns the events of the
    first [n] keys, where [n] is the least number for which the votes of
    the keys 1 to [n] reach the quorum (the votes of key 0 are never
    counted, those of key [n] are, though it signed no event); when the
    votes of all keys but the first stay below the quorum, it panics with
    the index out of range. *)
Theorem Spawn_counts_next_key (keys : list bytes) (hash : bytes) (round step : Z) :
  (forall k, In k (drop 1 keys) -> 0 <= VotesFor k round step) ->
  votesOf round step (drop 1 keys) < 2 ^ 63 ->
  match Spawn MockReduction keys hash round step with
  | Returned evs =>
      exists n : nat,
        (n <= length keys - 1)%nat /\
        evs = map (MockReduction hash round step keys) (seq 0 n) /\
        Quorum round <= votesOf round step (take n (drop 1 keys)) /\
        forall m : nat, (m < n)%nat ->
          votesOf round step (take m (drop 1 keys)) < Quorum round
  | Panicked _ => votesOf round step (drop 1 keys) < Quorum round
  end.
Proof.
  intros Hpos Hsmall. unfold Spawn.
  pose proof (spawnFrom_counts keys hash round step (drop 1 keys) 0 0 []) as Hs.
  destruct (spawnFrom _ _ _ _ _ _ _ _ _) as [out|e].
  - destruct Hs as (n & Hn & Hout & Hreach & Hbelow); [lia | exact Hpos | lia |].
    exists n. rewrite length_drop in Hn.
    split; [exact Hn|]. split; [exact Hout|]. split; [lia|].
    intros m Hm. specialize (Hbelow m Hm). lia.
  - assert (0 + votesOf round step (drop 1 keys) < Quorum round); [|lia].
    apply Hs; [lia | exact Hpos | lia].
Qed.

End Helper.

Lemma returned_of_default {A B : Type} (o : outcome (A * B)) (d : A * B) :
  match o with Returned _ => true | Panicked _ => false end = true ->
  o = Returned (fst (match o with Returned x => x | Panicked _ => d end),
                snd (match o with Returned x => x | Panicked _ => d end)).
Proof. destruct o as [[a b]|e]; [reflexivity | discriminate]. Defined.

(** Five votes of [Toy]: the fourth takes its hash to 6 of the 4 needed,
    and the fifth, for the same hash, gets a result as well. *)
Lemma result_after_quorum_witness :
  exists res',
    fst (match collectVotes (Toy.votes4 ++ [Toy.vote Byte.x01 (Toy.hash32 Byte.xa1)])
                 NewAggregator with
         | Returned x => x
         | Panicked _ => ([], NewAggregator)
         end) !! 4%nat = Some (Some res').
Proof.
  pose (evs := Toy.votes4 ++ [Toy.vote Byte.x01 (Toy.hash32 Byte.xa1)]).
  pose (x := match collectVotes evs NewAggregator with
             | Returned x => x
             | Panicked _ => ([], NewAggregator)
             end).
  assert (Hres : exists res, fst x !! 3%nat = Some (Some res)).
  { eexists. vm_compute. reflexivity. }
  destruct Hres as (res & Hres).
  refine (ReductionFacts.result_after_quorum evs (fst x) (snd x) 3 4
            (Toy.vote Byte.x03 (Toy.hash32 Byte.xa1))
            (Toy.vote Byte.x01 (Toy.hash32 Byte.xa1)) res _ _ _ _ _ _ Hres).
  - apply returned_of_default. vm_compute. reflexivity.
  - reflexivity.
  - reflexivity.
  - lia.
  - reflexivity.
  - reflexivity.
Defined.

(** A vote of [Toy]'s key 4, which has no weight, at a fresh aggregator. *)
Lemma CollectVote_weightless_witness :
  clusterOf (snd (match CollectVote (Toy.vote Byte.x04 (Toy.hash32 Byte.xa1))
                          NewAggregator with
                  | Returned x => x
                  | Panicked _ => (None, NewAggregator)
                  end)) (Toy.hash32 Byte.xa1)
  = clusterOf NewAggregator (Toy.hash32 Byte.xa1).
Proof.
  pose (x := match CollectVote (Toy.vote Byte.x04 (Toy.hash32 Byte.xa1))
                     NewAggregator with
             | Returned x => x
             | Panicked _ => (None, NewAggregator)
             end).
  refine (proj1 (CollectVote_weightless (Toy.vote Byte.x04 (Toy.hash32 Byte.xa1))
                   NewAggregator (snd x) (fst x) _ _) (Toy.hash32 Byte.xa1)).
  - vm_compute. discriminate.
  - apply returned_of_default. vm_compute. reflexivity.
Defined.

(** [Spawn] over the four keys of [Toy], with votes 1, 2, 3 and 0 and a
    quorum of 4: two events, signed by keys whose own votes add up to 3. *)
Lemma Spawn_counts_next_key_witness :
  exists n : nat,
    Spawn Toy.mockReduction Toy.committee4 (Toy.hash32 Byte.xa1) 1 1
    = Returned (map (Toy.mockReduction (Toy.hash32 Byte.xa1) 1 1 Toy.committee4)
                  (seq 0 n)) /\
    Quorum 1 <= votesOf 1 1 (take n (drop 1 Toy.committee4)).
Proof.
  pose proof (Spawn_counts_next_key Toy.mockReduction Toy.committee4
                (Toy.hash32 Byte.xa1) 1 1) as Hs.
  destruct (Spawn Toy.mockReduction Toy.committee4 (Toy.hash32 Byte.xa1) 1 1)
    as [evs|e] eqn:Hrun; [|vm_compute in Hrun; discriminate].
  destruct Hs as (n & _ & Hevs & Hreach & _).
  - intros k Hin. vm_compute in Hin.
    destruct Hin as [<-|[<-|[<-|[]]]]; vm_compute; discriminate.
  - vm_compute. reflexivity.
  - exists n. by rewrite Hevs.
Defined.

End ReductionMore.
